(** * mesh_sphere_packing.tetmesh: assembly of the TetGen input and mesh writers

    A shallow embedding of [src/mesh_sphere_packing/tetmesh.py].

    - numpy [float64] values are Rocq's primitive binary64 floats;
    - an [(n,3)] array of coordinates is a list of triples of floats, an
      [(m,3)] array of vertex indices a list of triples of naturals (the
      triangles of the sources hold no negative entry, and the statements
      about them are for indices that stay in the range of the 32-bit
      arrays);
    - an array of markers is given by the type of its entries and the
      numbers it holds;
    - Python dictionaries are [gmap]s, a failed subscript raises [KeyError];
    - the in-place updates of [tris] and [points] are returned as new values
      of the objects (every object of the argument lists is taken to be a
      distinct object, as [build_tetmesh] provides them);
    - the radius query of scipy's [cKDTree] is a parameter of the sections
      that use it (the decision "at distance at most [TOL]"); the examples
      run it on floats as a comparison of squared distances; the tree is
      built from finite points only;
    - a file is the text written to it or read from it; a loop that may not
      end takes the number of rounds it may run. *)

From Stdlib Require Import Floats ZArith String Ascii.
From stdpp Require Import gmap list sorting strings.

Set Warnings "-inexact-float,-clear-no-such-hyp".
Set Default Proof Using "Type".

Local Open Scope Z_scope.
Local Open Scope nat_scope.

(** ** Python exceptions and the error monad *)

Inductive exn : Type :=
  | KeyError
  | IndexError
  | ValueError
  | UnicodeDecodeError
  | TypeError.

Inductive result (A : Type) : Type :=
  | Ok (a : A)
  | Raise (e : exn).
Arguments Ok {A} a.
Arguments Raise {A} e.

Definition rbind {A B : Type} (r : result A) (k : A → result B) : result B :=
  match r with
  | Ok a => k a
  | Raise e => Raise e
  end.

Notation "'do' x <- r ; k" := (rbind r (λ x, k))
  (at level 10, x pattern, r at level 100, k at level 200).

(** [d[k]] on a dictionary. *)
Definition subscript (d : gmap nat nat) (k : nat) : result nat :=
  match d !! k with
  | Some v => Ok v
  | None => Raise KeyError
  end.

(** [l[i]] on a list, for a non-negative [i]. *)
Definition item {A : Type} (l : list A) (i : nat) : result A :=
  match l !! i with
  | Some a => Ok a
  | None => Raise IndexError
  end.

(** A list comprehension whose body may raise. *)
Fixpoint comprehension {A B : Type} (f : A → result B) (l : list A) : result (list B) :=
  match l with
  | [] => Ok []
  | a :: l' => do b <- f a; do bs <- comprehension f l'; Ok (b :: bs)
  end.

(** ** Coordinates *)

Definition vec3 : Type := (float * float * float)%type.

(** [[f(j) for j in range(3)]] *)
Definition row3 (f : nat → float) : vec3 := (f 0, f 1, f 2).

(** [p[j]] for [j] in [range(3)] (the columns [points[:,j]]). *)
Definition coord (j : nat) (p : vec3) : float :=
  match j with
  | 0 => p.1.1
  | 1 => p.1.2
  | _ => p.2
  end.

Definition vadd (p t : vec3) : vec3 := row3 (λ j, (coord j p + coord j t)%float).

(** ** numpy *)

Module np.

(** Default tolerances of [numpy.isclose]. *)
Definition rtol : float := 1e-5%float.
Definition atol : float := 1e-8%float.

Definition isfinite (x : float) : bool :=
  negb (PrimFloat.is_nan x) && negb (PrimFloat.is_infinity x).

(** [numpy.isclose(a, b)] with the default [rtol], [atol] and
    [equal_nan=False]: [|a - b| <= atol + rtol * |b|] for a finite [b], or
    [a == b]. *)
Definition isclose (a b : float) : bool :=
  (PrimFloat.leb (abs (a - b)) (atol + rtol * abs b) && isfinite b)
  || PrimFloat.eqb a b.

(** [arr[mask]] for a boolean [mask]. *)
Fixpoint compress {A : Type} (mask : list bool) (arr : list A) : list A :=
  match mask, arr with
  | m :: mask', a :: arr' =>
      if m then a :: compress mask' arr' else compress mask' arr'
  | _, _ => []
  end.

(** [numpy.where(mask)[0]], counting from [i]. *)
Fixpoint where_from (i : nat) (mask : list bool) : list nat :=
  match mask with
  | [] => []
  | m :: mask' => if m then i :: where_from (S i) mask' else where_from (S i) mask'
  end.

Definition where_ (mask : list bool) : list nat := where_from 0 mask.

(** [numpy.full(n, v)] *)
Definition full {A : Type} (n : nat) (v : A) : list A := replicate n v.

(** [numpy.vstack] of a list of [(n_i,3)] arrays, [numpy.hstack] of a list
    of one-dimensional arrays. *)
Definition vstack {A : Type} (arrs : list (list A)) : list A := concat arrs.
Definition hstack {A : Type} (arrs : list (list A)) : list A := concat arrs.

End np.

(** ** The data model *)

Definition tri : Type := (nat * nat * nat)%type.

(** A function on the entries of a row, and [tris + n]. *)
Definition tri_map (f : nat → nat) (t : tri) : tri := (f t.1.1, f t.1.2, f t.2).
Definition tri_offset (n : nat) (t : tri) : tri := tri_map (λ v, v + n) t.
Definition tri_valid (n : nat) (t : tri) : Prop := t.1.1 < n ∧ t.1.2 < n ∧ t.2 < n.

Record Domain : Type := { L : vec3 }.

Record Sphere : Type := { id : Z; x : vec3 }.

Module SpherePiece.
Record t : Type := mk {
  points : list vec3;
  tris : list tri;
  sphere : Sphere;
  is_hole : bool;
}.
Definition set_tris (p : t) (ts : list tri) : t :=
  mk (points p) ts (sphere p) (is_hole p).
End SpherePiece.

Module BoundaryPLC.
Record t : Type := mk {
  points : list vec3;
  tris : list tri;
  face_markers : list Z;
  holes : list vec3;
}.
Definition set_points (b : t) (ps : list vec3) : t :=
  mk ps (tris b) (face_markers b) (holes b).
Definition set_tris (b : t) (ts : list tri) : t :=
  mk (points b) ts (face_markers b) (holes b).
End BoundaryPLC.

(** ** [duplicate_lower_boundaries] *)

(** [np.array([[domain.L[j] if j==i else 0. for j in range(3)]])] *)
Definition translate (domain : Domain) (i : nat) : vec3 :=
  row3 (λ j, if decide (j = i) then coord j (L domain) else 0%float).

(** [deepcopy] of a list of value objects. *)
Definition deepcopy {A : Type} (a : A) : A := a.

Definition duplicate_lower_boundaries (domain : Domain)
    (lower_boundaries : list BoundaryPLC.t) : list BoundaryPLC.t :=
  let upper_boundaries := deepcopy lower_boundaries in
  let upper_boundaries :=
    imap (λ i ub,
            BoundaryPLC.set_points ub
              (map (λ p, vadd p (translate domain i)) (BoundaryPLC.points ub)))
         upper_boundaries in
  lower_boundaries ++ upper_boundaries.


(** ** [build_point_list] *)

Section build_point_list.

(** The decision behind [cKDTree(boundary_points).query_pairs(TOL)]: the
    two points are at distance at most [TOL]. *)
Variable within_TOL : vec3 → vec3 → bool.

(** The indices [j, j+1, ...] of the points of [rest] that are within
    [TOL] of [p]. *)
Fixpoint partners (p : vec3) (j : nat) (rest : list vec3) : list nat :=
  match rest with
  | [] => []
  | q :: rest' =>
      if within_TOL p q then j :: partners p (S j) rest'
      else partners p (S j) rest'
  end.

Fixpoint pairs_from (i : nat) (pts : list vec3) : list (nat * nat) :=
  match pts with
  | [] => []
  | p :: rest => map (pair i) (partners p (S i) rest) ++ pairs_from (S i) rest
  end.

(** [sorted(tree.query_pairs(TOL), key=lambda x: x[0])]: the set of the
    pairs [(i,j)], [i < j], of points within [TOL] of each other, sorted
    by the first index. The sort is stable and the set is unordered, so the
    order among the pairs of one first index is not determined; they are
    listed here by second index, and [build_dup_any_order] shows that the
    dictionary built from them is the same for every such order. *)
Definition sorted_query_pairs (pts : list vec3) : list (nat * nat) :=
  pairs_from 0 pts.

(** [i] and [j] index a pair of the radius query over [pts]. *)
Definition is_pair (pts : list vec3) (i j : nat) : Prop :=
  i < j ∧ ∃ p q, pts !! i = Some p ∧ pts !! j = Some q ∧ within_TOL p q = true.

(** [for k, v in _dup: if not v in dup: dup[v] = k] *)
Definition dup_step (dup : gmap nat nat) (kv : nat * nat) : gmap nat nat :=
  match dup !! kv.2 with
  | Some _ => dup
  | None => <[kv.2 := kv.1]> dup
  end.

Definition build_dup (_dup : list (nat * nat)) : gmap nat nat :=
  foldl dup_step ∅ _dup.

(** [arr[k] = v] for a single non-negative index. *)
Definition setitem {A : Type} (arr : list A) (k : nat) (v : A) : result (list A) :=
  if decide (k < length arr) then Ok (<[k := v]> arr) else Raise IndexError.

(** [mask[keys] = False] *)
Fixpoint mask_out (keys : list nat) (mask : list bool) : result (list bool) :=
  match keys with
  | [] => Ok mask
  | k :: keys' => do mask' <- setitem mask k false; mask_out keys' mask'
  end.

(** [enumerate(l)] *)
Definition enumerate {A : Type} (l : list A) : list (nat * A) :=
  zip (seq 0 (length l)) l.

(** [d.update(e)] *)
Definition update (d e : gmap nat nat) : gmap nat nat := e ∪ d.

(** The mask left by [mask[list(dup.keys())] = False] on an array [pts]:
    position [i] stays [True] when [i] is not a key of [dup]. *)
Definition kept_mask (pts : list vec3) : list bool :=
  map (λ i, bool_decide (build_dup (sorted_query_pairs pts) !! i = None))
      (seq 0 (length pts)).

(** The test of the six boundary planes:
    [on_x_lower | on_y_lower | on_z_lower | on_x_upper | on_y_upper | on_z_upper]. *)
Definition on_boundary (domain : Domain) (p : vec3) : bool :=
  np.isclose (coord 0 p) 0 || np.isclose (coord 1 p) 0
  || np.isclose (coord 2 p) 0
  || np.isclose (coord 0 p) (coord 0 (L domain))
  || np.isclose (coord 1 p) (coord 1 (L domain))
  || np.isclose (coord 2 p) (coord 2 (L domain)).

(** The loop over the sphere pieces: collects the point arrays and adds the
    running vertex count to the triangles of each piece. *)
Fixpoint piece_loop (vcount : nat) (sphere_pieces : list SpherePiece.t)
    : list (list vec3) * list SpherePiece.t :=
  match sphere_pieces with
  | [] => ([], [])
  | p :: rest =>
      let p' := SpherePiece.set_tris p
                  (map (tri_offset vcount) (SpherePiece.tris p)) in
      let r := piece_loop (vcount + length (SpherePiece.points p)) rest in
      (SpherePiece.points p :: r.1, p' :: r.2)
  end.

(** The same loop over the boundaries. *)
Fixpoint boundary_loop (vcount : nat) (boundaries : list BoundaryPLC.t)
    : list (list vec3) * list BoundaryPLC.t :=
  match boundaries with
  | [] => ([], [])
  | b :: rest =>
      let b' := BoundaryPLC.set_tris b
                  (map (tri_offset vcount) (BoundaryPLC.tris b)) in
      let r := boundary_loop (vcount + length (BoundaryPLC.points b)) rest in
      (BoundaryPLC.points b :: r.1, b' :: r.2)
  end.

(** [remap[reindex[v]]] for the three vertices of a triangle. *)
Definition reindex_tri (remap reindex : gmap nat nat) (t : tri) : result tri :=
  do a <- (do r <- subscript reindex t.1.1; subscript remap r);
  do b <- (do r <- subscript reindex t.1.2; subscript remap r);
  do c <- (do r <- subscript reindex t.2; subscript remap r);
  Ok (a, b, c).

Definition reindex_boundary (remap reindex : gmap nat nat) (b : BoundaryPLC.t)
    : result BoundaryPLC.t :=
  do ts <- comprehension (reindex_tri remap reindex) (BoundaryPLC.tris b);
  Ok (BoundaryPLC.set_tris b ts).

(** [cKDTree(data)]: the constructor refuses an array that holds a NaN or
    an infinity ([ValueError: data must be finite]). *)
Definition finite_point (p : vec3) : bool :=
  np.isfinite p.1.1 && np.isfinite p.1.2 && np.isfinite p.2.

Definition cKDTree (data : list vec3) : result unit :=
  if forallb finite_point data then Ok tt else Raise ValueError.

(** The value is the returned array together with the sphere pieces and the
    boundaries as the call leaves them. The items of [dup] are taken in the
    order of [map_to_list]; the mask and the update of [reindex] do not
    depend on the order, the keys being distinct. *)
Definition build_point_list (domain : Domain)
    (sphere_pieces : list SpherePiece.t) (boundaries : list BoundaryPLC.t)
    : result (list vec3 * list SpherePiece.t * list BoundaryPLC.t) :=
  let '(piece_points, sphere_pieces) := piece_loop 0 sphere_pieces in
  let piece_points :=
    if decide (length piece_points ≠ 0) then np.vstack piece_points else [] in
  let bpp_idx := np.where_ (map (on_boundary domain) piece_points) in
  let remap : gmap nat nat := list_to_map (enumerate bpp_idx) in
  let vcount := length bpp_idx in
  let '(boundary_points, boundaries) := boundary_loop vcount boundaries in
  do bpp <- comprehension (item piece_points) bpp_idx;
  let boundary_points := np.vstack (bpp :: boundary_points) in
  let mask := np.full (length boundary_points) true in
  (* Find duplicated vertices *)
  do tree <- cKDTree boundary_points;
  let _dup := sorted_query_pairs boundary_points in
  let dup := build_dup _dup in
  (* Remove duplicated vertices *)
  do mask <- mask_out (map_to_list dup).*1 mask;
  let boundary_points := np.compress mask boundary_points in
  (* Reindex triangles *)
  let vcount_bpp := length bpp_idx in
  let vcount_piece := length piece_points in
  let remap :=
    update remap
      (list_to_map
         (map (λ v, (v + vcount_bpp, v + vcount_piece))
              (seq 0 (length boundary_points - length bpp_idx)))) in
  let reindex : gmap nat nat :=
    list_to_map (map (λ no, (no.2, no.1)) (enumerate (np.where_ mask))) in
  do upd <- comprehension
              (λ kv, do r <- subscript reindex kv.2; Ok (kv.1, r))
              (map_to_list dup);
  let reindex := update reindex (list_to_map upd) in
  do boundaries <- comprehension (reindex_boundary remap reindex) boundaries;
  Ok (piece_points ++ drop vcount_bpp boundary_points,
      sphere_pieces, boundaries).

(** The arrays of a call, named for the statements about it: the stacked
    points of the sphere pieces, those of the boundaries, the mask of the
    sphere-piece points on a boundary plane, and [boundary_points] as it is
    handed to the radius query. *)
Definition piece_points_of (sphere_pieces : list SpherePiece.t) : list vec3 :=
  np.vstack (map SpherePiece.points sphere_pieces).

Definition patch_points_of (boundaries : list BoundaryPLC.t) : list vec3 :=
  np.vstack (map BoundaryPLC.points boundaries).

Definition bpp_mask (domain : Domain) (sphere_pieces : list SpherePiece.t) : list bool :=
  map (on_boundary domain) (piece_points_of sphere_pieces).

Definition boundary_points_of (domain : Domain) (sphere_pieces : list SpherePiece.t)
    (boundaries : list BoundaryPLC.t) : list vec3 :=
  np.compress (bpp_mask domain sphere_pieces) (piece_points_of sphere_pieces)
  ++ patch_points_of boundaries.

(** No two entries of [pts] are within [TOL] of each other: the radius
    query over [pts] has no pair. *)
Definition no_near_duplicates (pts : list vec3) : Prop :=
  ∀ i j p q, i < j → pts !! i = Some p → pts !! j = Some q → within_TOL p q = false.

(** The triangles of the sources hold indices of an array of [n] points. *)
Definition pieces_valid (n : nat) (sphere_pieces : list SpherePiece.t) : Prop :=
  Forall (λ p, Forall (tri_valid n) (SpherePiece.tris p)) sphere_pieces.

Definition boundaries_valid (n : nat) (boundaries : list BoundaryPLC.t) : Prop :=
  Forall (λ b, Forall (tri_valid n) (BoundaryPLC.tris b)) boundaries.

(** Every triangle indexes the points of its own source. *)
Definition pieces_locally_valid (sphere_pieces : list SpherePiece.t) : Prop :=
  Forall (λ p, Forall (tri_valid (length (SpherePiece.points p))) (SpherePiece.tris p))
         sphere_pieces.

Definition boundaries_locally_valid (boundaries : list BoundaryPLC.t) : Prop :=
  Forall (λ b, Forall (tri_valid (length (BoundaryPLC.points b))) (BoundaryPLC.tris b))
         boundaries.

(** The entry [g] of [out] stands for the point [p]: it is [p] itself, or a
    point that the radius query pairs with [p]. *)
Definition stands_for (out : list vec3) (g : nat) (p : vec3) : Prop :=
  ∃ q, out !! g = Some q ∧ (q = p ∨ within_TOL q p = true).

(** The three vertices of the triangle [t'] over [out] stand for the points
    that the vertices of [t] index in [points]. *)
Definition tri_stands_for (out points : list vec3) (t t' : tri) : Prop :=
  (∀ p, points !! t.1.1 = Some p → stands_for out t'.1.1 p)
  ∧ (∀ p, points !! t.1.2 = Some p → stands_for out t'.1.2 p)
  ∧ (∀ p, points !! t.2 = Some p → stands_for out t'.2 p).

End build_point_list.

(** An instance of the radius query on floats: the squared Euclidean
    distance against the squared radius. *)
Definition sq_dist (p q : vec3) : float :=
  let d := λ j : nat, (coord j p - coord j q)%float in
  (d 0%nat * d 0%nat + d 1%nat * d 1%nat + d 2%nat * d 2%nat)%float.

Definition within (r : float) (p q : vec3) : bool :=
  PrimFloat.leb (sq_dist p q) (r * r).

(** Modelled from the spec: the constant [TOL] that the module imports from
    the package's [__init__] (not part of this file); the spec gives its
    scale as 1e-10. *)
Definition TOL : float := 1e-10%float.



(** ** [build_tetmesh]: fixing the boundary points to exactly zero *)

(** [p[i] = v] on a row. *)
Definition set_coord (i : nat) (v : float) (p : vec3) : vec3 :=
  row3 (λ j, if decide (j = i) then v else coord j p).

(** [points[(np.isclose(points[:,i], 0.), i)] = 0.] *)
Definition snap_axis (i : nat) (points : list vec3) : list vec3 :=
  map (λ p, if np.isclose (coord i p) 0 then set_coord i 0%float p else p) points.

(** [for i in range(3): points[(np.isclose(points[:,i], 0.), i)] = 0.] *)
Definition snap_zero (points : list vec3) : list vec3 :=
  foldl (λ points i, snap_axis i points) points (seq 0 3).

(** A point whose first coordinate is farther than [TOL] from 0 and within
    the absolute tolerance of [isclose]. *)
Definition point_5e_9 : vec3 := (5e-9, 1, 1)%float.

(** ** [build_facet_list] and [build_hole_list] *)

(** The arrays of markers. [sphere.id] is a Python integer and so is
    [sphere.id + 7]; [numpy.full(n, v)] takes the type of its entries from
    [v]: [int64] when [v] fits, [uint64] when it fits that, and otherwise
    the array keeps Python objects. An array is given here by its type and
    the numbers it holds; a [float64] array of markers holds integral
    numbers. *)
Inductive dtype : Type := int64 | uint64 | float64 | object.

Definition dtype_of (v : Z) : dtype :=
  if (- 2 ^ 63 <=? v)%Z && (v <? 2 ^ 63)%Z then int64
  else if (0 <=? v)%Z && (v <? 2 ^ 64)%Z then uint64
  else object.

(** [numpy.full(n, v)] of a Python integer. *)
Definition full_int (n : nat) (v : Z) : dtype * list Z := (dtype_of v, replicate n v).

(** The type of a stack of arrays of two types: [int64] with [uint64] gives
    [float64]. *)
Definition promote (a b : dtype) : dtype :=
  match a, b with
  | object, _ | _, object => object
  | float64, _ | _, float64 => float64
  | int64, int64 => int64
  | uint64, uint64 => uint64
  | int64, uint64 | uint64, int64 => float64
  end.

(** The [float64] nearest to an integer below [2^1024] in absolute value:
    53 significant bits, ties to even. *)
Definition float64_of_int (v : Z) : Z :=
  (let a := Z.abs v in
   if a <? 2 ^ 53 then v
   else
     let u := 2 ^ (Z.log2 a - 52) in
     let q := a / u in
     let r := a mod u in
     let q' := if 2 * r <? u then q
               else if u <? 2 * r then q + 1
               else if Z.even q then q else q + 1 in
     Z.sgn v * (q' * u))%Z.

(** The entry [v] of an integer array, in an array of type [d]. *)
Definition astype (d : dtype) (v : Z) : Z :=
  match d with
  | float64 => float64_of_int v
  | _ => v
  end.

(** [numpy.hstack] of a list of one-dimensional arrays of integers. *)
Definition hstack_int (arrs : list (dtype * list Z)) : result (dtype * list Z) :=
  match arrs with
  | [] => Raise ValueError
  | a :: rest =>
      let d := foldl promote a.1 (map fst rest) in
      Ok (d, map (astype d) (concat (map snd arrs)))
  end.

(** [all_facets.append(p.tris)] and [all_markers.append(...)] for one piece. *)
Definition facet_step (mark_offset : Z)
    (acc : list (list tri) * list (dtype * list Z))
    (p : SpherePiece.t) : list (list tri) * list (dtype * list Z) :=
  (acc.1 ++ [SpherePiece.tris p],
   acc.2 ++ [full_int (length (SpherePiece.tris p))
                      (id (SpherePiece.sphere p) + mark_offset)%Z]).

(** The two arrays that [build_facet_list] returns, the second with its
    type. *)
Definition build_facet_arrays (sphere_pieces : list SpherePiece.t)
    (boundaries : list BoundaryPLC.t) : result (list tri * (dtype * list Z)) :=
  let all_facets := map BoundaryPLC.tris boundaries in
  do f0 <- item all_facets 0;
  do f1 <- item all_facets 1;
  do f2 <- item all_facets 2;
  do f3 <- item all_facets 3;
  do f4 <- item all_facets 4;
  do f5 <- item all_facets 5;
  let all_markers :=
    [full_int (length f0) 1%Z; full_int (length f1) 3%Z;
     full_int (length f2) 5%Z; full_int (length f3) 2%Z;
     full_int (length f4) 4%Z; full_int (length f5) 6%Z] in
  let mark_offset := 7%Z in
  let all := foldl (facet_step mark_offset) (all_facets, all_markers) sphere_pieces in
  do markers <- hstack_int all.2;
  Ok (np.vstack all.1, markers).

(** The facets and the numbers of the markers. *)
Definition build_facet_list (sphere_pieces : list SpherePiece.t)
    (boundaries : list BoundaryPLC.t) : result (list tri * list Z) :=
  do arrays <- build_facet_arrays sphere_pieces boundaries;
  Ok (arrays.1, arrays.2.2).

(** [[p.sphere.x for p in sphere_pieces if p.is_hole]]; a centre is a
    one-dimensional array of three floats, stacked as one row. *)
Definition build_hole_list (sphere_pieces : list SpherePiece.t) : list vec3 :=
  let all_holes :=
    omap (λ p, if SpherePiece.is_hole p then Some (x (SpherePiece.sphere p)) else None)
         sphere_pieces in
  if decide (length all_holes ≠ 0) then np.vstack (map (λ h, [h]) all_holes)
  else [] (* np.empty((0,3), dtype=np.float64) *).

(** The fixed codes of the six boundary faces. *)
Definition boundary_codes : list Z := [1; 2; 3; 4; 5; 6]%Z.

(** ** [build_tetmesh], up to the call of TetGen *)

(** The points, the facets with their markers, and the holes that
    [build_tetmesh] hands to [tet.build]. *)
Definition build_tetmesh_input (within_TOL : vec3 → vec3 → bool) (domain : Domain)
    (sphere_pieces : list SpherePiece.t) (boundaries : list BoundaryPLC.t)
    : result (list vec3 * (list tri * list Z) * list vec3) :=
  let boundaries := duplicate_lower_boundaries domain boundaries in
  do merged <- build_point_list within_TOL domain sphere_pieces boundaries;
  let points := merged.1.1 in
  let sphere_pieces := merged.1.2 in
  let boundaries := merged.2 in
  (* Fix boundary points to exactly zero *)
  let points := snap_zero points in
  do facets_markers <- build_facet_list sphere_pieces boundaries;
  let holes := build_hole_list sphere_pieces in
  Ok (points, facets_markers, holes).

(** ** Text *)

Definition LF : ascii := "010"%char.

Definition nl : string := String LF "".

(** [str(n)] and ['%d' % n] of an integer: its decimal digits. *)
Definition digit_char (d : Z) : ascii := ascii_of_nat (48 + Z.to_nat d).

Fixpoint decimal_go (fuel : nat) (n : Z) (acc : string) : string :=
  match fuel with
  | 0 => acc
  | S fuel' =>
      let acc' := String (digit_char (n mod 10)) acc in
      if (n / 10 =? 0)%Z then acc' else decimal_go fuel' (n / 10)%Z acc'
  end.

(** The digits of [n >= 0]; a number has at most [log2 n + 1] of them. *)
Definition decimal (n : Z) : string :=
  decimal_go (S (Z.to_nat (Z.log2 n))) n "".

Definition fmt_d (n : Z) : string :=
  if (n <? 0)%Z then String "-" (decimal (- n)) else decimal n.

(** ['needle' in hay] *)
Fixpoint contains (needle hay : string) : bool :=
  String.prefix needle hay
  || match hay with
     | EmptyString => false
     | String _ hay' => contains needle hay'
     end.

(** ** [redirect_tetgen_output] and [extract_stats] *)

(** [f.readline()] on a binary file: the bytes up to and with the next
    newline, and the rest of the file; [b''] at the end of the file. *)
Fixpoint readline (f : string) : string * string :=
  match f with
  | EmptyString => (EmptyString, EmptyString)
  | String c rest =>
      if Ascii.eqb c LF then (String c EmptyString, rest)
      else let r := readline rest in (String c r.1, r.2)
  end.

(** [l.decode('ascii')] *)
Definition is_ascii (l : string) : bool :=
  forallb (λ c, Nat.ltb (nat_of_ascii c) 128) (list_ascii_of_string l).

Definition decode_ascii (l : string) : result string :=
  if is_ascii l then Ok l else Raise UnicodeDecodeError.

(** The white space of [str.split()] on ASCII text. *)
Definition is_space (c : ascii) : bool :=
  let n := nat_of_ascii c in
  (Nat.leb 9 n && Nat.leb n 13) || (Nat.leb 28 n && Nat.leb n 32).

(** [sl.split()]: [cur] is the token being read, reversed. *)
Fixpoint split_go (s : string) (cur : list ascii) : list string :=
  let flush := match cur with
               | [] => []
               | _ => [string_of_list_ascii (rev cur)]
               end in
  match s with
  | EmptyString => flush
  | String c rest =>
      if is_space c then flush ++ split_go rest [] else split_go rest (c :: cur)
  end.

Definition split (s : string) : list string := split_go s [].

(** [l[-1]] *)
Definition last_item {A : Type} (l : list A) : result A :=
  match List.last (map Some l) None with
  | Some a => Ok a
  | None => Raise IndexError
  end.

Definition is_digit (c : ascii) : bool :=
  Nat.leb 48 (nat_of_ascii c) && Nat.leb (nat_of_ascii c) 57.

(** The digits of an [int()] literal in base 10: digits, with single
    underscores between them. *)
Fixpoint int_digits (s : string) (acc : Z) (after_digit : bool) : option Z :=
  match s with
  | EmptyString => if after_digit then Some acc else None
  | String c rest =>
      if is_digit c
      then int_digits rest (acc * 10 + (Z.of_nat (nat_of_ascii c) - 48))%Z true
      else if Ascii.eqb c "_" && after_digit then int_digits rest acc false
      else None
  end.

(** [int(s)] on a string without white space. *)
Definition py_int (s : string) : result Z :=
  let parsed :=
    match s with
    | String c rest =>
        if Ascii.eqb c "-" then Z.opp <$> int_digits rest 0 false
        else if Ascii.eqb c "+" then int_digits rest 0 false
        else int_digits s 0 false
    | EmptyString => None
    end in
  match parsed with
  | Some n => Ok n
  | None => Raise ValueError
  end.

(** [[f.readline().decode('ascii') for i in range(n)]], with the file left
    after the lines read. *)
Fixpoint read_lines (n : nat) (f : string) : result (list string) :=
  match n with
  | 0 => Ok []
  | S n' =>
      let r := readline f in
      do l <- decode_ascii r.1;
      do ls <- read_lines n' r.2;
      Ok (l :: ls)
  end.

(** The body of the [if] of [extract_stats], run on the file as the
    ['Statistics:'] line leaves it. *)
Definition stats_summary (f : string) : result string :=
  do stats <- read_lines 11 f;
  do counts <- comprehension (λ sl, do tok <- last_item (split sl); py_int tok)
                             (drop 7 stats);
  match counts with
  | [npoints; ntets; nfaces; nedges] =>
      Ok ("Built mesh with " +:+ fmt_d npoints +:+ " points, " +:+ fmt_d ntets
          +:+ " tetrahedra, " +:+ fmt_d nfaces +:+ " faces, and " +:+ fmt_d nedges
          +:+ " edges")
  | _ => Raise ValueError
  end.

(** [int(sl.split()[-1])], the count read from one line of the statistics. *)
Definition last_count (sl : string) : result Z :=
  do tok <- last_item (split sl); py_int tok.

(** [extract_stats(f)]: the loop [while True] runs at most [fuel] times;
    [None] when it has not left the loop by then. *)
Fixpoint extract_stats (fuel : nat) (f : string) : option (result string) :=
  match fuel with
  | 0 => None
  | S fuel' =>
      let r := readline f in
      match decode_ascii r.1 with
      | Raise e => Some (Raise e)
      | Ok l =>
          if contains "Statistics:" l then Some (stats_summary r.2)
          else extract_stats fuel' r.2
      end
  end.

(** [with redirect_tetgen_output(): return tet.build(...)]: [body] is the
    outcome of the call of TetGen, its mesh and the text it wrote to the log
    file, or the exception it raised. After the body the log is read from
    its start and the summary is given to [logger.info]; the manager
    catches no exception ([finally] closes the files). The value is the
    mesh with the line logged. *)
Definition redirect_tetgen_output {A : Type} (fuel : nat) (body : result (A * string))
    : option (result (A * string)) :=
  match body with
  | Raise e => Some (Raise e)
  | Ok (mesh, log) =>
      match extract_stats fuel log with
      | None => None
      | Some r => Some (do line <- r; Ok (mesh, line))
      end
  end.

(** A line of a file with its newline: no newline before its last byte. *)
Fixpoint is_full_line (l : string) : bool :=
  match l with
  | EmptyString => false
  | String c rest =>
      if Ascii.eqb c LF
      then match rest with EmptyString => true | _ => false end
      else is_full_line rest
  end.

(** The file that holds the given lines. *)
Definition join_lines (ls : list string) : string := foldr String.append "" ls.

(** ** The mesh returned by TetGen *)

Module MeshInfo.
Record t : Type := mk {
  points : list vec3;
  elements : list (Z * Z * Z * Z);
  faces : list (Z * Z * Z);
  face_markers : list Z;
  neighbors : list (Z * Z * Z * Z);
  adjacent_elements : list (Z * Z);
  holes : list vec3;
}.
End MeshInfo.

(** ** Python's [%] formatting *)

(** ['%+1.15e' % x]: the sign, one digit, the point, fifteen digits, and the
    exponent with its sign and at least two digits. The digits are those of
    the exact value of [x], rounded to nearest, ties to even. A finite
    non-zero [x] is [m * 2^e], handled as the fraction [num / den]. *)

(** [10^E <= num / den] *)
Definition ge_pow10 (num den E : Z) : bool :=
  (if 0 <=? E then 10 ^ E * den <=? num else den <=? num * 10 ^ (- E))%Z.

(** The decimal exponent: the largest [E], from a first [E] that is not
    below it, with [10^E <= num / den]. *)
Fixpoint find_exp (fuel : nat) (num den E : Z) : Z :=
  match fuel with
  | 0 => E
  | S fuel' => if ge_pow10 num den E then E else find_exp fuel' num den (E - 1)%Z
  end.

Definition round_half_even (a b : Z) : Z :=
  (let q := a / b in
   let r := a mod b in
   if 2 * r <? b then q
   else if b <? 2 * r then q + 1
   else if Z.even q then q else q + 1)%Z.

(** [num / den / 10^(E-15)], rounded. *)
Definition scaled16 (num den E : Z) : Z :=
  (let sh := E - 15 in
   if 0 <=? sh then round_half_even num (den * 10 ^ sh)
   else round_half_even (num * 10 ^ (- sh)) den)%Z.

(** The sixteen digits, as a number, and the exponent of [m * 2^e]. *)
Definition decimal16 (m : positive) (e : Z) : Z * Z :=
  (let num := if 0 <=? e then Z.pos m * 2 ^ e else Z.pos m in
   let den := if 0 <=? e then 1 else 2 ^ (- e) in
   let E := find_exp 700 num den
              ((Z.log2 num - Z.log2 den + 1) * 30103 / 100000 + 1) in
   let D := scaled16 num den E in
   if 10 ^ 16 <=? D then (D / 10, E + 1) else (D, E))%Z.

(** The last [n] digits of [d], before [acc]. *)
Fixpoint fixed_digits (n : nat) (d : Z) (acc : string) : string :=
  match n with
  | 0 => acc
  | S n' => fixed_digits n' (d / 10)%Z (String (digit_char (d mod 10)) acc)
  end.

Definition mantissa (D : Z) : string :=
  String (digit_char (D / 10 ^ 15 mod 10))
         (String "." (fixed_digits 15 (D mod 10 ^ 15)%Z "")).

Definition exponent (E : Z) : string :=
  String (if (E <? 0)%Z then "-"%char else "+"%char)
         (if (Z.abs E <? 10)%Z then String "0" (decimal (Z.abs E))
          else decimal (Z.abs E)).

Definition sign_char (s : bool) : ascii := if s then "-"%char else "+"%char.

Definition fmt_e15 (x : float) : string :=
  match Prim2SF x with
  | S754_nan => "+nan"
  | S754_infinity s => String (sign_char s) "inf"
  | S754_zero s => String (sign_char s) (mantissa 0 +:+ "e" +:+ exponent 0)
  | S754_finite s m e =>
      let DE := decimal16 m e in
      String (sign_char s) (mantissa DE.1 +:+ "e" +:+ exponent DE.2)
  end.

(** A string literal of the source: [\n] stands for a newline. *)
Fixpoint py (s : string) : string :=
  match s with
  | EmptyString => EmptyString
  | String c rest =>
      match rest with
      | String c' rest' =>
          if Ascii.eqb c "\" && Ascii.eqb c' "n" then String LF (py rest')
          else String c (py rest)
      | EmptyString => String c EmptyString
      end
  end.

Inductive fmt_arg : Type :=
  | IntArg (n : Z)
  | FloatArg (x : float).

(** [fmt % args], for the two conversions of [write_msh]: [%d] of an
    integer and [%+1.15e] of a float. Too few or too many arguments, or an
    argument of the other kind, raise [TypeError]; another conversion raises
    [ValueError]. *)
Fixpoint format (fmt : string) (args : list fmt_arg) : result string :=
  match fmt with
  | EmptyString =>
      match args with
      | [] => Ok EmptyString
      | _ => Raise TypeError
      end
  | String c rest =>
      if Ascii.eqb c "%" then
        match rest with
        | String c1 rest1 =>
            if Ascii.eqb c1 "d" then
              match args with
              | IntArg n :: args' => do s <- format rest1 args'; Ok (fmt_d n +:+ s)
              | _ => Raise TypeError
              end
            else
              match rest1 with
              | String c2 (String c3 (String c4 (String c5 (String c6 rest6)))) =>
                  if Ascii.eqb c1 "+" && Ascii.eqb c2 "1" && Ascii.eqb c3 "."
                     && Ascii.eqb c4 "1" && Ascii.eqb c5 "5" && Ascii.eqb c6 "e"
                  then
                    match args with
                    | FloatArg x :: args' =>
                        do s <- format rest6 args'; Ok (fmt_e15 x +:+ s)
                    | _ => Raise TypeError
                    end
                  else Raise ValueError
              | _ => Raise ValueError
              end
        | EmptyString => Raise ValueError
        end
      else do s <- format rest args; Ok (String c s)
  end.

(** ** [write_msh] *)

(** [row.flatten()] *)
Definition flatten3 (r : vec3) : list float := [r.1.1; r.1.2; r.2].
Definition flatten3Z (r : Z * Z * Z) : list Z := [r.1.1; r.1.2; r.2].
Definition flatten4Z (r : Z * Z * Z * Z) : list Z := [r.1.1.1; r.1.1.2; r.1.2; r.2].

(** A value stored as [numpy.int32]. *)
Definition int32 (z : Z) : Z := ((z + 2 ^ 31) mod 2 ^ 32 - 2 ^ 31)%Z.

Definition map3 (f : Z → Z) (r : Z * Z * Z) : Z * Z * Z := (f r.1.1, f r.1.2, f r.2).

(** What the statements [f.write(...)] of one loop write. *)
Definition writes (ss : list string) : string := foldr String.append "" ss.

(** The text written to the file. The values of a [MeshInfo] are C
    integers; the conversion to [numpy.int32] keeps them, and is written
    here as the wrap-around of arbitrary integers. *)
Definition write_msh (mesh : MeshInfo.t) : result string :=
  let points := MeshInfo.points mesh in
  let faces := map (map3 int32) (MeshInfo.faces mesh) in
  let markers := map int32 (MeshInfo.face_markers mesh) in
  let elements := map (λ e, map int32 (flatten4Z e)) (MeshInfo.elements mesh) in
  let faces := map (map3 (λ v, int32 (v + 1))) faces in
  let elements := map (map (λ v, int32 (v + 1))) elements in
  (* Write header data *)
  let header := py "$MeshFormat\n2.2 0 8\n$EndMeshFormat\n" in
  (* Write node data *)
  do nodes_head <- format (py "$Nodes\n%d\n") [IntArg (Z.of_nat (length points))];
  do nodes <- comprehension
                (λ ip : nat * vec3,
                   format (py "%d %+1.15e %+1.15e %+1.15e\n")
                          [IntArg (Z.of_nat ip.1 + 1); FloatArg ip.2.1.1;
                           FloatArg ip.2.1.2; FloatArg ip.2.2])
                (enumerate points);
  let nodes_end := py "$EndNodes\n" in
  (* Write face data *)
  do elements_head <-
    format (py "$Elements\n%d\n") [IntArg (Z.of_nat (length faces))];
  do elems <- comprehension
                (λ ifm : nat * ((Z * Z * Z) * Z),
                   let fac := ifm.2.1 in
                   let m := ifm.2.2 in
                   format (py "%d 2 2 %d 0 %d %d %d\n")
                          [IntArg (Z.of_nat ifm.1 + 1);
                           IntArg (if (0 <? m)%Z then m else (-1)%Z);
                           IntArg fac.1.1; IntArg fac.1.2; IntArg fac.2])
                (enumerate (zip faces markers));
  let elements_end := py "$EndElements\n" in
  Ok (header +:+ nodes_head +:+ writes nodes +:+ nodes_end
      +:+ elements_head +:+ writes elems +:+ elements_end).

(** *** The layout, line by line *)

(** A node: its 1-based number and the three coordinates. *)
Definition node_line (i : nat) (p : vec3) : string :=
  fmt_d (Z.of_nat i + 1) +:+ " " +:+ fmt_e15 p.1.1 +:+ " " +:+ fmt_e15 p.1.2
  +:+ " " +:+ fmt_e15 p.2 +:+ nl.

(** The marker written for a face: markers [<= 0] become [-1]. *)
Definition written_marker (m : Z) : Z :=
  if (0 <? int32 m)%Z then int32 m else (-1)%Z.

(** The node number written for a vertex index. *)
Definition node_id (v : Z) : Z := int32 (int32 v + 1).

(** A triangle: its 1-based number, the element type 2, the number of tags
    2, the first tag (the marker), the second tag (0), and the three node
    numbers. *)
Definition element_line (i : nat) (fm : (Z * Z * Z) * Z) : string :=
  fmt_d (Z.of_nat i + 1) +:+ " " +:+ "2" +:+ " " +:+ "2" +:+ " "
  +:+ fmt_d (written_marker fm.2) +:+ " " +:+ "0" +:+ " "
  +:+ fmt_d (node_id fm.1.1.1) +:+ " " +:+ fmt_d (node_id fm.1.1.2) +:+ " "
  +:+ fmt_d (node_id fm.1.2) +:+ nl.

Definition msh_text (mesh : MeshInfo.t) : string :=
  "$MeshFormat" +:+ nl +:+ "2.2 0 8" +:+ nl +:+ "$EndMeshFormat" +:+ nl
  +:+ "$Nodes" +:+ nl +:+ fmt_d (Z.of_nat (length (MeshInfo.points mesh))) +:+ nl
  +:+ writes (imap node_line (MeshInfo.points mesh))
  +:+ "$EndNodes" +:+ nl
  +:+ "$Elements" +:+ nl +:+ fmt_d (Z.of_nat (length (MeshInfo.faces mesh))) +:+ nl
  +:+ writes (imap element_line (zip (MeshInfo.faces mesh) (MeshInfo.face_markers mesh)))
  +:+ "$EndElements" +:+ nl.

(** A float that is a number: neither NaN nor an infinity. *)
Definition finite_float (x : float) : bool :=
  match Prim2SF x with
  | S754_zero _ | S754_finite _ _ _ => true
  | _ => false
  end.

(** *** Reading a file of the format back *)

(** The lines of a text, without their newlines. *)
Fixpoint lines_go (s : string) (cur : list ascii) : list string :=
  match s with
  | EmptyString =>
      match cur with
      | [] => []
      | _ => [string_of_list_ascii (rev cur)]
      end
  | String c rest =>
      if Ascii.eqb c LF then string_of_list_ascii (rev cur) :: lines_go rest []
      else lines_go rest (c :: cur)
  end.

Definition lines (s : string) : list string := lines_go s [].

(** The tags of an element line of the format 2.2,
    [elm-number elm-type number-of-tags <tags> node-number-list]. *)
Definition gmsh_tags (line : string) : list string :=
  let toks := split line in
  match toks !! 2 with
  | Some n =>
      match py_int n with
      | Ok k => take (Z.to_nat k) (drop 3 toks)
      | Raise _ => []
      end
  | None => []
  end.

(** The digits of the mantissa of a number in scientific notation: those
    before the [e]. *)
Fixpoint mantissa_digits (s : string) : nat :=
  match s with
  | EmptyString => 0
  | String c rest =>
      if Ascii.eqb c "e" then 0
      else if is_digit c then S (mantissa_digits rest)
      else mantissa_digits rest
  end.

(** ** [write_ply] and [write_poly] *)

(** ['%5d' % n]: the digits, after spaces up to a width of five. *)
Definition fmt_5d (n : Z) : string :=
  let s := fmt_d n in
  string_of_list_ascii (replicate (5 - String.length s) " "%char) +:+ s.

(** [fmt % args] with the conversion [%5d] of [write_poly] besides [%d] and
    [%+1.15e]. *)
Fixpoint format_w (fmt : string) (args : list fmt_arg) : result string :=
  match fmt with
  | EmptyString =>
      match args with
      | [] => Ok EmptyString
      | _ => Raise TypeError
      end
  | String c rest =>
      if Ascii.eqb c "%" then
        match rest with
        | String c1 rest1 =>
            if Ascii.eqb c1 "d" then
              match args with
              | IntArg n :: args' => do s <- format_w rest1 args'; Ok (fmt_d n +:+ s)
              | _ => Raise TypeError
              end
            else
              match rest1 with
              | String c2 rest2 =>
                  if Ascii.eqb c1 "5" && Ascii.eqb c2 "d" then
                    match args with
                    | IntArg n :: args' =>
                        do s <- format_w rest2 args'; Ok (fmt_5d n +:+ s)
                    | _ => Raise TypeError
                    end
                  else
                    match rest2 with
                    | String c3 (String c4 (String c5 (String c6 rest6))) =>
                        if Ascii.eqb c1 "+" && Ascii.eqb c2 "1" && Ascii.eqb c3 "."
                           && Ascii.eqb c4 "1" && Ascii.eqb c5 "5" && Ascii.eqb c6 "e"
                        then
                          match args with
                          | FloatArg x :: args' =>
                              do s <- format_w rest6 args'; Ok (fmt_e15 x +:+ s)
                          | _ => Raise TypeError
                          end
                        else Raise ValueError
                    | _ => Raise ValueError
                    end
              | EmptyString => Raise ValueError
              end
        | EmptyString => Raise ValueError
        end
      else do s <- format_w rest args; Ok (String c s)
  end.

(** The text written to the file. *)
Definition write_ply (mesh : MeshInfo.t) : result string :=
  let points := MeshInfo.points mesh in
  let faces := MeshInfo.faces mesh in
  (* Write header data *)
  let magic := py "ply\nascii 1.0\n" in
  do vertex_head <-
    format_w (py "element vertex %d\n") [IntArg (Z.of_nat (length points))];
  let vertex_props := py "property float x\nproperty float y\nproperty float z\n" in
  do face_head <-
    format_w (py "element face %d\n") [IntArg (Z.of_nat (length faces))];
  let face_props := py "property list uchar int vertex_index\n" in
  let end_header := py "end_header\n" in
  (* Write node data *)
  do nodes <- comprehension
                (λ p : vec3,
                   format_w (py "%+1.15e %+1.15e %+1.15e\n")
                            [FloatArg p.1.1; FloatArg p.1.2; FloatArg p.2])
                points;
  (* Write face data *)
  do facs <- comprehension
               (λ fac : Z * Z * Z,
                  format_w (py "3 %d %d %d\n")
                           [IntArg fac.1.1; IntArg fac.1.2; IntArg fac.2])
               faces;
  Ok (magic +:+ vertex_head +:+ vertex_props +:+ face_head +:+ face_props
      +:+ end_header +:+ writes nodes +:+ writes facs).

Definition write_poly (mesh : MeshInfo.t) : result string :=
  let points := MeshInfo.points mesh in
  let faces := MeshInfo.faces mesh in
  let markers := MeshInfo.face_markers mesh in
  let holes := MeshInfo.holes mesh in
  do points_head <-
    format_w (py "%d 3 0 1\n") [IntArg (Z.of_nat (length points))];
  do nodes <- comprehension
                (λ ip : nat * vec3,
                   format_w (py "%5d %+1.15e %+1.15e %+1.15e\n")
                            [IntArg (Z.of_nat ip.1); FloatArg ip.2.1.1;
                             FloatArg ip.2.1.2; FloatArg ip.2.2])
                (enumerate points);
  do faces_head <- format_w (py "%d 1\n") [IntArg (Z.of_nat (length faces))];
  do facs <- comprehension
               (λ ifm : nat * ((Z * Z * Z) * Z),
                  let fac := ifm.2.1 in
                  let m := ifm.2.2 in
                  format_w (py "1 0 %d\n%d %d %d %d\n")
                           [IntArg m; IntArg 3; IntArg fac.1.1; IntArg fac.1.2;
                            IntArg fac.2])
               (enumerate (zip faces markers));
  do holes_part <-
    (if decide (length holes ≠ 0) then
       do holes_head <- format_w (py "%d\n") [IntArg (Z.of_nat (length holes))];
       do hs <- comprehension
                  (λ ih : nat * vec3,
                     format_w (py "%5d %+1.15e %+1.15e %+1.15e\n")
                              [IntArg (Z.of_nat ih.1); FloatArg ih.2.1.1;
                               FloatArg ih.2.1.2; FloatArg ih.2.2])
                  (enumerate holes);
       Ok (holes_head +:+ writes hs)
     else Ok (py "0\n"));
  Ok (points_head +:+ writes nodes +:+ faces_head +:+ writes facs +:+ holes_part).

(** *** The lines of the two files *)

(** A numbered point of the [.poly] file, and a facet: the line of its one
    polygon, without hole, with its marker, and the line of its corners. *)
Definition poly_point_line (i : nat) (p : vec3) : string :=
  fmt_5d (Z.of_nat i) +:+ " " +:+ fmt_e15 p.1.1 +:+ " " +:+ fmt_e15 p.1.2
  +:+ " " +:+ fmt_e15 p.2.

Definition poly_facet_lines (fm : (Z * Z * Z) * Z) : list string :=
  ["1 0 " +:+ fmt_d fm.2;
   "3 " +:+ fmt_d fm.1.1.1 +:+ " " +:+ fmt_d fm.1.1.2 +:+ " " +:+ fmt_d fm.1.2].

Definition ply_point_line (p : vec3) : string :=
  fmt_e15 p.1.1 +:+ " " +:+ fmt_e15 p.1.2 +:+ " " +:+ fmt_e15 p.2.

Definition ply_face_line (fac : Z * Z * Z) : string :=
  "3 " +:+ fmt_d fac.1.1 +:+ " " +:+ fmt_d fac.1.2 +:+ " " +:+ fmt_d fac.2.

(** A text without a newline. *)
Fixpoint no_LF (s : string) : bool :=
  match s with
  | EmptyString => true
  | String c rest => negb (Ascii.eqb c LF) && no_LF rest
  end.

(** ** [write_multiflow] *)

(** The value of an HDF5 dataset. *)
Inductive dataset : Type :=
  | Floats (l : list float)
  | Ints (l : list Z).


(** [np.append([0], np.full(n, k).cumsum())] *)
Definition ptr_array (n : nat) (k : Z) : list Z :=
  map (λ i, Z.of_nat i * k)%Z (seq 0 (S n)).

(** [cell_faces[key].append(idx)] on a [defaultdict(list)]. *)
Definition append_to (cell_faces : gmap Z (list nat)) (key : Z) (idx : nat)
    : gmap Z (list nat) :=
  <[key := default [] (cell_faces !! key) ++ [idx]]> cell_faces.

(** The loop over [enumerate(adjacent_elements)]. *)
Definition collect_cell_faces (adjacent_elements : list (Z * Z)) : gmap Z (list nat) :=
  foldl (λ cell_faces ia,
           append_to (append_to cell_faces ia.2.1 ia.1) ia.2.2 ia.1)
        ∅ (zip (seq 0 (length adjacent_elements)) adjacent_elements).

(** What one pair of adjacent elements adds to the entry of the cell [c],
    and the faces adjacent to [c]: the indices of the pairs that hold [c],
    in ascending order, an index twice when both entries are [c]. *)
Definition occurrences (c : Z) (idx : nat) (adj : Z * Z) : list nat :=
  (if decide (adj.1 = c) then [idx] else [])
  ++ (if decide (adj.2 = c) then [idx] else []).

Definition faces_of (adjacent_elements : list (Z * Z)) (c : Z) : list nat :=
  concat (imap (occurrences c) adjacent_elements).

(** [d.pop(key)], without a default. *)
Definition pop (d : gmap Z (list nat)) (key : Z) : result (gmap Z (list nat)) :=
  match d !! key with
  | Some _ => Ok (delete key d)
  | None => Raise KeyError
  end.

(** [sorted(d.items(), key=lambda x: x[0])] *)
Definition key_le (a b : Z * list nat) : Prop := (a.1 ≤ b.1)%Z.

#[local] Instance key_le_dec : RelDecision key_le :=
  λ a b, decide (a.1 ≤ b.1)%Z.

Definition sorted_items (d : gmap Z (list nat)) : list (Z * list nat) :=
  merge_sort key_le (map_to_list d).

(** [np.array(rows).flatten()]: the rows must have one length. *)
Definition array_flatten (rows : list (list nat)) : result (list Z) :=
  match rows with
  | [] => Ok []
  | r :: _ =>
      if forallb (λ r', Nat.eqb (length r') (length r)) rows
      then Ok (map Z.of_nat (concat rows))
      else Raise ValueError
  end.

(** [np.cumsum] *)
Fixpoint cumsum_from (acc : Z) (l : list Z) : list Z :=
  match l with
  | [] => []
  | a :: l' => (acc + a)%Z :: cumsum_from (acc + a)%Z l'
  end.

(** The datasets in the order they are written; an exception leaves the
    file with the datasets written before it. Only the exceptions of the
    statements of the function are modelled, those of [h5py] are not. *)
Definition write_multiflow (mesh : MeshInfo.t) : result (list (string * dataset)) :=
  let points := MeshInfo.points mesh in
  let elements := MeshInfo.elements mesh in
  let faces := MeshInfo.faces mesh in
  let markers := MeshInfo.face_markers mesh in
  let neighbours := MeshInfo.neighbors mesh in
  let adjacent_elements := MeshInfo.adjacent_elements mesh in
  (* Write node data. *)
  let nodes := concat (map flatten3 points) in
  (* Write cell data: an empty list of elements gives an array of shape
     [(0,)], and [np.hstack] of a [(0,1)] and a [(0,)] array raises. *)
  do cells <- (if decide (elements = []) then Raise ValueError
               else Ok (concat (map (λ e, 6%Z :: flatten4Z e) elements)));
  let cellNodePtr := ptr_array (length elements) 4 in
  (* Write face data *)
  let faces_flat := concat (map flatten3Z faces) in
  let faceNodePtr := ptr_array (length faces) 3 in
  (* Write cell face connectivity data *)
  let cell_faces := collect_cell_faces adjacent_elements in
  do cell_faces <- pop cell_faces (-1);
  do cellFaces <- array_flatten (map snd (sorted_items cell_faces));
  let cellFacePtr := ptr_array (length elements) 4 in
  (* Write cell neighbour data *)
  let cell_nbr :=
    List.filter (λ n, Z.ltb (-1) n) (concat (map flatten4Z neighbours)) in
  let counts :=
    map (λ r, Z.of_nat (length (List.filter (λ n, Z.ltb (-1) n) (flatten4Z r))))
        neighbours in
  do cumulated <-
    (if decide (length counts = length elements) then Ok (cumsum_from 0 counts)
     else if decide (length counts = 1)
          then Ok (replicate (length elements) (default 0%Z (counts !! 0)))
     else Raise ValueError);
  let cell_nbr_ptr := 0%Z :: cumulated in
  Ok [("nodes", Floats nodes); ("cells", Ints cells);
      ("cellNodePtr", Ints cellNodePtr); ("faces", Ints faces_flat);
      ("faceNodePtr", Ints faceNodePtr); ("cellFaces", Ints cellFaces);
      ("cellFacePtr", Ints cellFacePtr); ("cellNeighbours", Ints cell_nbr);
      ("cellNeighbourPtr", Ints cell_nbr_ptr); ("boundaryType", Ints markers);
      ("meshData",
       Ints [Z.of_nat (length points); Z.of_nat (length elements);
             Z.of_nat (length faces); 8; 4 * Z.of_nat (length elements);
             3 * Z.of_nat (length faces); 4 * Z.of_nat (length elements);
             List.last cell_nbr_ptr 0]%Z)].

(** ** Inputs used in the examples *)

Definition unit_domain : Domain := {| L := (1, 1, 1)%float |}.

Definition sphere_0 : Sphere := {| id := 0; x := (0.5, 0.5, 0.5)%float |}.

(** A sphere piece that holds the same interior point twice. *)
Definition piece_with_repeated_point : SpherePiece.t :=
  SpherePiece.mk [(0.5, 0.5, 0.5); (0.5, 0.5, 0.5)]%float [(0, 1, 1)] sphere_0 false.

(** A sphere piece with three points on the plane [x = 0] and one inside, and
    a patch of that plane that repeats the three points (in another order)
    and adds the corner of the domain. *)
Definition piece_on_x_lower : SpherePiece.t :=
  SpherePiece.mk
    [(0, 0.5, 0.5); (0, 0.625, 0.5); (0, 0.5, 0.625); (0.125, 0.5, 0.5)]%float
    [(0, 1, 2); (1, 2, 3)] sphere_0 false.

Definition patch_x_lower : BoundaryPLC.t :=
  BoundaryPLC.mk
    [(0, 0.625, 0.5); (0, 0.5, 0.5); (0, 0.5, 0.625); (0, 0, 0)]%float
    [(0, 1, 2); (1, 2, 3)] [] [].

(** A sphere piece inside the unit domain. *)
Definition piece_inside : SpherePiece.t :=
  SpherePiece.mk [(0.5, 0.5, 0.5); (0.75, 0.5, 0.5); (0.5, 0.75, 0.5)]%float
                 [(0, 1, 2)] sphere_0 false.

(** Three points, each within [TOL] of the two others. *)
Definition patch_with_group : BoundaryPLC.t :=
  BoundaryPLC.mk [(0, 0, 0); (0.3e-10, 0, 0); (0.6e-10, 0, 0)]%float [(0, 1, 2)] [] [].

(** A point with a coordinate that is not a number. *)
Definition point_with_nan : vec3 := (nan, 0.5, 0.5)%float.

(** Three points in a row, each within [TOL] of the next, the first and the
    last farther apart than [TOL]. *)
Definition patch_with_chain : BoundaryPLC.t :=
  BoundaryPLC.mk [(0, 0, 0); (0.7e-10, 0, 0); (1.4e-10, 0, 0)]%float [(0, 1, 2)] [] [].

(** The array returned for [piece_on_x_lower] and [patch_x_lower], with the
    triangles of both sources as the call leaves them. *)
Definition merged_points_example : list vec3 :=
  [(0, 0.5, 0.5); (0, 0.625, 0.5); (0, 0.5, 0.625); (0.125, 0.5, 0.5); (0, 0, 0)]%float.

Definition merged_tris_example : list tri :=
  [(0, 1, 2); (1, 2, 3); (1, 0, 2); (0, 2, 4)].

(** A sphere piece whose id is the non-negative integer [2^63 - 6]. *)
Definition piece_with_huge_id : SpherePiece.t :=
  SpherePiece.mk [] [(7, 8, 9)] {| id := 2 ^ 63 - 6; x := (0.5, 0.5, 0.5)%float |} false.

(** Two sphere pieces, the first a hole at the centre of the unit domain. *)
Definition hole_piece : SpherePiece.t :=
  SpherePiece.mk [] [(0, 1, 2)] {| id := 3; x := (0.5, 0.5, 0.5)%float |} true.

Definition solid_piece : SpherePiece.t :=
  SpherePiece.mk [] [(3, 4, 5); (4, 5, 6)] {| id := 0; x := (0.25, 0.25, 0.25)%float |} false.

Definition six_patches : list BoundaryPLC.t :=
  [BoundaryPLC.mk [] [(0, 1, 2)] [] []; BoundaryPLC.mk [] [] [] [];
   BoundaryPLC.mk [] [(1, 2, 3)] [] []; BoundaryPLC.mk [] [(4, 5, 6)] [] [];
   BoundaryPLC.mk [] [] [] []; BoundaryPLC.mk [] [(2, 3, 4); (5, 6, 7)] [] []].

(** Two tetrahedra that share the face [(1, 2, 3)], which is the only face
    of the mesh: no pair of adjacent elements holds [-1]. *)
Definition mesh_without_exterior_face : MeshInfo.t :=
  MeshInfo.mk
    [(0, 0, 0); (1, 0, 0); (0, 1, 0); (0, 0, 1); (1, 1, 1)]%float
    [(0, 1, 2, 3); (1, 2, 3, 4)]%Z
    [(1, 2, 3)]%Z [0%Z]
    [(1, -1, -1, -1); (0, -1, -1, -1)]%Z
    [(0, 1)]%Z [].

(** One tetrahedron with its four faces, each on the outside. *)
Definition mesh_one_tet : MeshInfo.t :=
  MeshInfo.mk
    [(0, 0, 0); (1, 0, 0); (0, 1, 0); (0, 0, 1)]%float
    [(0, 1, 2, 3)]%Z
    [(0, 1, 2); (0, 1, 3); (0, 2, 3); (1, 2, 3)]%Z [1; 3; 5; 7]%Z
    [(-1, -1, -1, -1)]%Z
    [(0, -1); (0, -1); (-1, 0); (0, -1)]%Z [].

(** Two tetrahedra that share the face of the nodes 1, 2 and 3, with their
    seven faces. *)
Definition mesh_two_tets : MeshInfo.t :=
  MeshInfo.mk
    [(0, 0, 0); (1, 0, 0); (0, 1, 0); (0, 0, 1); (1, 1, 1)]%float
    [(0, 1, 2, 3); (1, 2, 3, 4)]%Z
    [(0, 1, 2); (0, 1, 3); (0, 2, 3); (1, 2, 3); (1, 2, 4); (1, 3, 4); (2, 3, 4)]%Z
    [1; 3; 5; 0; 2; 4; 6]%Z
    [(1, -1, -1, -1); (0, -1, -1, -1)]%Z
    [(0, -1); (0, -1); (-1, 0); (0, 1); (1, -1); (-1, 1); (1, -1)]%Z [].

(** The end of a log of TetGen, and a log cut after the line
    ['Statistics:']. *)
Definition log_before : list string := ["Delaunizing vertices..." +:+ nl].

Definition log_header : string := "Statistics:" +:+ nl.

Definition log_stats : list string :=
  [nl; "  Input points: 8" +:+ nl; "  Input facets: 12" +:+ nl;
   "  Input segments: 12" +:+ nl; "  Input holes: 0" +:+ nl;
   "  Input regions: 0" +:+ nl; nl;
   "  Mesh points: 10" +:+ nl; "  Mesh tetrahedra: 24" +:+ nl;
   "  Mesh faces: 60" +:+ nl; "  Mesh edges: 45" +:+ nl].

Definition truncated_log : string := "Statistics:" +:+ nl.

(** ** Theorems *)

(** C2: on three lower patches (axis order x, y, z) the result is the six
    patches [lower_x; lower_y; lower_z; upper_x; upper_y; upper_z]: the
    lower patches are returned as they were, and upper patch [i] has the
    points of lower patch [i] with [L[i]] added to coordinate [i] and [0.]
    added to the two other coordinates, and the same triangles. *)
Theorem duplicate_lower_boundaries_congruent (domain : Domain)
    (bx by_ bz : BoundaryPLC.t) :
  let Lx := coord 0 (L domain) in
  let Ly := coord 1 (L domain) in
  let Lz := coord 2 (L domain) in
  ∃ ux uy uz : BoundaryPLC.t,
    duplicate_lower_boundaries domain [bx; by_; bz] = [bx; by_; bz; ux; uy; uz]
    ∧ BoundaryPLC.points ux
      = map (λ p, (coord 0 p + Lx, coord 1 p + 0, coord 2 p + 0)%float)
            (BoundaryPLC.points bx)
    ∧ BoundaryPLC.points uy
      = map (λ p, (coord 0 p + 0, coord 1 p + Ly, coord 2 p + 0)%float)
            (BoundaryPLC.points by_)
    ∧ BoundaryPLC.points uz
      = map (λ p, (coord 0 p + 0, coord 1 p + 0, coord 2 p + Lz)%float)
            (BoundaryPLC.points bz)
    ∧ BoundaryPLC.tris ux = BoundaryPLC.tris bx
    ∧ BoundaryPLC.tris uy = BoundaryPLC.tris by_
    ∧ BoundaryPLC.tris uz = BoundaryPLC.tris bz.
Proof.
  intros Lx Ly Lz. do 3 eexists. split; [reflexivity|].
  repeat split; reflexivity.
Qed.

(** *** The error monad *)

Lemma rbind_Ok {A B : Type} (r : result A) (k : A → result B) (b : B) :
  rbind r k = Ok b ↔ ∃ a, r = Ok a ∧ k a = Ok b.
Proof.
  destruct r as [a|e]; simpl; split.
  - eauto.
  - by intros (a' & [= <-] & ?).
  - done.
  - by intros (a' & ? & ?).
Qed.

Lemma rbind_Ok_l {A B : Type} (a : A) (k : A → result B) : rbind (Ok a) k = k a.
Proof. reflexivity. Qed.

Lemma comprehension_Ok {A B : Type} (f : A → result B) (l : list A) (k : list B) :
  comprehension f l = Ok k ↔ Forall2 (λ a b, f a = Ok b) l k.
Proof.
  revert k. induction l as [|a l IH]; intros k; simpl.
  - split; [intros [= <-]; constructor | by inversion 1].
  - rewrite rbind_Ok. split.
    + intros (b & Hb & H). apply rbind_Ok in H as (bs & Hbs & [= <-]).
      constructor; [done | by apply IH].
    + inversion 1 as [|? b ? bs Hb Hbs]; subst. exists b. split; [done|].
      apply rbind_Ok. exists bs. split; [by apply IH | done].
Qed.

Lemma comprehension_length {A B : Type} (f : A → result B) (l : list A) (k : list B) :
  comprehension f l = Ok k → length k = length l.
Proof. rewrite comprehension_Ok. intros H. symmetry. by eapply Forall2_length. Qed.

Lemma subscript_Ok (d : gmap nat nat) (k v : nat) :
  subscript d k = Ok v ↔ d !! k = Some v.
Proof. unfold subscript. destruct (d !! k); naive_solver. Qed.

Lemma item_Ok {A : Type} (l : list A) (i : nat) (a : A) :
  item l i = Ok a ↔ l !! i = Some a.
Proof. unfold item. destruct (l !! i); naive_solver. Qed.

(** *** Boolean masks *)

Lemma where_from_lookup (i0 : nat) (mask : list bool) (c i : nat) :
  np.where_from i0 mask !! c = Some i → i0 ≤ i ∧ mask !! (i - i0) = Some true.
Proof.
  revert i0 c. induction mask as [|m mask IH]; intros i0 c; simpl; [done|].
  destruct m.
  - destruct c as [|c]; simpl.
    + intros [= <-]. by rewrite Nat.sub_diag.
    + intros H. apply IH in H as [? H]. split; [lia|].
      by replace (i - i0) with (S (i - S i0)) by lia.
  - intros H. apply IH in H as [? H]. split; [lia|].
    by replace (i - i0) with (S (i - S i0)) by lia.
Qed.

Lemma where_from_mono (i0 : nat) (mask : list bool) (c1 c2 i1 i2 : nat) :
  c1 < c2 →
  np.where_from i0 mask !! c1 = Some i1 →
  np.where_from i0 mask !! c2 = Some i2 →
  i1 < i2.
Proof.
  revert i0 c1 c2. induction mask as [|m mask IH]; intros i0 c1 c2 Hc; simpl; [done|].
  destruct m; [|by apply IH].
  destruct c2 as [|c2]; [lia|]. destruct c1 as [|c1]; simpl.
  - intros [= <-] H. apply where_from_lookup in H. lia.
  - apply IH. lia.
Qed.

Lemma where_from_complete (i0 : nat) (mask : list bool) (i : nat) :
  mask !! i = Some true → ∃ c, np.where_from i0 mask !! c = Some (i0 + i).
Proof.
  revert i0 i. induction mask as [|m mask IH]; intros i0 i; simpl; [done|].
  destruct i as [|i]; simpl.
  - intros [= ->]. exists 0. simpl. f_equal. lia.
  - intros H. destruct (IH (S i0) i H) as [c Hc].
    replace (i0 + S i) with (S i0 + i) by lia.
    destruct m; [by exists (S c) | by exists c].
Qed.

Lemma compress_lookup {A : Type} (i0 : nat) (mask : list bool) (arr : list A)
    (c : nat) (a : A) :
  length mask = length arr →
  np.compress mask arr !! c = Some a ↔
  ∃ i, np.where_from i0 mask !! c = Some (i0 + i) ∧ arr !! i = Some a.
Proof.
  revert i0 arr c. induction mask as [|m mask IH]; intros i0 [|a0 arr] c Hlen;
    simplify_eq/=; [naive_solver|].
  assert (∀ c, np.compress mask arr !! c = Some a ↔
    ∃ i, np.where_from (S i0) mask !! c = Some (i0 + i) ∧ (a0 :: arr) !! i = Some a)
    as Hrec.
  { intros c'. rewrite (IH (S i0)) by done. split.
    - intros (i & H1 & H2). exists (S i).
      by replace (i0 + S i) with (S i0 + i) by lia.
    - intros (i & H1 & H2). pose proof (where_from_lookup _ _ _ _ H1) as [? _].
      destruct i as [|i]; [lia|]. exists i.
      by replace (S i0 + i) with (i0 + S i) by lia. }
  destruct m; [|apply Hrec].
  destruct c as [|c]; simpl; [|apply Hrec].
  split.
  - intros [= ->]. exists 0. split; [f_equal; lia | done].
  - intros (i & [= Hi] & H2). assert (i = 0) as -> by lia. by simplify_eq/=.
Qed.

Lemma compress_length {A : Type} (mask : list bool) (arr : list A) :
  length mask = length arr →
  length (np.compress mask arr) = length (np.where_ mask).
Proof.
  unfold np.where_. generalize 0 as i0.
  revert arr. induction mask as [|m mask IH]; intros [|a arr] i0 Hlen;
    simplify_eq/=; [done|].
  destruct m; simpl; by rewrite (IH arr (S i0)).
Qed.


Lemma compress_all_true {A : Type} (mask : list bool) (arr : list A) :
  length mask = length arr → Forall (λ m, m = true) mask →
  np.compress mask arr = arr.
Proof.
  revert arr. induction mask as [|m mask IH]; intros [|a arr] Hlen Hall;
    simplify_eq/=; [done|].
  inversion Hall; subst. by rewrite IH.
Qed.

Lemma where_from_all_true (i0 : nat) (mask : list bool) :
  Forall (λ m, m = true) mask → np.where_from i0 mask = seq i0 (length mask).
Proof.
  revert i0. induction mask as [|m mask IH]; intros i0 Hall; [done|].
  inversion Hall; subst. simpl. by rewrite IH.
Qed.

(** Fancy indexing by the positions of a mask is the masked array. *)
Lemma item_where_from {A : Type} (pre arr : list A) (mask : list bool) :
  length mask = length arr →
  comprehension (item (pre ++ arr)) (np.where_from (length pre) mask)
  = Ok (np.compress mask arr).
Proof.
  revert pre arr. induction mask as [|m mask IH]; intros pre [|a arr] Hlen;
    simplify_eq/=; [done|].
  assert (comprehension (item (pre ++ a :: arr)) (np.where_from (S (length pre)) mask)
          = Ok (np.compress mask arr)) as Hrec.
  { specialize (IH (pre ++ [a]) arr). rewrite <-app_assoc, length_app in IH.
    simpl in IH. rewrite Nat.add_1_r in IH. by apply IH. }
  destruct m; [|done]. simpl. rewrite Hrec.
  unfold item. by rewrite list_lookup_middle.
Qed.

(** *** The radius query and the dictionary of duplicates *)

Section query_pairs.

Variable within_TOL : vec3 → vec3 → bool.

Lemma elem_of_partners (p : vec3) (j0 : nat) (rest : list vec3) (j : nat) :
  j ∈ partners within_TOL p j0 rest ↔
  ∃ b q, j = j0 + b ∧ rest !! b = Some q ∧ within_TOL p q = true.
Proof.
  revert j0. induction rest as [|q rest IH]; intros j0; simpl.
  - split; [by intros ?%elem_of_nil | by intros (? & ? & ? & ? & ?)].
  - assert (j ∈ partners within_TOL p (S j0) rest ↔
      ∃ b q', j = j0 + S b ∧ rest !! b = Some q' ∧ within_TOL p q' = true) as Hrec.
    { rewrite IH. by setoid_rewrite <-Nat.add_succ_comm. }
    destruct (within_TOL p q) eqn:Hpq.
    + rewrite elem_of_cons, Hrec. split.
      * intros [-> | (b & q' & ? & ? & ?)].
        -- exists 0, q. by rewrite Nat.add_0_r.
        -- by exists (S b), q'.
      * intros ([|b] & q' & -> & ? & ?); [left; lia | right; by exists b, q'].
    + rewrite Hrec. split.
      * intros (b & q' & ? & ? & ?). by exists (S b), q'.
      * intros ([|b] & q' & -> & ? & ?); simplify_eq/=; [congruence | by exists b, q'].
Qed.

Lemma elem_of_pairs_from (i0 : nat) (pts : list vec3) (i j : nat) :
  (i, j) ∈ pairs_from within_TOL i0 pts ↔
  ∃ a b, i = i0 + a ∧ j = i0 + b ∧ is_pair within_TOL pts a b.
Proof.
unfold is_pair.
  revert i0. induction pts as [|p pts IH]; intros i0; simpl.
  - split; [by intros ?%elem_of_nil|].
    by intros (a & b & _ & _ & _ & ? & ? & ? & _).
  - rewrite elem_of_app, IH, list_elem_of_fmap. split.
    + intros [(j' & [= -> ->] & Hj) | (a & b & -> & -> & Hlt & p' & q & ? & ? & ?)].
      * apply elem_of_partners in Hj as (b & q & -> & ? & ?).
        exists 0, (S b). repeat split; [lia.. |]. by exists p, q.
      * exists (S a), (S b). repeat split; [lia.. |]. by exists p', q.
    + intros (a & b & -> & -> & Hlt & p' & q & Ha & Hb & Hpq).
      destruct b as [|b]; [lia|]. destruct a as [|a]; simplify_eq/=.
      * left. exists (i0 + S b). split; [f_equal; lia|].
        apply elem_of_partners. exists b, q. split; [lia | done].
      * right. exists a, b. repeat split; [lia.. |]. by exists p', q.
Qed.

Lemma elem_of_sorted_query_pairs (pts : list vec3) (i j : nat) :
  (i, j) ∈ sorted_query_pairs within_TOL pts ↔ is_pair within_TOL pts i j.
Proof.
  unfold sorted_query_pairs. rewrite elem_of_pairs_from. naive_solver.
Qed.

(** The list is sorted by the key [x[0]]. *)
Lemma pairs_from_sorted (i0 : nat) (pts : list vec3) :
  StronglySorted (λ a b : nat * nat, a.1 ≤ b.1) (pairs_from within_TOL i0 pts).
Proof.
  revert i0. induction pts as [|p pts IH]; intros i0; simpl; [constructor|].
  apply StronglySorted_app; split_and!; [| |apply IH].
  - intros [i j] [i' j'] (? & [= -> ->] & _)%list_elem_of_fmap Hin.
    apply elem_of_pairs_from in Hin as (a & b & -> & _). simpl. lia.
  - induction (partners within_TOL p (S i0) pts) as [|j l IHl]; simpl; constructor.
    + done.
    + apply Forall_forall. by intros [??] (? & [= -> ->] & _)%list_elem_of_fmap.
Qed.

(** The loop that fills [dup] keeps, for each second index [v], the first
    pair of the list that has it. *)
Lemma foldl_dup_step_None (l : list (nat * nat)) (d : gmap nat nat) (v : nat) :
  foldl dup_step d l !! v = None ↔ d !! v = None ∧ ∀ k, (k, v) ∉ l.
Proof.
  revert d. induction l as [|[k' v'] l IH]; intros d; simpl.
  - split; [intros ?; split; [done | intros ? ?%elem_of_nil; done] | by intros [? _]].
  - rewrite IH. unfold dup_step. simpl. split.
    + intros [Hd Hl]. destruct (d !! v') eqn:Hv'.
      * split; [done|]. intros k [[= -> ->] | ?]%elem_of_cons; [congruence | by eapply Hl].
      * apply lookup_insert_None in Hd as [Hd Hne]. split; [done|].
        intros k [[= -> ->] | ?]%elem_of_cons; [done | by eapply Hl].
    + intros [Hd Hl]. split.
      * destruct (d !! v') eqn:Hv'; [done|]. apply lookup_insert_None. split; [done|].
        intros ->. apply (Hl k'). left.
      * intros k Hin. apply (Hl k). by right.
Qed.

Lemma foldl_dup_step_Some (l : list (nat * nat)) (d : gmap nat nat) (v k : nat) :
  foldl dup_step d l !! v = Some k ↔
  d !! v = Some k ∨
  (d !! v = None ∧ ∃ l1 l2, l = l1 ++ (k, v) :: l2 ∧ ∀ k', (k', v) ∉ l1).
Proof.
  revert d. induction l as [|[k' v'] l IH]; intros d; simpl.
  - split; [by left|]. intros [? | (_ & l1 & l2 & Hl & _)]; [done|].
    by destruct l1.
  - rewrite IH. unfold dup_step. simpl. destruct (d !! v') as [k0|] eqn:Hv'.
    + split.
      * intros [? | (Hd & l1 & l2 & -> & Hl1)]; [by left|]. right. split; [done|].
        exists ((k', v') :: l1), l2. split; [done|].
        intros k'' [[= -> ->] | ?]%elem_of_cons; [congruence | by eapply Hl1].
      * intros [? | (Hd & l1 & l2 & Hl & Hl1)]; [by left|]. right. split; [done|].
        destruct l1 as [|kv l1]; simplify_eq/=.
        exists l1, l2. split; [done|]. intros k'' ?. apply (Hl1 k''). by right.
    + destruct (decide (v = v')) as [->|Hne].
      * rewrite lookup_insert_eq. split.
        -- intros [[= ->] | [? _]]; [|done]. right. split; [done|].
           exists [], l. split; [done|]. intros ? ?%elem_of_nil. done.
        -- intros [? | (_ & l1 & l2 & Hl & Hl1)]; [congruence|]. left.
           destruct l1 as [|kv l1]; simplify_eq/=; [done|].
           exfalso. apply (Hl1 k'). left.
      * rewrite lookup_insert_ne by done. split.
        -- intros [? | (Hd & l1 & l2 & -> & Hl1)]; [by left|]. right. split; [done|].
           exists ((k', v') :: l1), l2. split; [done|].
           intros k'' [[= -> ->] | ?]%elem_of_cons; [done | by eapply Hl1].
        -- intros [? | (Hd & l1 & l2 & Hl & Hl1)]; [by left|]. right. split; [done|].
           destruct l1 as [|kv l1]; simplify_eq/=.
           exists l1, l2. split; [done|]. intros k'' ?. apply (Hl1 k''). by right.
Qed.

(** [v] is a key of [dup] exactly when it has a partner of lower index. *)
Lemma build_dup_None (pts : list vec3) (v : nat) :
  build_dup (sorted_query_pairs within_TOL pts) !! v = None ↔
  ∀ k, ¬ is_pair within_TOL pts k v.
Proof.
  unfold build_dup. rewrite foldl_dup_step_None, lookup_empty.
  setoid_rewrite elem_of_sorted_query_pairs. naive_solver.
Qed.

(** [dup[v]] is the lowest index [k] such that [(k, v)] is a pair of the
    query. *)
Lemma build_dup_Some_1 (pts : list vec3) (v k : nat) :
  build_dup (sorted_query_pairs within_TOL pts) !! v = Some k →
  is_pair within_TOL pts k v ∧ ∀ k', is_pair within_TOL pts k' v → k ≤ k'.
Proof.
  unfold build_dup. rewrite foldl_dup_step_Some, lookup_empty.
  intros [? | (_ & l1 & l2 & Hl & Hl1)]; [done|].
  pose proof (pairs_from_sorted 0 pts) as Hs.
  fold (sorted_query_pairs within_TOL pts) in Hs. split.
  - apply elem_of_sorted_query_pairs. rewrite Hl. set_solver.
  - intros k' Hk'. apply elem_of_sorted_query_pairs in Hk'.
    rewrite Hl in Hs, Hk'.
    apply elem_of_app in Hk' as [? | Hk']; [by destruct (Hl1 k')|].
    apply StronglySorted_app in Hs as (_ & _ & Hs).
    apply elem_of_cons in Hk' as [[= ->] | Hk']; [done|].
    apply StronglySorted_cons in Hs as [Hs _].
    by apply (proj1 (Forall_forall _ _) Hs (k', v)).
Qed.

Lemma build_dup_Some (pts : list vec3) (v k : nat) :
  build_dup (sorted_query_pairs within_TOL pts) !! v = Some k ↔
  is_pair within_TOL pts k v ∧ ∀ k', is_pair within_TOL pts k' v → k ≤ k'.
Proof.
  split; [apply build_dup_Some_1|]. intros [Hk Hmin].
  destruct (build_dup (sorted_query_pairs within_TOL pts) !! v) as [k0|] eqn:Hv.
  - apply build_dup_Some_1 in Hv as [Hk0 Hmin0].
    f_equal. apply Nat.le_antisymm; auto.
  - rewrite build_dup_None in Hv. by destruct (Hv k).
Qed.

Lemma build_dup_lt (pts : list vec3) (v k : nat) :
  build_dup (sorted_query_pairs within_TOL pts) !! v = Some k →
  k < v < length pts.
Proof.
  intros [(Hlt & p & q & _ & Hq & _) _]%build_dup_Some_1.
  apply lookup_lt_Some in Hq. lia.
Qed.

(** The order that the set of pairs and the stable sort leave among the
    pairs of one first index does not matter: every list of the pairs that
    is sorted by the first index gives the same [dup]. *)
Lemma build_dup_any_order (pts : list vec3) (_dup : list (nat * nat)) :
  (∀ i j, (i, j) ∈ _dup ↔ is_pair within_TOL pts i j) →
  StronglySorted (λ a b : nat * nat, a.1 ≤ b.1) _dup →
  build_dup _dup = build_dup (sorted_query_pairs within_TOL pts).
Proof.
  intros Hmem Hs. apply map_eq. intros v.
  destruct (build_dup (sorted_query_pairs within_TOL pts) !! v) as [k|] eqn:Hv.
  - apply build_dup_Some in Hv as [Hk Hmin].
    destruct (build_dup _dup !! v) as [k0|] eqn:Hv0.
    + unfold build_dup in Hv0. rewrite foldl_dup_step_Some, lookup_empty in Hv0.
      destruct Hv0 as [? | (_ & l1 & l2 & Hl & Hl1)]; [done|].
      f_equal. apply Nat.le_antisymm.
      * apply Hmem in Hk. rewrite Hl in Hk, Hs.
        apply elem_of_app in Hk as [? | Hk]; [by destruct (Hl1 k)|].
        apply StronglySorted_app in Hs as (_ & _ & Hs).
        apply elem_of_cons in Hk as [[= ->] | Hk]; [done|].
        apply StronglySorted_cons in Hs as [Hs _].
        by apply (proj1 (Forall_forall _ _) Hs (k, v)).
      * apply Hmin, Hmem. rewrite Hl. set_solver.
    + unfold build_dup in Hv0. rewrite foldl_dup_step_None in Hv0.
      destruct Hv0 as [_ Hno]. destruct (Hno k). by apply Hmem.
  - unfold build_dup at 1. rewrite foldl_dup_step_None, lookup_empty.
    split; [done|]. intros k Hin%Hmem. rewrite build_dup_None in Hv.
    by destruct (Hv k).
Qed.

End query_pairs.

(** *** The mask of kept vertices *)

Lemma mask_out_Ok (keys : list nat) (mask : list bool) :
  Forall (λ k, k < length mask) keys →
  mask_out keys mask
  = Ok (imap (λ i m, if bool_decide (i ∈ keys) then false else m) mask).
Proof.
  revert mask. induction keys as [|k keys IH]; intros mask Hkeys; simpl.
  - f_equal. apply list_eq. intros i. rewrite list_lookup_imap.
    by destruct (mask !! i).
  - apply Forall_cons in Hkeys as [Hk Hkeys]. unfold setitem.
    rewrite decide_True by done. simpl. rewrite IH by by rewrite length_insert.
    f_equal. apply list_eq. intros i. rewrite !list_lookup_imap.
    destruct (decide (i = k)) as [->|Hne].
    + rewrite list_lookup_insert_eq by done.
      destruct (lookup_lt_is_Some_2 mask k Hk) as [m ->]. simpl.
      rewrite (bool_decide_eq_true_2 (k ∈ k :: keys)) by set_solver.
      by destruct (bool_decide (k ∈ keys)).
    + rewrite list_lookup_insert_ne by done. destruct (mask !! i); simpl; [|done].
      f_equal. rewrite (bool_decide_ext (i ∈ k :: keys) (i ∈ keys)); [done|].
      set_solver.
Qed.

Section kept_mask.

Variable within_TOL : vec3 → vec3 → bool.

Lemma mask_out_dup (pts : list vec3) :
  mask_out (map_to_list (build_dup (sorted_query_pairs within_TOL pts))).*1
           (np.full (length pts) true)
  = Ok (kept_mask within_TOL pts).
Proof.
  set (dup := build_dup _). rewrite mask_out_Ok.
  - f_equal. apply list_eq. intros i. unfold kept_mask, np.full.
    rewrite list_lookup_imap, list_lookup_fmap.
    destruct (decide (i < length pts)) as [Hi|Hi].
    + rewrite lookup_replicate_2, lookup_seq_lt by done. simpl. f_equal.
      fold dup. destruct (dup !! i) as [k|] eqn:Hk.
      * rewrite bool_decide_eq_true_2; [by rewrite bool_decide_eq_false_2|].
        apply list_elem_of_fmap. exists (i, k). split; [done|].
        by apply elem_of_map_to_list.
      * rewrite bool_decide_eq_false_2; [by rewrite bool_decide_eq_true_2|].
        intros ([i' k] & -> & Hin)%list_elem_of_fmap.
        apply elem_of_map_to_list in Hin. simpl in Hk. congruence.
    + rewrite (proj1 (lookup_replicate_None _ _ _)), lookup_seq_ge by lia. done.
  - apply Forall_forall. intros i ([i' k] & -> & Hin)%list_elem_of_fmap.
    apply elem_of_map_to_list, build_dup_lt in Hin. unfold np.full.
    rewrite length_replicate. simpl. lia.
Qed.

Lemma kept_mask_length (pts : list vec3) :
  length (kept_mask within_TOL pts) = length pts.
Proof. unfold kept_mask. by rewrite length_map, length_seq. Qed.

(** A vertex is kept exactly when no vertex of lower index is within [TOL]
    of it. *)
Lemma kept_mask_lookup (pts : list vec3) (i : nat) (m : bool) :
  kept_mask within_TOL pts !! i = Some m ↔
  i < length pts ∧ (m = true ↔ ∀ k, ¬ is_pair within_TOL pts k i).
Proof.
  unfold kept_mask. rewrite list_lookup_fmap.
  destruct (decide (i < length pts)) as [Hi|Hi].
  - rewrite lookup_seq_lt by done. simpl. rewrite <-build_dup_None.
    split.
    + intros [= <-]. split; [done|]. by rewrite bool_decide_eq_true.
    + intros [_ Hm]. f_equal. destruct m.
      * apply bool_decide_eq_true. by apply Hm.
      * apply bool_decide_eq_false. intros ?%Hm. done.
  - rewrite lookup_seq_ge by lia. simpl. naive_solver.
Qed.

Lemma kept_mask_true (pts : list vec3) (i j : nat) (p q : vec3) :
  kept_mask within_TOL pts !! j = Some true →
  i < j → pts !! i = Some p → pts !! j = Some q →
  within_TOL p q = false.
Proof.
  intros [_ Hj]%kept_mask_lookup Hlt Hp Hq.
  destruct (within_TOL p q) eqn:Hpq; [|done].
  destruct (proj1 Hj eq_refl i). split; [done|]. by exists p, q.
Qed.

End kept_mask.

(** *** The two loops that collect the points *)

Lemma tri_offset_valid (n v : nat) (t : tri) (m : nat) :
  tri_valid n t → v + n ≤ m → tri_valid m (tri_offset v t).
Proof. unfold tri_valid, tri_offset, tri_map. simpl. lia. Qed.

Lemma tri_valid_mono (n m : nat) (t : tri) :
  tri_valid n t → n ≤ m → tri_valid m t.
Proof. unfold tri_valid. lia. Qed.

Lemma piece_loop_fst (vcount : nat) (sphere_pieces : list SpherePiece.t) :
  (piece_loop vcount sphere_pieces).1 = map SpherePiece.points sphere_pieces.
Proof.
  revert vcount. induction sphere_pieces as [|p ps IH]; intros v; simpl; [done|].
  by rewrite IH.
Qed.

Lemma piece_loop_valid (vcount : nat) (sphere_pieces : list SpherePiece.t) :
  Forall (λ p, Forall (tri_valid (length (SpherePiece.points p))) (SpherePiece.tris p))
         sphere_pieces →
  Forall (λ p, Forall (tri_valid
                         (vcount + length (concat (map SpherePiece.points sphere_pieces))))
                      (SpherePiece.tris p))
         (piece_loop vcount sphere_pieces).2.
Proof.
  revert vcount. induction sphere_pieces as [|p ps IH]; intros v Hvalid; simpl;
    [constructor|].
  apply Forall_cons in Hvalid as [Hp Hps]. rewrite length_app. constructor; simpl.
  - apply Forall_map. eapply Forall_impl; [exact Hp|]. intros t Ht.
    eapply tri_offset_valid; [exact Ht | lia].
  - specialize (IH (v + length (SpherePiece.points p)) Hps).
    by rewrite <-Nat.add_assoc in IH.
Qed.

Lemma boundary_loop_fst (vcount : nat) (boundaries : list BoundaryPLC.t) :
  (boundary_loop vcount boundaries).1 = map BoundaryPLC.points boundaries.
Proof.
  revert vcount. induction boundaries as [|b bs IH]; intros v; simpl; [done|].
  by rewrite IH.
Qed.

Lemma boundary_loop_valid (vcount : nat) (boundaries : list BoundaryPLC.t) :
  Forall (λ b, Forall (tri_valid (length (BoundaryPLC.points b))) (BoundaryPLC.tris b))
         boundaries →
  Forall (λ b, Forall (tri_valid
                         (vcount + length (concat (map BoundaryPLC.points boundaries))))
                      (BoundaryPLC.tris b))
         (boundary_loop vcount boundaries).2.
Proof.
  revert vcount. induction boundaries as [|b bs IH]; intros v Hvalid; simpl;
    [constructor|].
  apply Forall_cons in Hvalid as [Hb Hbs]. rewrite length_app. constructor; simpl.
  - apply Forall_map. eapply Forall_impl; [exact Hb|]. intros t Ht.
    eapply tri_offset_valid; [exact Ht | lia].
  - specialize (IH (v + length (BoundaryPLC.points b)) Hbs).
    by rewrite <-Nat.add_assoc in IH.
Qed.

(** *** The two dictionaries *)

Lemma where_from_NoDup (i0 : nat) (mask : list bool) : NoDup (np.where_from i0 mask).
Proof.
  apply NoDup_alt. intros c1 c2 i H1 H2.
  destruct (Nat.lt_trichotomy c1 c2) as [Hlt | [-> | Hlt]]; [|done|].
  - pose proof (where_from_mono _ _ _ _ _ _ Hlt H1 H2). lia.
  - pose proof (where_from_mono _ _ _ _ _ _ Hlt H2 H1). lia.
Qed.

Lemma where_lookup_lt (mask : list bool) (c i : nat) :
  np.where_ mask !! c = Some i → mask !! i = Some true ∧ i < length mask.
Proof.
  intros [_ H]%where_from_lookup. rewrite Nat.sub_0_r in H.
  split; [done|]. by eapply lookup_lt_Some.
Qed.

(** [{child: parent for child, parent in enumerate(l)}] *)
Lemma lookup_enumerate (l : list nat) (c : nat) :
  (list_to_map (enumerate l) : gmap nat nat) !! c = l !! c.
Proof.
  unfold enumerate. destruct (l !! c) as [i|] eqn:Hc.
  - apply elem_of_list_to_map.
    + rewrite fst_zip by (rewrite length_seq; lia). apply NoDup_seq.
    + apply list_elem_of_lookup. exists c. apply lookup_zip_Some.
      split; [|done]. apply lookup_seq. split; [done|]. by eapply lookup_lt_Some.
  - apply not_elem_of_list_to_map.
    rewrite fst_zip by (rewrite length_seq; lia).
    rewrite elem_of_seq. apply lookup_ge_None in Hc. lia.
Qed.

(** [{old: new for new, old in enumerate(np.where(mask)[0])}] *)
Lemma lookup_reindex0 (mask : list bool) (old new : nat) :
  (list_to_map (map (λ no : nat * nat, (no.2, no.1)) (enumerate (np.where_ mask)))
     : gmap nat nat) !! old = Some new ↔
  np.where_ mask !! new = Some old.
Proof.
  assert (∀ l : list nat,
    (map (λ no : nat * nat, (no.2, no.1)) (enumerate l)).*1 = l) as Hfst.
  { intros l. unfold enumerate.
    etrans; [|apply (snd_zip (seq 0 (length l)) l); rewrite length_seq; lia].
    rewrite <-list_fmap_compose. by apply list_fmap_ext. }
  rewrite <-elem_of_list_to_map by (rewrite Hfst; apply where_from_NoDup).
  rewrite list_elem_of_fmap. unfold enumerate. split.
  - intros ([n o] & [= -> ->] & Hin). apply list_elem_of_lookup in Hin as [c Hc].
    apply lookup_zip_Some in Hc as [Hs Hc]. apply lookup_seq in Hs as [-> _]. done.
  - intros Hn. exists (new, old). split; [done|]. apply list_elem_of_lookup.
    exists new. apply lookup_zip_Some. split; [|done]. apply lookup_seq.
    split; [done|]. by eapply lookup_lt_Some.
Qed.

(** [{v + a: v + b for v in range(m)}] *)
Lemma lookup_shift_range (a b m c : nat) :
  (list_to_map (map (λ v, (v + a, v + b)) (seq 0 m)) : gmap nat nat) !! c
  = if decide (a ≤ c < a + m) then Some (c - a + b) else None.
Proof.
  case_decide as Hc.
  - apply elem_of_list_to_map.
    + rewrite <-list_fmap_compose. apply NoDup_fmap_2; [|apply NoDup_seq].
      intros ?? ?. simpl in *. lia.
    + apply list_elem_of_fmap. exists (c - a). split; [f_equal; lia|].
      apply elem_of_seq. lia.
  - apply not_elem_of_list_to_map. rewrite <-list_fmap_compose.
    intros (v & ? & Hv%elem_of_seq)%list_elem_of_fmap. simpl in *. lia.
Qed.

(** *** [build_point_list] without the steps that cannot raise *)

Section build_point_list_facts.

Variable within_TOL : vec3 → vec3 → bool.

Lemma build_point_list_unfold (domain : Domain)
    (sphere_pieces : list SpherePiece.t) (boundaries : list BoundaryPLC.t) :
  let pp := piece_points_of sphere_pieces in
  let bpp_idx := np.where_ (bpp_mask domain sphere_pieces) in
  let BP := boundary_points_of domain sphere_pieces boundaries in
  let mask := kept_mask within_TOL BP in
  let BPc := np.compress mask BP in
  let remap : gmap nat nat :=
    update (list_to_map (enumerate bpp_idx))
      (list_to_map (map (λ v, (v + length bpp_idx, v + length pp))
                        (seq 0 (length BPc - length bpp_idx)))) in
  let reindex0 : gmap nat nat :=
    list_to_map (map (λ no : nat * nat, (no.2, no.1)) (enumerate (np.where_ mask))) in
  build_point_list within_TOL domain sphere_pieces boundaries
  = do tree <- cKDTree BP;
    do upd <- comprehension
                (λ kv : nat * nat, do r <- subscript reindex0 kv.2; Ok (kv.1, r))
                (map_to_list (build_dup (sorted_query_pairs within_TOL BP)));
    do bs <- comprehension
               (reindex_boundary remap (update reindex0 (list_to_map upd)))
               (boundary_loop (length bpp_idx) boundaries).2;
    Ok (pp ++ drop (length bpp_idx) BPc, (piece_loop 0 sphere_pieces).2, bs).
Proof.
  cbv zeta. unfold build_point_list.
  rewrite (surjective_pairing (piece_loop 0 sphere_pieces)), piece_loop_fst.
  fold (piece_points_of sphere_pieces).
  assert ((if decide (length (map SpherePiece.points sphere_pieces) ≠ 0)
           then piece_points_of sphere_pieces else [])
          = piece_points_of sphere_pieces) as ->.
  { case_decide as Hlen; [done|]. unfold piece_points_of.
    by destruct (map SpherePiece.points sphere_pieces). }
  fold (bpp_mask domain sphere_pieces).
  rewrite (surjective_pairing (boundary_loop _ boundaries)), boundary_loop_fst.
  fold (patch_points_of boundaries).
  pose proof (item_where_from [] (piece_points_of sphere_pieces)
                (bpp_mask domain sphere_pieces)) as Hbpp.
  simpl in Hbpp.
  change (np.where_from 0 (bpp_mask domain sphere_pieces))
    with (np.where_ (bpp_mask domain sphere_pieces)) in Hbpp.
  rewrite Hbpp by (unfold bpp_mask; by rewrite length_map).
  simpl.
  change (np.compress (bpp_mask domain sphere_pieces) (piece_points_of sphere_pieces)
          ++ np.vstack (map BoundaryPLC.points boundaries))
    with (boundary_points_of domain sphere_pieces boundaries).
  destruct (cKDTree (boundary_points_of domain sphere_pieces boundaries)) as [[]|e];
    [|done].
  simpl. rewrite mask_out_dup. simpl. done.
Qed.

(** A call that returns has built its tree: the points handed to the radius
    query are finite. *)
Lemma build_point_list_Ok_unfold (domain : Domain)
    (sphere_pieces : list SpherePiece.t) (boundaries : list BoundaryPLC.t)
    (r : list vec3 * list SpherePiece.t * list BoundaryPLC.t) :
  let pp := piece_points_of sphere_pieces in
  let bpp_idx := np.where_ (bpp_mask domain sphere_pieces) in
  let BP := boundary_points_of domain sphere_pieces boundaries in
  let mask := kept_mask within_TOL BP in
  let BPc := np.compress mask BP in
  let remap : gmap nat nat :=
    update (list_to_map (enumerate bpp_idx))
      (list_to_map (map (λ v, (v + length bpp_idx, v + length pp))
                        (seq 0 (length BPc - length bpp_idx)))) in
  let reindex0 : gmap nat nat :=
    list_to_map (map (λ no : nat * nat, (no.2, no.1)) (enumerate (np.where_ mask))) in
  build_point_list within_TOL domain sphere_pieces boundaries = Ok r →
  cKDTree BP = Ok tt
  ∧ (do upd <- comprehension
                 (λ kv : nat * nat, do r <- subscript reindex0 kv.2; Ok (kv.1, r))
                 (map_to_list (build_dup (sorted_query_pairs within_TOL BP)));
     do bs <- comprehension
                (reindex_boundary remap (update reindex0 (list_to_map upd)))
                (boundary_loop (length bpp_idx) boundaries).2;
     Ok (pp ++ drop (length bpp_idx) BPc, (piece_loop 0 sphere_pieces).2, bs))
    = Ok r.
Proof.
  cbv zeta. rewrite build_point_list_unfold. cbv zeta.
  destruct (cKDTree (boundary_points_of domain sphere_pieces boundaries)) as [[]|e];
    [|done].
  simpl. done.
Qed.

(** Every boundary vertex gets an index of the compacted array, when the
    update of [reindex] does not raise. *)
Lemma reindex_lookup (pts : list vec3) (upd : list (nat * nat)) :
  let mask := kept_mask within_TOL pts in
  let reindex0 : gmap nat nat :=
    list_to_map (map (λ no : nat * nat, (no.2, no.1)) (enumerate (np.where_ mask))) in
  comprehension (λ kv : nat * nat, do r <- subscript reindex0 kv.2; Ok (kv.1, r))
                (map_to_list (build_dup (sorted_query_pairs within_TOL pts)))
  = Ok upd →
  ∀ u, u < length pts →
    ∃ r, update reindex0 (list_to_map upd) !! u = Some r
         ∧ r < length (np.compress mask pts).
Proof.
  intros mask reindex0 Hupd u Hu.
  assert (∀ k r, reindex0 !! k = Some r → r < length (np.compress mask pts)) as Hr0.
  { intros k r Hk. apply lookup_reindex0 in Hk.
    rewrite compress_length by apply kept_mask_length. by eapply lookup_lt_Some. }
  apply comprehension_Ok in Hupd.
  assert (∀ k r, (k, r) ∈ upd → r < length (np.compress mask pts)) as Hr1.
  { intros k r Hin. apply list_elem_of_lookup in Hin as [i Hi].
    destruct (Forall2_lookup_r _ _ _ _ _ Hupd Hi) as ([k' v] & _ & Hkv).
    apply rbind_Ok in Hkv as (r' & Hr' & [= -> ->]).
    apply subscript_Ok in Hr'. by eapply Hr0. }
  unfold update.
  destruct ((list_to_map upd : gmap nat nat) !! u) as [r|] eqn:Hlu.
  - exists r. split; [by apply lookup_union_Some_l|].
    apply elem_of_list_to_map_2 in Hlu. by eapply Hr1.
  - rewrite lookup_union_r by done.
    destruct (kept_mask within_TOL pts !! u) as [[]|] eqn:Hm.
    + destruct (where_from_complete 0 _ _ Hm) as [c Hc].
      exists c. split; [by apply lookup_reindex0|].
      rewrite compress_length by apply kept_mask_length. by eapply lookup_lt_Some.
    + exfalso. apply not_elem_of_list_to_map in Hlu. apply Hlu.
      assert (is_Some (build_dup (sorted_query_pairs within_TOL pts) !! u)) as [k Hk].
      { apply not_eq_None_Some. intros Hnone.
        apply kept_mask_lookup in Hm as [_ Hm]. rewrite build_dup_None in Hnone.
        by apply Hm in Hnone. }
      apply elem_of_map_to_list, list_elem_of_lookup in Hk as [i Hi].
      destruct (Forall2_lookup_l _ _ _ _ _ Hupd Hi) as ([k' r] & Hi' & Hkv).
      apply rbind_Ok in Hkv as (r' & _ & [= <- <-]).
      apply list_elem_of_fmap. exists (u, r'). split; [done|].
      apply list_elem_of_lookup. by exists i.
    + apply lookup_ge_None in Hm. rewrite kept_mask_length in Hm. lia.
Qed.

(** Every index of the compacted array has an entry of [remap], below the
    length of the returned array. *)
Lemma remap_lookup (bpp_idx : list nat) (npiece ncompact r : nat) :
  Forall (λ i, i < npiece) bpp_idx →
  r < ncompact →
  ∃ g, update (list_to_map (enumerate bpp_idx))
         (list_to_map (map (λ v, (v + length bpp_idx, v + npiece))
                           (seq 0 (ncompact - length bpp_idx)))) !! r = Some g
       ∧ g < npiece + (ncompact - length bpp_idx).
Proof.
  intros Hidx Hr. unfold update. rewrite lookup_union, lookup_shift_range, lookup_enumerate.
  case_decide as Hc.
  - exists (r - length bpp_idx + npiece). split; [|lia].
    by destruct (bpp_idx !! r).
  - assert (r < length bpp_idx) as Hlt by lia.
    destruct (lookup_lt_is_Some_2 _ _ Hlt) as [g Hg]. exists g. rewrite Hg.
    split; [done|]. pose proof (proj1 (Forall_lookup _ _) Hidx _ _ Hg). simpl in *. lia.
Qed.

End build_point_list_facts.

(** *** The returned array *)

Section merged_points.

Variable within_TOL : vec3 → vec3 → bool.

(** When the sphere-piece points are pairwise apart, the radius query removes
    none of those that were copied to the head of [boundary_points]. *)
Lemma kept_mask_bpp (domain : Domain) (sphere_pieces : list SpherePiece.t)
    (boundaries : list BoundaryPLC.t) (c : nat) :
  no_near_duplicates within_TOL (piece_points_of sphere_pieces) →
  c < length (np.where_ (bpp_mask domain sphere_pieces)) →
  kept_mask within_TOL (boundary_points_of domain sphere_pieces boundaries) !! c
  = Some true.
Proof.
  intros Hpp Hc.
  assert (length (bpp_mask domain sphere_pieces)
          = length (piece_points_of sphere_pieces)) as Hlen
    by (unfold bpp_mask; by rewrite length_map).
  pose proof (compress_length _ _ Hlen) as Hlenc.
  apply kept_mask_lookup. unfold boundary_points_of. split.
  { rewrite length_app. lia. }
  split; [|done]. intros _ k (Hlt & p & q & Hp & Hq & Hpq).
  rewrite lookup_app_l in Hp, Hq by lia.
  apply (compress_lookup 0) in Hp as (i1 & Hi1 & Hp); [|done].
  apply (compress_lookup 0) in Hq as (i2 & Hi2 & Hq); [|done].
  pose proof (where_from_mono _ _ _ _ _ _ Hlt Hi1 Hi2). simpl in *.
  rewrite (Hpp i1 i2 p q) in Hpq; [done | lia | done..].
Qed.



End merged_points.

(** *** The reindexed triangles *)

Section merged_indices.

Variable within_TOL : vec3 → vec3 → bool.

Lemma no_near_duplicates_alt (pts : list vec3) :
  no_near_duplicates within_TOL pts ↔ sorted_query_pairs within_TOL pts = [].
Proof.
  split.
  - intros Hno. apply elem_of_nil_inv. intros [i j] Hin.
    apply elem_of_sorted_query_pairs in Hin as (Hlt & p & q & Hp & Hq & Hpq).
    by rewrite (Hno i j p q) in Hpq.
  - intros Hnil i j p q Hlt Hp Hq. destruct (within_TOL p q) eqn:Hpq; [|done].
    assert ((i, j) ∈ sorted_query_pairs within_TOL pts) as Hin.
    { apply elem_of_sorted_query_pairs. split; [done|]. by exists p, q. }
    rewrite Hnil in Hin. by apply elem_of_nil in Hin.
Qed.

Lemma reindex_tri_valid (remap reindex : gmap nat nat) (n m : nat) (t t' : tri) :
  (∀ u, u < n → ∃ r, reindex !! u = Some r ∧ ∃ g, remap !! r = Some g ∧ g < m) →
  tri_valid n t →
  reindex_tri remap reindex t = Ok t' →
  tri_valid m t'.
Proof.
  intros Hmap (Ha & Hb & Hc) Ht. unfold reindex_tri in Ht.
  assert (∀ u g, u < n →
    (do r <- subscript reindex u; subscript remap r) = Ok g → g < m) as Hone.
  { intros u g Hu Hg. apply rbind_Ok in Hg as (r & Hr%subscript_Ok & Hg%subscript_Ok).
    destruct (Hmap u Hu) as (r' & Hr' & g' & Hg' & Hlt). congruence. }
  apply rbind_Ok in Ht as (a & Ha' & Ht).
  apply rbind_Ok in Ht as (b & Hb' & Ht).
  apply rbind_Ok in Ht as (c & Hc' & [= <-]).
  unfold tri_valid. simpl.
  split_and!; [exact (Hone _ _ Ha Ha') | exact (Hone _ _ Hb Hb') | exact (Hone _ _ Hc Hc')].
Qed.

Lemma build_point_list_length (domain : Domain) (sphere_pieces : list SpherePiece.t)
    (boundaries : list BoundaryPLC.t) (out : list vec3)
    (sps' : list SpherePiece.t) (bs' : list BoundaryPLC.t) :
  build_point_list within_TOL domain sphere_pieces boundaries = Ok (out, sps', bs') →
  length sps' = length sphere_pieces ∧ length bs' = length boundaries.
Proof.
  intros H. apply build_point_list_Ok_unfold in H as [_ H]. cbv zeta in H.
  apply rbind_Ok in H as (upd & _ & H). apply rbind_Ok in H as (bs'' & Hbs & [= <- <- <-]).
  apply comprehension_length in Hbs. split.
  - clear. generalize 0. induction sphere_pieces as [|p ps IH]; intros v; simpl; [done|].
    by rewrite IH.
  - rewrite Hbs. clear.
    generalize (length (np.where_ (bpp_mask domain sphere_pieces))).
    induction boundaries as [|b bs IH]; intros v; simpl; [done|]. by rewrite IH.
Qed.

Lemma merged_indices_valid (domain : Domain) (sphere_pieces : list SpherePiece.t)
    (boundaries : list BoundaryPLC.t) (out : list vec3)
    (sps' : list SpherePiece.t) (bs' : list BoundaryPLC.t) :
  pieces_locally_valid sphere_pieces →
  boundaries_locally_valid boundaries →
  build_point_list within_TOL domain sphere_pieces boundaries = Ok (out, sps', bs') →
  pieces_valid (length out) sps' ∧ boundaries_valid (length out) bs'.
Proof.
  intros Hsp Hbd H. apply build_point_list_Ok_unfold in H as [_ H]. cbv zeta in H.
  apply rbind_Ok in H as (upd & Hupd & H).
  apply rbind_Ok in H as (bs'' & Hbs & [= <- <- <-]).
  set (nb := length (np.where_ (bpp_mask domain sphere_pieces))) in *.
  set (BP := boundary_points_of domain sphere_pieces boundaries) in *.
  set (BPc := np.compress (kept_mask within_TOL BP) BP) in *.
  assert (length (bpp_mask domain sphere_pieces)
          = length (piece_points_of sphere_pieces)) as Hlen
    by (unfold bpp_mask; by rewrite length_map).
  pose proof (compress_length _ _ Hlen) as Hlenc. fold nb in Hlenc.
  assert (length BP = nb + length (patch_points_of boundaries)) as HlenBP.
  { unfold BP, boundary_points_of. rewrite length_app. lia. }
  rewrite length_app, length_drop. split.
  - eapply Forall_impl; [apply (piece_loop_valid 0), Hsp|].
    intros p Hp. eapply Forall_impl; [exact Hp|]. intros t Ht.
    eapply tri_valid_mono; [exact Ht|]. unfold piece_points_of, np.vstack. simpl. lia.
  - apply comprehension_Ok in Hbs. apply Forall_forall.
    intros b' [i Hb']%list_elem_of_lookup.
    destruct (Forall2_lookup_r _ _ _ _ _ Hbs Hb') as (b & Hb & Hre).
    pose proof (proj1 (Forall_lookup _ _) (boundary_loop_valid nb _ Hbd) _ _ Hb) as Hvalid.
    simpl in Hvalid. unfold reindex_boundary in Hre.
    apply rbind_Ok in Hre as (ts & Hts & [= <-]). simpl.
    apply comprehension_Ok in Hts. apply Forall_forall.
    intros t' [j Ht']%list_elem_of_lookup.
    destruct (Forall2_lookup_r _ _ _ _ _ Hts Ht') as (t & Ht & Hre).
    eapply reindex_tri_valid; [|exact (proj1 (Forall_lookup _ _) Hvalid _ _ Ht)|exact Hre].
    intros u Hu.
    destruct (reindex_lookup within_TOL BP upd Hupd u) as (r & Hr & Hrlt).
    { rewrite HlenBP. unfold patch_points_of, np.vstack. lia. }
    exists r. split; [done|]. fold BPc in Hrlt. apply remap_lookup; [|done].
    apply Forall_forall. intros k [c Hc]%list_elem_of_lookup.
    apply where_lookup_lt in Hc as [_ Hc]. lia.
Qed.

(** When the points of [boundary_points] are finite (the tree is built) and
    being within [TOL] is transitive on them (the near-duplicates form
    groups of points all within [TOL] of each other), every removed vertex
    has a kept representative and the call returns. *)
Lemma build_point_list_returns (domain : Domain) (sphere_pieces : list SpherePiece.t)
    (boundaries : list BoundaryPLC.t) :
  let BP := boundary_points_of domain sphere_pieces boundaries in
  forallb finite_point BP = true →
  (∀ i j k, is_pair within_TOL BP i j → is_pair within_TOL BP j k →
            is_pair within_TOL BP i k) →
  boundaries_locally_valid boundaries →
  ∃ out sps' bs',
    build_point_list within_TOL domain sphere_pieces boundaries = Ok (out, sps', bs').
Proof.
  intros BP Hfin Htrans Hbd. rewrite build_point_list_unfold. cbv zeta. fold BP.
  unfold cKDTree. rewrite Hfin, rbind_Ok_l.
  set (dup := build_dup (sorted_query_pairs within_TOL BP)).
  set (reindex0 := list_to_map _ : gmap nat nat).
  assert (∃ upd, comprehension
            (λ kv : nat * nat, do r <- subscript reindex0 kv.2; Ok (kv.1, r))
            (map_to_list dup) = Ok upd) as [upd Hupd].
  { assert (Forall (λ kv : nat * nat, is_Some (reindex0 !! kv.2)) (map_to_list dup))
      as Hall.
    { apply Forall_forall. intros [k v] Hkv%elem_of_map_to_list. simpl.
      pose proof (build_dup_lt within_TOL BP k v Hkv) as Hlt.
      apply build_dup_Some in Hkv as [Hvk Hmin].
      assert (kept_mask within_TOL BP !! v = Some true) as Hm.
      { apply kept_mask_lookup. split; [lia|]. split; [|done]. intros _ u Huv.
        specialize (Hmin u (Htrans _ _ _ Huv Hvk)). destruct Huv as [? _]. lia. }
      destruct (where_from_complete 0 _ _ Hm) as [c Hc]. exists c.
      by apply lookup_reindex0. }
    induction Hall as [|kv l [r Hr] _ [upd IH]]; simpl; [by exists []|].
    unfold subscript at 1. rewrite Hr. simpl. rewrite IH. simpl. by eexists. }
  rewrite Hupd, rbind_Ok_l.
  set (nb := length (np.where_ (bpp_mask domain sphere_pieces))).
  set (remap := update _ _).
  set (reindex := update reindex0 _).
  assert (length (bpp_mask domain sphere_pieces)
          = length (piece_points_of sphere_pieces)) as Hlen
    by (unfold bpp_mask; by rewrite length_map).
  pose proof (compress_length _ _ Hlen) as Hlenc. fold nb in Hlenc.
  assert (length BP = nb + length (patch_points_of boundaries)) as HlenBP.
  { unfold BP, boundary_points_of. rewrite length_app. lia. }
  assert (∀ u, u < length BP →
            ∃ g, (do r <- subscript reindex u; subscript remap r) = Ok g) as Hone.
  { intros u Hu.
    destruct (reindex_lookup within_TOL BP upd Hupd u Hu) as (r & Hr & Hrlt).
    destruct (remap_lookup (np.where_ (bpp_mask domain sphere_pieces))
                (length (piece_points_of sphere_pieces))
                (length (np.compress (kept_mask within_TOL BP) BP)) r)
      as (g & Hg & _); [|exact Hrlt|].
    { apply Forall_forall. intros k [c Hc]%list_elem_of_lookup.
      apply where_lookup_lt in Hc as [_ Hc]. lia. }
    exists g. unfold subscript. fold reindex0 reindex in Hr. rewrite Hr. simpl.
    fold nb remap in Hg. by rewrite Hg. }
  assert (∃ bs', comprehension (reindex_boundary remap reindex)
                   (boundary_loop nb boundaries).2 = Ok bs') as [bs' Hbs].
  { pose proof (boundary_loop_valid nb _ Hbd) as Hvalid.
    change (concat (map BoundaryPLC.points boundaries))
      with (patch_points_of boundaries) in Hvalid.
    rewrite <-HlenBP in Hvalid.
    induction Hvalid as [|b l Hb _ [bs' IH]]; simpl; [by exists []|].
    assert (∃ ts, comprehension (reindex_tri remap reindex) (BoundaryPLC.tris b)
                  = Ok ts) as [ts Hts].
    { induction Hb as [|t ts' (Ha & Hb' & Hc) _ [ts IHt]]; simpl; [by exists []|].
      unfold reindex_tri at 1.
      destruct (Hone _ Ha) as [a ->]. destruct (Hone _ Hb') as [b' ->].
      destruct (Hone _ Hc) as [c ->]. simpl. rewrite IHt. simpl. by eexists. }
    unfold reindex_boundary at 1. rewrite Hts. simpl. rewrite IH. simpl. by eexists. }
  rewrite Hbs, rbind_Ok_l. by eexists _, _, _.
Qed.

End merged_indices.

(** ** The vertex merge on an array without near-duplicates *)

Section idempotence.

Variable within_TOL : vec3 → vec3 → bool.

Lemma tri_offset_0 (t : tri) : tri_offset 0 t = t.
Proof.
  destruct t as [[a b] c]. unfold tri_offset, tri_map. simpl.
  by rewrite !Nat.add_0_r.
Qed.

Lemma map_tri_offset_0 (ts : list tri) : map (tri_offset 0) ts = ts.
Proof. induction ts as [|t ts IH]; simpl; [done|]. by rewrite tri_offset_0, IH. Qed.

Lemma build_dup_empty (pts : list vec3) :
  no_near_duplicates within_TOL pts →
  build_dup (sorted_query_pairs within_TOL pts) = ∅.
Proof. intros Hno%no_near_duplicates_alt. by rewrite Hno. Qed.

Lemma kept_mask_all_true (pts : list vec3) :
  no_near_duplicates within_TOL pts →
  kept_mask within_TOL pts = replicate (length pts) true.
Proof.
  intros Hno. unfold kept_mask. rewrite build_dup_empty by done.
  generalize 0. induction (length pts) as [|n IH]; intros i; simpl; [done|].
  by rewrite IH.
Qed.

Lemma Forall_replicate_true (n : nat) : Forall (λ m, m = true) (replicate n true).
Proof. apply Forall_forall. by intros m [-> _]%elem_of_replicate. Qed.

Lemma no_near_duplicates_compress (mask : list bool) (pts : list vec3) :
  length mask = length pts →
  no_near_duplicates within_TOL pts →
  no_near_duplicates within_TOL (np.compress mask pts).
Proof.
  intros Hlen Hno c1 c2 p q Hlt Hp Hq.
  apply (compress_lookup 0) in Hp as (i1 & Hi1 & Hp); [|done].
  apply (compress_lookup 0) in Hq as (i2 & Hi2 & Hq); [|done].
  pose proof (where_from_mono _ _ _ _ _ _ Hlt Hi1 Hi2). simpl in *.
  eapply (Hno i1 i2); [lia | done..].
Qed.

(** Every vertex of a triangle is mapped to itself. *)
Lemma reindex_tri_id (remap reindex : gmap nat nat) (n : nat) (t : tri) :
  (∀ u, u < n → reindex !! u = Some u ∧ remap !! u = Some u) →
  tri_valid n t →
  reindex_tri remap reindex t = Ok t.
Proof.
  intros Hid (Ha & Hb & Hc). destruct t as [[a b] c]. unfold reindex_tri, subscript.
  simpl in *.
  destruct (Hid a Ha) as [-> Ha']. simpl. rewrite Ha'. simpl.
  destruct (Hid b Hb) as [-> Hb']. simpl. rewrite Hb'. simpl.
  destruct (Hid c Hc) as [-> Hc']. simpl. rewrite Hc'. done.
Qed.

Lemma comprehension_id {A : Type} (f : A → result A) (l : list A) :
  Forall (λ a, f a = Ok a) l → comprehension f l = Ok l.
Proof.
  induction 1 as [|a l Ha _ IH]; simpl; [done|]. by rewrite Ha, IH.
Qed.

(** The array as the only boundary patch, no sphere piece. *)
Lemma build_point_list_single_patch (domain : Domain) (b : BoundaryPLC.t) :
  forallb finite_point (BoundaryPLC.points b) = true →
  no_near_duplicates within_TOL (BoundaryPLC.points b) →
  Forall (tri_valid (length (BoundaryPLC.points b))) (BoundaryPLC.tris b) →
  build_point_list within_TOL domain [] [b] = Ok (BoundaryPLC.points b, [], [b]).
Proof.
  intros Hfin Hno Hvalid. rewrite build_point_list_unfold. cbv zeta.
  unfold boundary_points_of, bpp_mask, piece_points_of, patch_points_of, np.vstack.
  simpl. rewrite app_nil_r.
  set (pts := BoundaryPLC.points b) in *.
  unfold cKDTree. rewrite Hfin, rbind_Ok_l.
  rewrite build_dup_empty, map_to_list_empty by done. simpl.
  rewrite kept_mask_all_true by done.
  rewrite compress_all_true
    by (rewrite ?length_replicate; auto using Forall_replicate_true).
  rewrite Nat.sub_0_r. unfold reindex_boundary at 1.
  rewrite map_tri_offset_0. simpl.
  rewrite (comprehension_id _ (BoundaryPLC.tris b)).
  - simpl. by destruct b.
  - eapply Forall_impl; [exact Hvalid|]. intros t Ht.
    apply (reindex_tri_id _ _ (length pts)); [|done].
    intros u Hu. unfold update. split.
    + rewrite (left_id_L ∅ (∪)). apply lookup_reindex0.
      unfold np.where_. rewrite where_from_all_true by apply Forall_replicate_true.
      rewrite length_replicate. by apply lookup_seq_lt.
    + rewrite lookup_union, lookup_shift_range, lookup_empty.
      case_decide as Hdec; [|exfalso; apply Hdec; lia].
      by replace (u - 0 + 0) with u by lia.
Qed.

Lemma forallb_compress {A : Type} (f : A → bool) (mask : list bool) (l : list A) :
  forallb f l = true → forallb f (np.compress mask l) = true.
Proof.
  revert l. induction mask as [|m mask IH]; intros [|a l] Hl; simpl in *; try done.
  apply andb_true_iff in Hl as [Ha Hl]. destruct m; simpl; [rewrite Ha|]; by apply IH.
Qed.

(** The array as the only sphere piece, no boundary patch. *)
Lemma build_point_list_single_piece (domain : Domain) (p : SpherePiece.t) :
  forallb finite_point (SpherePiece.points p) = true →
  no_near_duplicates within_TOL (SpherePiece.points p) →
  build_point_list within_TOL domain [p] [] = Ok (SpherePiece.points p, [p], []).
Proof.
  intros Hfin Hno. rewrite build_point_list_unfold. cbv zeta.
  unfold boundary_points_of, bpp_mask, piece_points_of, patch_points_of, np.vstack.
  simpl. rewrite !app_nil_r.
  set (pts := SpherePiece.points p) in *.
  set (maskb := map (on_boundary domain) pts).
  assert (length maskb = length pts) as Hlen by (unfold maskb; by rewrite length_map).
  assert (no_near_duplicates within_TOL (np.compress maskb pts)) as Hnoc
    by by apply no_near_duplicates_compress.
  unfold cKDTree. rewrite (forallb_compress _ maskb pts Hfin), rbind_Ok_l.
  rewrite build_dup_empty, map_to_list_empty by done. simpl.
  rewrite kept_mask_all_true by done.
  rewrite compress_all_true
    by (rewrite ?length_replicate; auto using Forall_replicate_true).
  rewrite <-(compress_length maskb pts) by done. rewrite drop_all, app_nil_r.
  rewrite map_tri_offset_0. by destruct p.
Qed.

End idempotence.

(** C9, as stated, fails: an array with a NaN is returned by the merge of a
    sphere piece (the point is on no boundary plane and does not reach the
    radius query), and presented again as the only boundary patch it is
    refused by [cKDTree] with [ValueError]. *)
Lemma build_point_list_nan_ValueError :
  build_point_list (within TOL) unit_domain
    [SpherePiece.mk [point_with_nan] [] sphere_0 false] []
  = Ok ([point_with_nan], [SpherePiece.mk [point_with_nan] [] sphere_0 false], [])
  ∧ no_near_duplicates (within TOL) [point_with_nan]
  ∧ build_point_list (within TOL) unit_domain []
      [BoundaryPLC.mk [point_with_nan] [] [] []]
    = Raise ValueError.
Proof.
  split_and!.
  - vm_compute. reflexivity.
  - apply no_near_duplicates_alt. vm_compute. reflexivity.
  - vm_compute. reflexivity.
Qed.

(** C9, amended: on an array of finite points without near-duplicates,
    presented as the only source (the only boundary patch, or the only
    sphere piece) with triangles that index it, [build_point_list] returns
    the array as it is and leaves every triangle as it is. *)
Theorem build_point_list_idempotent (within_TOL : vec3 → vec3 → bool)
    (domain : Domain) (pts : list vec3) (ts : list tri) :
  forallb finite_point pts = true →
  no_near_duplicates within_TOL pts →
  Forall (tri_valid (length pts)) ts →
  (∀ face_markers holes,
     build_point_list within_TOL domain [] [BoundaryPLC.mk pts ts face_markers holes]
     = Ok (pts, [], [BoundaryPLC.mk pts ts face_markers holes]))
  ∧ (∀ sphere is_hole,
       build_point_list within_TOL domain [SpherePiece.mk pts ts sphere is_hole] []
       = Ok (pts, [SpherePiece.mk pts ts sphere is_hole], [])).
Proof.
  intros Hfin Hno Hvalid. split.
  - intros fm hs. by apply (build_point_list_single_patch within_TOL domain
                              (BoundaryPLC.mk pts ts fm hs)).
  - intros s h. by apply (build_point_list_single_piece within_TOL domain
                            (SpherePiece.mk pts ts s h)).
Qed.

(** The merged array of the example, run through the merge again. *)
Lemma build_point_list_idempotent_witness :
  (∀ face_markers holes,
     build_point_list (within TOL) unit_domain []
       [BoundaryPLC.mk merged_points_example merged_tris_example face_markers holes]
     = Ok (merged_points_example, [],
           [BoundaryPLC.mk merged_points_example merged_tris_example face_markers holes]))
  ∧ (∀ sphere is_hole,
       build_point_list (within TOL) unit_domain
         [SpherePiece.mk merged_points_example merged_tris_example sphere is_hole] []
       = Ok (merged_points_example,
             [SpherePiece.mk merged_points_example merged_tris_example sphere is_hole],
             [])).
Proof.
  apply (build_point_list_idempotent (within TOL) unit_domain
           merged_points_example merged_tris_example).
  - vm_compute. reflexivity.
  - apply no_near_duplicates_alt. vm_compute. reflexivity.
  - repeat constructor; simpl; lia.
Defined.

(** ** Chains of near-duplicates *)

(** C3: three points in a row, each within [TOL] of the next and the first
    and the last farther apart: the second and the third are both marked for
    removal, the third with the removed second as its representative, and
    the update of [reindex] raises [KeyError]; nothing is returned. *)
Theorem build_point_list_chain_KeyError :
  let pts := BoundaryPLC.points patch_with_chain in
  sorted_query_pairs (within TOL) pts = [(0, 1); (1, 2)]
  ∧ build_dup (sorted_query_pairs (within TOL) pts) = {[ 1 := 0; 2 := 1 ]}
  ∧ build_point_list (within TOL) unit_domain [] [patch_with_chain] = Raise KeyError.
Proof.
  cbv zeta. split_and!.
  - vm_compute. reflexivity.
  - apply map_eq. intros i.
    assert (sorted_query_pairs (within TOL) (BoundaryPLC.points patch_with_chain)
            = [(0, 1); (1, 2)]) as -> by (vm_compute; reflexivity).
    unfold build_dup, dup_step. simpl. rewrite lookup_empty.
    rewrite lookup_insert_ne, lookup_empty by done.
    apply map_eq_iff. apply insert_insert_ne. done.
  - vm_compute. reflexivity.
Qed.

(** ** Zero snap *)

Lemma float_sub_0 (c : float) : (c - 0)%float = c.
Proof.
  apply Prim2SF_inj. rewrite FloatAxioms.sub_spec.
  change (Prim2SF 0) with (S754_zero false).
  destruct (Prim2SF c) as [[]| [] | | ]; reflexivity.
Qed.

Lemma float_eqb_0_leb (c : float) :
  PrimFloat.eqb c 0 = true → PrimFloat.leb (abs c) np.atol = true.
Proof.
  rewrite FloatAxioms.eqb_spec, FloatAxioms.leb_spec, FloatAxioms.abs_spec.
  change (Prim2SF 0) with (S754_zero false).
  assert (Prim2SF np.atol = S754_finite false 6044629098073146 (-79)) as ->
    by (vm_compute; reflexivity).
  destruct (Prim2SF c) as [[]| [] | | [] m e]; simpl; try done.
Qed.

(** At [b = 0.] the test of [isclose] is [|a| <= atol]. *)
Lemma isclose_0 (c : float) :
  np.isclose c 0 = PrimFloat.leb (abs c) np.atol.
Proof.
  unfold np.isclose. rewrite float_sub_0.
  assert ((np.atol + np.rtol * abs 0)%float = np.atol) as ->
    by (vm_compute; reflexivity).
  assert (np.isfinite 0 = true) as -> by (vm_compute; reflexivity).
  rewrite andb_true_r.
  destruct (PrimFloat.leb (abs c) np.atol) eqn:Hle; [done|]. simpl.
  destruct (PrimFloat.eqb c 0) eqn:Heq; [|done].
  apply float_eqb_0_leb in Heq. congruence.
Qed.

Lemma snap_zero_rows (points : list vec3) :
  snap_zero points
  = map (λ p, row3 (λ j, if np.isclose (coord j p) 0 then 0%float else coord j p))
        points.
Proof.
  unfold snap_zero, snap_axis. simpl. rewrite !map_map. apply map_ext.
  intros [[a b] c]. unfold set_coord, row3. simpl.
  destruct (np.isclose a 0); simpl; destruct (np.isclose b 0); simpl;
    destruct (np.isclose c 0); reflexivity.
Qed.

(** C4, as stated, fails for [TOL = 1e-10]: the coordinate [5e-9] is farther
    than [TOL] from 0 and the snap sets it to [0.]. *)
Lemma snap_zero_alters_beyond_TOL :
  PrimFloat.ltb TOL (abs (coord 0 point_5e_9)) = true
  ∧ snap_zero [point_5e_9] = [(0, 1, 1)%float]
  ∧ coord 0 point_5e_9 ≠ 0%float.
Proof.
  split_and!; [vm_compute; reflexivity.. |].
  intros H. apply (f_equal (λ c, PrimFloat.eqb c 0)) in H. vm_compute in H. discriminate H.
Qed.

(** A coordinate within [TOL = 1e-10] of 0 is within [1e-8] of 0. *)
Lemma leb_TOL_atol (c : float) :
  PrimFloat.leb (abs c) TOL = true → PrimFloat.leb (abs c) np.atol = true.
Proof.
  rewrite !FloatAxioms.leb_spec, FloatAxioms.abs_spec.
  assert (Prim2SF TOL = S754_finite false 7737125245533627 (-86)) as ->
    by (vm_compute; reflexivity).
  assert (Prim2SF np.atol = S754_finite false 6044629098073146 (-79)) as ->
    by (vm_compute; reflexivity).
  destruct (Prim2SF c) as [s | s | | s m e]; try done.
  unfold SFabs, SFleb, SFcompare.
  destruct (Z.compare e (-86)) eqn:He.
  - apply Z.compare_eq in He. subst e. reflexivity.
  - intros _. rewrite Z.compare_lt_iff in He.
    assert (Z.compare e (-79) = Lt) as -> by (apply Z.compare_lt_iff; lia).
    reflexivity.
  - discriminate.
Qed.

(** C4, amended: the snap of [build_tetmesh] sets to exactly [0.] every
    coordinate whose absolute value is at most [1e-8], the default absolute
    tolerance of [numpy.isclose], and leaves every other coordinate as it
    is; the coordinates within [TOL] of 0 are among those set to [0.]. *)
Theorem snap_zero_isclose_atol (points : list vec3) :
  snap_zero points
  = map (λ p, row3 (λ j, if PrimFloat.leb (abs (coord j p)) 1e-8
                         then 0%float else coord j p))
        points
  ∧ (∀ c, PrimFloat.leb (abs c) TOL = true → PrimFloat.leb (abs c) 1e-8 = true).
Proof.
  split; [|exact leb_TOL_atol].
  rewrite snap_zero_rows. apply map_ext. intros p. unfold row3.
  by rewrite !isclose_0.
Qed.

(** A coordinate within [TOL] of 0 and one within [1e-8] of 0 are set to
    [0.], the third is kept. *)
Lemma snap_zero_isclose_atol_witness :
  snap_zero [(1e-11, 5e-9, 1)%float] = [(0, 0, 1)%float]
  ∧ PrimFloat.leb (abs 1e-11) 1e-8 = true.
Proof.
  destruct (snap_zero_isclose_atol [(1e-11, 5e-9, 1)%float]) as [Heq Hle].
  split; [rewrite Heq; vm_compute; reflexivity|].
  apply Hle. vm_compute. reflexivity.
Defined.

(** ** The vertex merge: the returned array and the reindexed triangles *)

(** The first assumption of the merge is needed: the points of the sphere
    pieces are never compared with each other, so a sphere piece that holds
    an interior point twice gets both copies into the returned array. *)
Lemma build_point_list_keeps_piece_duplicates :
  ∃ out sps' bs',
    build_point_list (within TOL) unit_domain [piece_with_repeated_point] []
    = Ok (out, sps', bs')
    ∧ ¬ no_near_duplicates (within TOL) out.
Proof.
  eexists _, _, _. split; [vm_compute; reflexivity|].
  intros Hno. by specialize (Hno 0 1 _ _ (Nat.lt_0_1) eq_refl eq_refl).
Qed.







(** ** Facets, markers and holes *)

Lemma foldl_facet_step (mark_offset : Z) (sphere_pieces : list SpherePiece.t)
    (fs : list (list tri)) (ms : list (dtype * list Z)) :
  foldl (facet_step mark_offset) (fs, ms) sphere_pieces
  = (fs ++ map SpherePiece.tris sphere_pieces,
     ms ++ map (λ p, full_int (length (SpherePiece.tris p))
                              (id (SpherePiece.sphere p) + mark_offset)%Z)
               sphere_pieces).
Proof.
  revert fs ms. induction sphere_pieces as [|p ps IH]; intros fs ms; simpl.
  - by rewrite !app_nil_r.
  - unfold facet_step at 2. simpl. rewrite IH, <-!app_assoc. done.
Qed.

(** The type of the array of markers: that of the stack of an [int64]
    array with one array per sphere piece. *)
Lemma build_facet_arrays_six (sphere_pieces : list SpherePiece.t)
    (b0 b1 b2 b3 b4 b5 : BoundaryPLC.t) (rest : list BoundaryPLC.t) :
  let n := λ b, length (BoundaryPLC.tris b) in
  let d := foldl promote int64
             (map (λ p, dtype_of (id (SpherePiece.sphere p) + 7)) sphere_pieces) in
  build_facet_arrays sphere_pieces (b0 :: b1 :: b2 :: b3 :: b4 :: b5 :: rest)
  = Ok (concat (map BoundaryPLC.tris (b0 :: b1 :: b2 :: b3 :: b4 :: b5 :: rest))
        ++ concat (map SpherePiece.tris sphere_pieces),
        (d, map (astype d)
              ((replicate (n b0) 1 ++ replicate (n b1) 3 ++ replicate (n b2) 5
                ++ replicate (n b3) 2 ++ replicate (n b4) 4 ++ replicate (n b5) 6)
               ++ concat (map (λ p, replicate (length (SpherePiece.tris p))
                                              (id (SpherePiece.sphere p) + 7))
                              sphere_pieces))%Z)).
Proof.
  intros n d. unfold build_facet_arrays. cbn [map item subscript lookup list_lookup rbind].
  rewrite foldl_facet_step. cbn [fst snd app hstack_int rbind].
  assert (∀ k v, (full_int k v).1 = dtype_of v) as Hfst by done.
  assert (∀ k v, (full_int k v).2 = replicate k v) as Hsnd by done.
  assert (map fst (map (λ p, full_int (length (SpherePiece.tris p))
                                      (id (SpherePiece.sphere p) + 7)%Z) sphere_pieces)
          = map (λ p, dtype_of (id (SpherePiece.sphere p) + 7)) sphere_pieces) as Hd
    by (by rewrite map_map).
  assert (map snd (map (λ p, full_int (length (SpherePiece.tris p))
                                      (id (SpherePiece.sphere p) + 7)%Z) sphere_pieces)
          = map (λ p, replicate (length (SpherePiece.tris p))
                                (id (SpherePiece.sphere p) + 7)%Z) sphere_pieces) as Hv
    by (by rewrite map_map).
  cbn [map concat foldl]. rewrite !Hfst, !Hsnd, Hd, Hv.
  change (dtype_of 1) with int64. change (dtype_of 3) with int64.
  change (dtype_of 5) with int64. change (dtype_of 2) with int64.
  change (dtype_of 4) with int64. change (dtype_of 6) with int64.
  cbn [promote]. fold d. unfold np.vstack, n.
  rewrite <-!app_assoc. do 2 f_equal.
  cbn [concat]. by rewrite concat_app.
Qed.

(** The numbers of the markers, whatever the type of their array. *)
Lemma build_facet_list_six (sphere_pieces : list SpherePiece.t)
    (b0 b1 b2 b3 b4 b5 : BoundaryPLC.t) (rest : list BoundaryPLC.t) :
  ∃ markers,
    build_facet_list sphere_pieces (b0 :: b1 :: b2 :: b3 :: b4 :: b5 :: rest)
    = Ok (concat (map BoundaryPLC.tris (b0 :: b1 :: b2 :: b3 :: b4 :: b5 :: rest))
          ++ concat (map SpherePiece.tris sphere_pieces), markers)
    ∧ length markers
      = length (concat (map BoundaryPLC.tris [b0; b1; b2; b3; b4; b5]))
        + length (concat (map SpherePiece.tris sphere_pieces)).
Proof.
  unfold build_facet_list. rewrite build_facet_arrays_six. cbv zeta.
  rewrite rbind_Ok_l. cbn [fst snd]. eexists. split; [reflexivity|].
  rewrite length_map, !length_app, !length_replicate. cbn [map concat].
  rewrite !length_app. cbn [length].
  assert (length (concat (map (λ p, replicate (length (SpherePiece.tris p))
                                      (id (SpherePiece.sphere p) + 7)%Z)
                              sphere_pieces))
          = length (concat (map SpherePiece.tris sphere_pieces))) as ->.
  { induction sphere_pieces as [|p ps IH]; simpl; [done|].
    by rewrite !length_app, length_replicate, IH. }
  lia.
Qed.

Lemma dtype_of_int64 (v : Z) : (- 2 ^ 63 ≤ v < 2 ^ 63)%Z → dtype_of v = int64.
Proof.
  intros [Hlo Hhi]. unfold dtype_of.
  by rewrite (proj2 (Z.leb_le _ _) Hlo), (proj2 (Z.ltb_lt _ _) Hhi).
Qed.

Lemma markers_int64 (sphere_pieces : list SpherePiece.t) :
  Forall (λ p, (- 2 ^ 63 ≤ id (SpherePiece.sphere p) + 7 < 2 ^ 63)%Z) sphere_pieces →
  foldl promote int64
        (map (λ p, dtype_of (id (SpherePiece.sphere p) + 7)) sphere_pieces)
  = int64.
Proof.
  induction 1 as [|p ps Hp _ IH]; [done|].
  cbn [map foldl]. by rewrite (dtype_of_int64 _ Hp).
Qed.

Lemma map_astype_int64 (l : list Z) : map (astype int64) l = l.
Proof. induction l as [|v l IH]; [done|]. cbn [map astype]. by rewrite IH. Qed.

(** C5, as stated, fails: with the non-negative sphere id [2^63 - 6] the
    marker [sphere.id + 7] does not fit [int64]; its array is of type
    [uint64], the stack with the [int64] arrays of the boundaries is of type
    [float64], and the marker of the piece is [2^63], not [sphere.id + 7]. *)
Lemma build_facet_list_marker_rounded :
  (0 ≤ id (SpherePiece.sphere piece_with_huge_id))%Z
  ∧ ∃ facets markers,
      build_facet_arrays [piece_with_huge_id] six_patches
      = Ok (facets, (float64, markers))
      ∧ build_facet_list [piece_with_huge_id] six_patches = Ok (facets, markers)
      ∧ markers = [1; 5; 2; 6; 6; 2 ^ 63]%Z
      ∧ (id (SpherePiece.sphere piece_with_huge_id) + 7)%Z ∉ markers.
Proof.
  split; [done|]. eexists _, _. split_and!.
  - vm_compute. reflexivity.
  - vm_compute. reflexivity.
  - vm_compute. reflexivity.
  - change (id (SpherePiece.sphere piece_with_huge_id) + 7)%Z
      with 9223372036854775809%Z.
    rewrite !not_elem_of_cons. split_and!; try discriminate. apply not_elem_of_nil.
Qed.

(** C5, amended: on six boundary patches and sphere pieces whose ids are
    non-negative with [sphere.id + 7] below [2^63], the array of markers is
    of type [int64] and holds the codes 1, 3, 5, 2, 4, 6 for the triangles
    of the patches in list order, followed by [sphere.id + 7] for the
    triangles of each sphere piece, and the facets are the triangles in the
    same order; every sphere marker is at least 7 and so none is a boundary
    code. *)
Theorem build_facet_list_markers (sphere_pieces : list SpherePiece.t)
    (b0 b1 b2 b3 b4 b5 : BoundaryPLC.t) :
  Forall (λ p, (0 ≤ id (SpherePiece.sphere p) ∧ id (SpherePiece.sphere p) + 7 < 2 ^ 63)%Z)
         sphere_pieces →
  let n := λ b, length (BoundaryPLC.tris b) in
  let boundary_markers :=
    (replicate (n b0) 1 ++ replicate (n b1) 3 ++ replicate (n b2) 5
     ++ replicate (n b3) 2 ++ replicate (n b4) 4 ++ replicate (n b5) 6)%Z in
  let sphere_markers :=
    concat (map (λ p, replicate (length (SpherePiece.tris p))
                                (id (SpherePiece.sphere p) + 7)%Z) sphere_pieces) in
  let facets :=
    BoundaryPLC.tris b0 ++ BoundaryPLC.tris b1 ++ BoundaryPLC.tris b2
    ++ BoundaryPLC.tris b3 ++ BoundaryPLC.tris b4 ++ BoundaryPLC.tris b5
    ++ concat (map SpherePiece.tris sphere_pieces) in
  build_facet_arrays sphere_pieces [b0; b1; b2; b3; b4; b5]
  = Ok (facets, (int64, boundary_markers ++ sphere_markers))
  ∧ build_facet_list sphere_pieces [b0; b1; b2; b3; b4; b5]
    = Ok (facets, boundary_markers ++ sphere_markers)
  ∧ Forall (λ m, m ∈ boundary_codes) boundary_markers
  ∧ Forall (λ m, (7 ≤ m)%Z ∧ m ∉ boundary_codes) sphere_markers.
Proof.
  intros Hid n boundary_markers sphere_markers facets.
  assert (build_facet_arrays sphere_pieces [b0; b1; b2; b3; b4; b5]
          = Ok (facets, (int64, boundary_markers ++ sphere_markers))) as Harr.
  { rewrite build_facet_arrays_six. cbv zeta. rewrite markers_int64.
    - rewrite map_astype_int64. unfold facets, boundary_markers, sphere_markers, n.
      cbn [map concat]. by rewrite app_nil_r, <-!app_assoc.
    - eapply Forall_impl; [exact Hid|]. intros p [Hlo Hhi]. cbv beta.
      change (2 ^ 63)%Z with 9223372036854775808%Z in *. lia. }
  split_and!.
  - exact Harr.
  - unfold build_facet_list. by rewrite Harr.
  - unfold boundary_markers, boundary_codes. rewrite !Forall_app.
    split_and!; apply Forall_forall; intros m [-> _]%elem_of_replicate; set_solver.
  - unfold sphere_markers. apply Forall_concat, Forall_map.
    eapply Forall_impl; [exact Hid|]. intros p [Hp _]. simpl in *.
    apply Forall_forall. intros m [-> _]%elem_of_replicate.
    split; [lia|]. unfold boundary_codes. rewrite !elem_of_cons, elem_of_nil. lia.
Qed.

(** Six patches and two sphere pieces, with the ids 3 and 0. *)
Lemma build_facet_list_markers_witness :
  build_facet_list [hole_piece; solid_piece] six_patches
  = Ok ([(0, 1, 2); (1, 2, 3); (4, 5, 6); (2, 3, 4); (5, 6, 7);
         (0, 1, 2); (3, 4, 5); (4, 5, 6)],
        [1; 5; 2; 6; 6; 10; 7; 7]%Z).
Proof.
  refine (proj1 (proj2 (build_facet_list_markers [hole_piece; solid_piece]
                          _ _ _ _ _ _ _))).
  repeat constructor; simpl; lia.
Defined.

(** Fewer than six boundaries: the subscripts of [all_facets] raise. *)
Lemma build_facet_list_IndexError (sphere_pieces : list SpherePiece.t)
    (b0 b1 b2 : BoundaryPLC.t) :
  build_facet_list sphere_pieces [b0; b1; b2] = Raise IndexError.
Proof. reflexivity. Qed.

Lemma omap_is_hole (sphere_pieces : list SpherePiece.t) :
  omap (λ p, if SpherePiece.is_hole p then Some (x (SpherePiece.sphere p)) else None)
       sphere_pieces
  = map (λ p, x (SpherePiece.sphere p)) (List.filter SpherePiece.is_hole sphere_pieces).
Proof.
  induction sphere_pieces as [|p ps IH]; simpl; [done|].
  fold (omap (λ p, if SpherePiece.is_hole p then Some (x (SpherePiece.sphere p)) else None)
             ps).
  destruct (SpherePiece.is_hole p); simpl; by rewrite IH.
Qed.

Lemma concat_singletons {A : Type} (l : list A) : concat (map (λ a, [a]) l) = l.
Proof. induction l as [|a l IH]; simpl; [done|]. by rewrite IH. Qed.

(** C6: the hole list is the list of the sphere centres of the pieces with
    [is_hole = true], one entry per such piece, in input order; it is the
    empty array exactly when no piece is a hole. The result is an array in
    every case. *)
Theorem build_hole_list_centers (sphere_pieces : list SpherePiece.t) :
  build_hole_list sphere_pieces
  = map (λ p, x (SpherePiece.sphere p)) (List.filter SpherePiece.is_hole sphere_pieces)
  ∧ length (build_hole_list sphere_pieces)
    = length (List.filter SpherePiece.is_hole sphere_pieces)
  ∧ (build_hole_list sphere_pieces = []
     ↔ Forall (λ p, SpherePiece.is_hole p = false) sphere_pieces).
Proof.
  assert (build_hole_list sphere_pieces
          = map (λ p, x (SpherePiece.sphere p))
                (List.filter SpherePiece.is_hole sphere_pieces)) as Heq.
  { unfold build_hole_list. rewrite omap_is_hole. unfold np.vstack.
    rewrite concat_singletons. case_decide as Hlen; [done|].
    by destruct (map _ _). }
  split_and!; [done | by rewrite Heq, length_map |].
  rewrite Heq. clear Heq. induction sphere_pieces as [|p ps IH]; simpl.
  - split; [constructor | done].
  - destruct (SpherePiece.is_hole p) eqn:Hp; simpl.
    + split; [done|]. intros [? _]%Forall_cons. congruence.
    + rewrite IH. split; [by constructor | by intros [_ ?]%Forall_cons].
Qed.

(** The scenario of the specification: two pieces, one of them a hole. *)
Example build_hole_list_scenario :
  build_hole_list [hole_piece; solid_piece] = [(0.5, 0.5, 0.5)%float].
Proof. reflexivity. Qed.

(** ** The cell faces of [write_multiflow] *)

Lemma append_to_lookup_ne (cell_faces : gmap Z (list nat)) (key k : Z) (idx : nat) :
  key ≠ k → append_to cell_faces key idx !! k = cell_faces !! k.
Proof. intros Hne. unfold append_to. by rewrite lookup_insert_ne. Qed.

Lemma collect_cell_faces_absent (adjacent_elements : list (Z * Z)) (k : Z) :
  Forall (λ adj, adj.1 ≠ k ∧ adj.2 ≠ k) adjacent_elements →
  collect_cell_faces adjacent_elements !! k = None.
Proof.
  unfold collect_cell_faces. generalize 0 as i0.
  assert (∀ (l : list (nat * (Z * Z))) (d : gmap Z (list nat)),
    d !! k = None → Forall (λ ia, ia.2.1 ≠ k ∧ ia.2.2 ≠ k) l →
    foldl (λ cell_faces ia,
             append_to (append_to cell_faces ia.2.1 ia.1) ia.2.2 ia.1) d l !! k
    = None) as Hfold.
  { induction l as [|ia l IH]; intros d Hd Hl; simpl; [done|].
    apply Forall_cons in Hl as [[H1 H2] Hl]. apply IH; [|done].
    by rewrite !append_to_lookup_ne. }
  intros i0 Hadj. apply Hfold; [apply lookup_empty|].
  apply Forall_forall. intros [i adj] Hin%elem_of_zip_r. simpl.
  by apply (proj1 (Forall_forall _ _) Hadj).
Qed.

(** Without a pair of adjacent elements that holds [-1] the key [-1] is
    not in [cell_faces], and [cell_faces.pop(-1)] raises. *)
Lemma write_multiflow_pop_KeyError (mesh : MeshInfo.t) :
  MeshInfo.elements mesh ≠ [] →
  Forall (λ adj, adj.1 ≠ (-1)%Z ∧ adj.2 ≠ (-1)%Z) (MeshInfo.adjacent_elements mesh) →
  write_multiflow mesh = Raise KeyError.
Proof.
  intros Hel Hadj. unfold write_multiflow. rewrite decide_False by done. simpl.
  unfold pop. by rewrite collect_cell_faces_absent.
Qed.

(** The mesh of the example has two elements and no exterior face. *)
Lemma write_multiflow_pop_KeyError_witness :
  write_multiflow mesh_without_exterior_face = Raise KeyError.
Proof.
  apply write_multiflow_pop_KeyError; [done|]. repeat constructor; done.
Defined.

(** C10: a mesh of two tetrahedra whose only face is the one they share;
    no pair of adjacent elements holds [-1], and the write stops with
    [KeyError] at [cell_faces.pop(-1)], after the node, cell and face
    datasets. *)
Theorem write_multiflow_no_exterior_KeyError :
  Forall (λ adj, adj.1 ≠ (-1)%Z ∧ adj.2 ≠ (-1)%Z)
         (MeshInfo.adjacent_elements mesh_without_exterior_face)
  ∧ write_multiflow mesh_without_exterior_face = Raise KeyError.
Proof. split; [repeat constructor; done | vm_compute; reflexivity]. Qed.

(** With an exterior face the same function writes its datasets. *)
Example write_multiflow_one_tet :
  ∃ datasets, write_multiflow mesh_one_tet = Ok datasets
              ∧ datasets !! 5 = Some ("cellFaces", Ints [0; 1; 2; 3]%Z).
Proof. eexists. split; [vm_compute; reflexivity | reflexivity]. Qed.

(** ** The statistics of the log *)

Lemma string_app_assoc (a b c : string) : (a +:+ b) +:+ c = a +:+ b +:+ c.
Proof.
  induction a as [|ch a IH]; [done|].
  change (String ch ((a +:+ b) +:+ c) = String ch (a +:+ b +:+ c)). by rewrite IH.
Qed.

Lemma readline_full_line (l rest : string) :
  is_full_line l = true → readline (l +:+ rest) = (l, rest).
Proof.
  induction l as [|c l IH]; simpl; [done|].
  destruct (Ascii.eqb c LF) eqn:Hc.
  - destruct l; [done | discriminate].
  - intros Hl. by rewrite IH.
Qed.

Lemma extract_stats_eof (fuel : nat) : extract_stats fuel "" = None.
Proof. induction fuel as [|fuel IH]; simpl; [done|]. exact IH. Qed.

(** A log none of whose lines holds ['Statistics:']: the loop reads [b'']
    at the end of the file again and again, and is not left. *)
Lemma extract_stats_loops (lines : list string) (fuel : nat) :
  Forall (λ l, is_full_line l = true ∧ is_ascii l = true
               ∧ contains "Statistics:" l = false) lines →
  extract_stats fuel (join_lines lines) = None.
Proof.
  revert fuel. induction lines as [|l ls IH]; intros fuel Hls; simpl.
  - apply extract_stats_eof.
  - apply Forall_cons in Hls as [(Hfull & Hascii & Hno) Hls].
    destruct fuel as [|fuel]; simpl; [done|].
    rewrite readline_full_line by done. simpl.
    unfold decode_ascii. rewrite Hascii, Hno. by apply IH.
Qed.

(** A log of two lines, neither with ['Statistics:']. *)
Lemma extract_stats_loops_witness :
  extract_stats 1000 (join_lines ["Delaunizing vertices..." +:+ nl; "Done" +:+ nl])
  = None.
Proof.
  apply (extract_stats_loops ["Delaunizing vertices..." +:+ nl; "Done" +:+ nl] 1000).
  repeat constructor; vm_compute; reflexivity.
Defined.

Lemma extract_stats_found (before : list string) (header rest : string) (fuel : nat) :
  Forall (λ l, is_full_line l = true ∧ is_ascii l = true
               ∧ contains "Statistics:" l = false) before →
  is_full_line header = true → is_ascii header = true →
  contains "Statistics:" header = true →
  length before < fuel →
  extract_stats fuel (join_lines before +:+ header +:+ rest)
  = Some (stats_summary rest).
Proof.
  intros Hbefore Hfull Hascii Hin. revert fuel.
  induction Hbefore as [|l ls (Hlfull & Hlascii & Hlno) _ IH]; intros fuel Hfuel;
    (destruct fuel as [|fuel]; [simpl in Hfuel; lia|]);
    unfold extract_stats; fold extract_stats.
  - change (join_lines [] +:+ header +:+ rest) with (header +:+ rest).
    rewrite readline_full_line by done. simpl.
    unfold decode_ascii. by rewrite Hascii, Hin.
  - change (join_lines (l :: ls)) with (l +:+ join_lines ls).
    rewrite string_app_assoc, readline_full_line by done. simpl.
    unfold decode_ascii. rewrite Hlascii, Hlno. apply IH. simpl in Hfuel. lia.
Qed.

Lemma read_lines_full (ls : list string) (rest : string) :
  Forall (λ l, is_full_line l = true) ls →
  read_lines (length ls) (join_lines ls +:+ rest)
  = if forallb is_ascii ls then Ok ls else Raise UnicodeDecodeError.
Proof.
  induction 1 as [|l ls Hl _ IH]; [done|].
  cbn [length read_lines forallb].
  change (join_lines (l :: ls)) with (l +:+ join_lines ls).
  rewrite string_app_assoc, readline_full_line by done. cbv zeta. cbn [fst snd].
  unfold decode_ascii. destruct (is_ascii l); [|done].
  rewrite rbind_Ok_l, IH. cbn [andb]. by destruct (forallb is_ascii ls).
Qed.

Lemma comprehension_all_Ok {A B : Type} (F : A → result B) (l : list A) (bs : list B) :
  map F l = map Ok bs → comprehension F l = Ok bs.
Proof.
  revert bs. induction l as [|a l IH]; intros [|b bs] Heq; simplify_eq/=; [done|].
  by rewrite H, (IH bs).
Qed.

Lemma comprehension_first_Raise {A B : Type} (F : A → result B) (read unread : list A)
    (a : A) (e : exn) :
  Forall (λ a', ∃ b, F a' = Ok b) read → F a = Raise e →
  comprehension F (read ++ a :: unread) = Raise e.
Proof.
  intros Hread Ha. induction Hread as [|a' read [b Hb] _ IH]; simpl.
  - by rewrite Ha.
  - by rewrite Hb, IH.
Qed.

Lemma last_count_Raise (sl : string) (e : exn) :
  last_count sl = Raise e →
  (e = IndexError ∧ split sl = []) ∨ (e = ValueError ∧ split sl ≠ []).
Proof.
  unfold last_count, last_item. destruct (split sl) as [|tok toks] eqn:Hs.
  - intros [= <-]. by left.
  - destruct (List.last (map Some (tok :: toks)) None) as [t|] eqn:Hlast.
    + simpl. unfold py_int.
      destruct (match t with EmptyString => _ | _ => _ end);
        [done | intros [= <-]; by right].
    + exfalso. revert Hlast. generalize tok. clear.
      induction toks as [|t' toks IH]; intros t; [done|]. apply (IH t').
Qed.

Lemma stats_summary_counts (f : string) :
  stats_summary f
  = do stats <- read_lines 11 f;
    do counts <- comprehension last_count (drop 7 stats);
    match counts with
    | [npoints; ntets; nfaces; nedges] =>
        Ok ("Built mesh with " +:+ fmt_d npoints +:+ " points, " +:+ fmt_d ntets
            +:+ " tetrahedra, " +:+ fmt_d nfaces +:+ " faces, and " +:+ fmt_d nedges
            +:+ " edges")
    | _ => Raise ValueError
    end.
Proof. reflexivity. Qed.

(** C8, as stated, fails: on a log that ends after the line ['Statistics:']
    the four counts are read from empty lines, [sl.split()[-1]] raises
    [IndexError], and the exception leaves the context manager: the build
    does not return its mesh. *)
Lemma redirect_tetgen_output_escalates :
  extract_stats 1 truncated_log = Some (Raise IndexError)
  ∧ redirect_tetgen_output 1 (Ok (mesh_one_tet, truncated_log))
    = Some (Raise IndexError).
Proof. split; vm_compute; reflexivity. Qed.

(** C8, amended: when the log holds a line with ['Statistics:'] (it and the
    lines before it being ASCII text) and eleven lines after it, the loop of
    [extract_stats] ends at that line and the build ends in one of three
    ways. A byte that is not ASCII in one of the eleven lines raises
    [UnicodeDecodeError]. Otherwise, when the last token of each of the
    eighth to eleventh line is an integer, the mesh is returned and the
    summary with the four integers is logged. Otherwise the first of these
    four lines that fails raises [IndexError] when it holds no token and
    [ValueError] when its last token is no integer. The context manager does
    not catch the exception. *)
Theorem extract_stats_section_present (before stats : list string)
    (header rest : string) (fuel : nat) :
  Forall (λ l, is_full_line l = true ∧ is_ascii l = true
               ∧ contains "Statistics:" l = false) before →
  is_full_line header = true → is_ascii header = true →
  contains "Statistics:" header = true →
  length before < fuel →
  length stats = 11 → Forall (λ l, is_full_line l = true) stats →
  let log := join_lines before +:+ header +:+ join_lines stats +:+ rest in
  let raises (e : exn) :=
    extract_stats fuel log = Some (Raise e)
    ∧ ∀ (A : Type) (mesh : A),
        redirect_tetgen_output fuel (Ok (mesh, log)) = Some (Raise e) in
  let logs (line : string) :=
    extract_stats fuel log = Some (Ok line)
    ∧ ∀ (A : Type) (mesh : A),
        redirect_tetgen_output fuel (Ok (mesh, log)) = Some (Ok (mesh, line)) in
  (forallb is_ascii stats = false → raises UnicodeDecodeError)
  ∧ (forallb is_ascii stats = true →
     (∀ npoints ntets nfaces nedges,
        map last_count (drop 7 stats) = [Ok npoints; Ok ntets; Ok nfaces; Ok nedges] →
        logs ("Built mesh with " +:+ fmt_d npoints +:+ " points, " +:+ fmt_d ntets
              +:+ " tetrahedra, " +:+ fmt_d nfaces +:+ " faces, and "
              +:+ fmt_d nedges +:+ " edges"))
     ∧ (∀ read sl unread e,
          drop 7 stats = read ++ sl :: unread →
          Forall (λ sl', ∃ n, last_count sl' = Ok n) read →
          last_count sl = Raise e →
          raises e
          ∧ ((e = IndexError ∧ split sl = []) ∨ (e = ValueError ∧ split sl ≠ [])))).
Proof.
  intros Hbefore Hfull Hascii Hin Hfuel Hlen Hstats log raises logs.
  pose proof (extract_stats_found before header (join_lines stats +:+ rest) fuel
                Hbefore Hfull Hascii Hin Hfuel) as Hrun.
  fold log in Hrun.
  assert (∀ r, stats_summary (join_lines stats +:+ rest) = r →
            extract_stats fuel log = Some r
            ∧ ∀ (A : Type) (mesh : A),
                redirect_tetgen_output fuel (Ok (mesh, log))
                = Some (do line <- r; Ok (mesh, line))) as Hout.
  { intros r <-. split; [done|]. intros A mesh. unfold redirect_tetgen_output.
    by rewrite Hrun. }
  pose proof (read_lines_full stats rest Hstats) as Hread. rewrite Hlen in Hread.
  split; [|intros Hall; split].
  - intros Hbad. apply (Hout (Raise UnicodeDecodeError)).
    by rewrite stats_summary_counts, Hread, Hbad.
  - intros npoints ntets nfaces nedges Hcounts.
    apply (Hout (Ok _)). rewrite stats_summary_counts, Hread, Hall, rbind_Ok_l.
    by rewrite (comprehension_all_Ok _ _ [npoints; ntets; nfaces; nedges] Hcounts).
  - intros read sl unread e Hdrop Hok Hsl. split.
    + apply (Hout (Raise e)).
      rewrite stats_summary_counts, Hread, Hall, rbind_Ok_l, Hdrop.
      by rewrite (comprehension_first_Raise _ read unread sl e Hok Hsl).
    + by apply last_count_Raise.
Qed.

(** The end of a log of TetGen. *)
Lemma extract_stats_section_present_witness :
  extract_stats 2 (join_lines log_before +:+ log_header +:+ join_lines log_stats)
  = Some (Ok "Built mesh with 10 points, 24 tetrahedra, 60 faces, and 45 edges")
  ∧ redirect_tetgen_output 2
      (Ok (mesh_one_tet,
           join_lines log_before +:+ log_header +:+ join_lines log_stats))
    = Some (Ok (mesh_one_tet,
                "Built mesh with 10 points, 24 tetrahedra, 60 faces, and 45 edges")).
Proof.
  assert (Forall (λ l, is_full_line l = true ∧ is_ascii l = true
                       ∧ contains "Statistics:" l = false) log_before) as Hbefore
    by (repeat constructor; vm_compute; reflexivity).
  assert (Forall (λ l, is_full_line l = true) log_stats) as Hstats
    by (repeat constructor; vm_compute; reflexivity).
  destruct (extract_stats_section_present log_before log_stats log_header "" 2
              Hbefore eq_refl eq_refl eq_refl (le_n 2) eq_refl Hstats)
    as [_ Hascii].
  destruct (Hascii eq_refl) as [Hlogs _].
  destruct (Hlogs 10%Z 24%Z 60%Z 45%Z eq_refl) as [Hrun Hbuild].
  split; [exact Hrun | exact (Hbuild _ mesh_one_tet)].
Defined.

(** ** The Gmsh file *)

Lemma comprehension_enumerate_map {A B C : Type} (h : A → B) (F : nat * B → result C)
    (g : nat → A → C) (l : list A) :
  (∀ i a, F (i, h a) = Ok (g i a)) →
  comprehension F (enumerate (map h l)) = Ok (imap g l).
Proof.
  intros HF. unfold enumerate. rewrite length_map.
  assert (∀ k, comprehension F (zip (seq k (length l)) (map h l))
               = Ok (imap (λ i, g (k + i)) l)) as Hgen.
  { induction l as [|a l IH]; intros k; simpl; [done|].
    rewrite HF, IH. simpl. rewrite Nat.add_0_r. do 2 f_equal.
    apply imap_ext. intros i b _. simpl. f_equal. lia. }
  by rewrite Hgen.
Qed.

Lemma zip_map_map {A B A' B' : Type} (f : A → A') (g : B → B') (l : list A)
    (k : list B) :
  zip (map f l) (map g k) = map (λ ab, (f ab.1, g ab.2)) (zip l k).
Proof.
  revert k. induction l as [|a l IH]; intros [|b k]; simpl; [done..|].
  by rewrite IH.
Qed.

Lemma format_node_line (i : nat) (p : vec3) :
  format (py "%d %+1.15e %+1.15e %+1.15e\n")
         [IntArg (Z.of_nat i + 1); FloatArg p.1.1; FloatArg p.1.2; FloatArg p.2]
  = Ok (node_line i p).
Proof. reflexivity. Qed.

Lemma format_element_line (i : nat) (fm : (Z * Z * Z) * Z) :
  let fac := map3 (λ v, int32 (v + 1)) (map3 int32 fm.1) in
  let m := int32 fm.2 in
  format (py "%d 2 2 %d 0 %d %d %d\n")
         [IntArg (Z.of_nat i + 1); IntArg (if (0 <? m)%Z then m else (-1)%Z);
          IntArg fac.1.1; IntArg fac.1.2; IntArg fac.2]
  = Ok (element_line i fm).
Proof. reflexivity. Qed.

Lemma write_msh_text (mesh : MeshInfo.t) : write_msh mesh = Ok (msh_text mesh).
Proof.
  unfold write_msh.
  assert (∀ n, format (py "$Nodes\n%d\n") [IntArg n]
               = Ok ("$Nodes" +:+ nl +:+ fmt_d n +:+ nl)) as -> by reflexivity.
  rewrite rbind_Ok_l.
  pose proof (comprehension_enumerate_map (λ p : vec3, p)
    (λ ip : nat * vec3,
       format (py "%d %+1.15e %+1.15e %+1.15e\n")
              [IntArg (Z.of_nat ip.1 + 1); FloatArg ip.2.1.1;
               FloatArg ip.2.1.2; FloatArg ip.2.2])
    node_line (MeshInfo.points mesh) format_node_line) as Hnodes.
  rewrite map_id in Hnodes. rewrite Hnodes, rbind_Ok_l.
  assert (∀ n, format (py "$Elements\n%d\n") [IntArg n]
               = Ok ("$Elements" +:+ nl +:+ fmt_d n +:+ nl)) as -> by reflexivity.
  rewrite rbind_Ok_l.
  rewrite map_map, zip_map_map, !length_map.
  rewrite (comprehension_enumerate_map
             (λ ab : (Z * Z * Z) * Z,
                (map3 (λ v, int32 (v + 1)) (map3 int32 ab.1), int32 ab.2))
             _ element_line) by (intros i fm; apply format_element_line).
  rewrite rbind_Ok_l. unfold msh_text. f_equal.
  rewrite !string_app_assoc. reflexivity.
Qed.

(** *** The digits of a coordinate *)

Lemma digit_char_is_digit (d : Z) :
  (0 ≤ d < 10)%Z →
  is_digit (digit_char d) = true ∧ Ascii.eqb (digit_char d) "e" = false.
Proof.
  intros Hd.
  assert (d = 0 ∨ d = 1 ∨ d = 2 ∨ d = 3 ∨ d = 4 ∨ d = 5 ∨ d = 6 ∨ d = 7
          ∨ d = 8 ∨ d = 9)%Z as Hcases by lia.
  repeat (destruct Hcases as [-> | Hcases]; [by vm_compute|]). subst. by vm_compute.
Qed.

Lemma mod_10_digit (d : Z) : (0 ≤ d mod 10 < 10)%Z.
Proof. apply Z.mod_pos_bound. lia. Qed.

Lemma fixed_digits_S (n : nat) (d : Z) (acc : string) :
  fixed_digits (S n) d acc
  = fixed_digits n (d / 10)%Z (String (digit_char (d mod 10)) acc).
Proof. reflexivity. Qed.

Lemma mantissa_digits_String (c : ascii) (r : string) :
  mantissa_digits (String c r)
  = if Ascii.eqb c "e" then 0
    else if is_digit c then S (mantissa_digits r) else mantissa_digits r.
Proof. reflexivity. Qed.

Lemma string_app_String (c : ascii) (a b : string) :
  String c a +:+ b = String c (a +:+ b).
Proof. reflexivity. Qed.

Lemma fixed_digits_app (n : nat) (d : Z) (acc rest : string) :
  fixed_digits n d acc +:+ rest = fixed_digits n d (acc +:+ rest).
Proof.
  revert d acc. induction n as [|n IH]; intros d acc; [done|].
  by rewrite !fixed_digits_S, IH, string_app_String.
Qed.

Lemma string_length_app_1 (ds : string) (c : ascii) :
  String.length (ds +:+ String c "") = S (String.length ds).
Proof.
  induction ds as [|c' ds IH]; [done|].
  rewrite string_app_String. cbn [String.length]. by rewrite IH.
Qed.

Lemma fixed_digits_prefix (n : nat) (d : Z) (acc : string) :
  ∃ ds, fixed_digits n d acc = ds +:+ acc ∧ String.length ds = n.
Proof.
  revert d acc. induction n as [|n IH]; intros d acc.
  - by exists "".
  - rewrite fixed_digits_S.
    destruct (IH (d / 10)%Z (String (digit_char (d mod 10)) acc)) as (ds & -> & Hlen).
    exists (ds +:+ String (digit_char (d mod 10)) ""). split.
    + by rewrite string_app_assoc.
    + by rewrite string_length_app_1, Hlen.
Qed.

Lemma mantissa_digits_fixed (n : nat) (d : Z) (acc : string) :
  mantissa_digits (fixed_digits n d acc) = n + mantissa_digits acc.
Proof.
  revert d acc. induction n as [|n IH]; intros d acc; [done|].
  rewrite fixed_digits_S, IH, mantissa_digits_String.
  destruct (digit_char_is_digit (d mod 10) (mod_10_digit d)) as [-> ->]. lia.
Qed.

Lemma mantissa_shape (D : Z) (ex : string) :
  mantissa_digits (mantissa D +:+ "e" +:+ ex) = 16
  ∧ ∃ d frac, mantissa D +:+ "e" +:+ ex = String d (String "." (frac +:+ String "e" ex))
              ∧ is_digit d = true ∧ String.length frac = 15.
Proof.
  unfold mantissa. rewrite !string_app_String.
  change ("e" +:+ ex) with (String "e" ex).
  destruct (digit_char_is_digit _ (mod_10_digit (D / 10 ^ 15))) as [Hd He].
  split.
  - rewrite fixed_digits_app, mantissa_digits_String, Hd, He.
    rewrite mantissa_digits_String.
    change (Ascii.eqb "." "e") with false. change (is_digit ".") with false.
    cbv iota. rewrite mantissa_digits_fixed. reflexivity.
  - destruct (fixed_digits_prefix 15 (D mod 10 ^ 15) "") as (frac & Hfrac & Hlen).
    exists (digit_char (D / 10 ^ 15 mod 10)), frac. split_and!; [|done..].
    rewrite Hfrac. do 2 f_equal. by rewrite string_app_assoc.
Qed.

(** A coordinate that is a number is written with sixteen digits: one
    before the point and fifteen after it. *)
Lemma fmt_e15_digits (x : float) :
  finite_float x = true →
  mantissa_digits (fmt_e15 x) = 16
  ∧ ∃ sg d frac ex,
      fmt_e15 x = String sg (String d (String "." (frac +:+ String "e" ex)))
      ∧ is_digit d = true ∧ String.length frac = 15.
Proof.
  unfold finite_float, fmt_e15.
  destruct (Prim2SF x) as [s| s | |s m e]; try done; intros _.
  - destruct (mantissa_shape 0 (exponent 0)) as (Hn & d & frac & Heq & Hd & Hlen).
    split.
    + rewrite mantissa_digits_String. by destruct s.
    + exists (sign_char s), d, frac, (exponent 0). by rewrite Heq.
  - destruct (mantissa_shape (decimal16 m e).1 (exponent (decimal16 m e).2))
      as (Hn & d & frac & Heq & Hd & Hlen).
    split.
    + rewrite mantissa_digits_String. by destruct s.
    + exists (sign_char s), d, frac, (exponent (decimal16 m e).2). by rewrite Heq.
Qed.

Lemma int32_small (z : Z) : (- 2 ^ 31 ≤ z < 2 ^ 31)%Z → int32 z = z.
Proof.
  unfold int32. change (2 ^ 31)%Z with 2147483648%Z.
  change (2 ^ 32)%Z with 4294967296%Z. intros Hz. rewrite Z.mod_small; lia.
Qed.

Lemma node_id_succ (v : Z) : (0 ≤ v < 2 ^ 31 - 1)%Z → node_id v = (v + 1)%Z.
Proof.
  change (2 ^ 31)%Z with 2147483648%Z. intros Hv. unfold node_id.
  rewrite (int32_small v) by (change (2 ^ 31)%Z with 2147483648%Z; lia).
  rewrite (int32_small (v + 1)) by (change (2 ^ 31)%Z with 2147483648%Z; lia).
  done.
Qed.

Lemma written_marker_cases (m : Z) :
  (- 2 ^ 31 ≤ m < 2 ^ 31)%Z →
  written_marker m = if decide (0 < m)%Z then m else (-1)%Z.
Proof.
  intros Hm. unfold written_marker. rewrite int32_small by done.
  case_decide as Hpos.
  - by rewrite (proj2 (Z.ltb_lt _ _) Hpos).
  - rewrite (proj2 (Z.ltb_ge _ _)); [done | lia].
Qed.

(** C7, as stated, fails: in the line of a triangle the marker is the first
    of the two tags and the second tag is always 0, and a coordinate is
    written with sixteen digits (one before the point, fifteen after it),
    not fifteen. *)
Lemma write_msh_marker_is_first_tag :
  ∃ text line,
    write_msh mesh_one_tet = Ok text
    ∧ MeshInfo.face_markers mesh_one_tet !! 2 = Some 5%Z
    ∧ lines text !! 14 = Some line
    ∧ gmsh_tags line = [fmt_d 5; "0"]
    ∧ gmsh_tags line !! 1 ≠ Some (fmt_d 5)
    ∧ lines text !! 6
      = Some "2 +1.000000000000000e+00 +0.000000000000000e+00 +0.000000000000000e+00"
    ∧ mantissa_digits (fmt_e15 1) = 16
    ∧ mantissa_digits (fmt_e15 1) ≠ 15.
Proof.
  eexists _, _. split_and!.
  - vm_compute. reflexivity.
  - reflexivity.
  - vm_compute. reflexivity.
  - vm_compute. reflexivity.
  - vm_compute. discriminate.
  - vm_compute. reflexivity.
  - vm_compute. reflexivity.
  - vm_compute. discriminate.
Qed.

(** C7, amended: [write_msh] writes the header [$MeshFormat], [2.2 0 8],
    [$EndMeshFormat]; each node as its 1-based number and its three
    coordinates, a coordinate that is a number having one digit before the
    point and fifteen after it; and each triangle as its 1-based number, the
    element type 2, the number of tags 2, the two tags, of which the first
    is the marker, written as -1 when it is [<= 0], and the second is 0, and
    its three 1-based node numbers. *)
Theorem write_msh_layout (mesh : MeshInfo.t) :
  write_msh mesh = Ok (msh_text mesh)
  ∧ (∀ x, finite_float x = true →
          mantissa_digits (fmt_e15 x) = 16
          ∧ ∃ sg d frac ex,
              fmt_e15 x = String sg (String d (String "." (frac +:+ String "e" ex)))
              ∧ is_digit d = true ∧ String.length frac = 15)
  ∧ (∀ v, (0 ≤ v < 2 ^ 31 - 1)%Z → node_id v = (v + 1)%Z)
  ∧ (∀ m, (- 2 ^ 31 ≤ m < 2 ^ 31)%Z →
          written_marker m = if decide (0 < m)%Z then m else (-1)%Z).
Proof.
  split_and!.
  - apply write_msh_text.
  - apply fmt_e15_digits.
  - apply node_id_succ.
  - apply written_marker_cases.
Qed.

(** The file written for one tetrahedron. *)
Lemma write_msh_layout_witness :
  write_msh mesh_one_tet = Ok (msh_text mesh_one_tet)
  ∧ lines (msh_text mesh_one_tet)
    = ["$MeshFormat"; "2.2 0 8"; "$EndMeshFormat"; "$Nodes"; "4";
       "1 +0.000000000000000e+00 +0.000000000000000e+00 +0.000000000000000e+00";
       "2 +1.000000000000000e+00 +0.000000000000000e+00 +0.000000000000000e+00";
       "3 +0.000000000000000e+00 +1.000000000000000e+00 +0.000000000000000e+00";
       "4 +0.000000000000000e+00 +0.000000000000000e+00 +1.000000000000000e+00";
       "$EndNodes"; "$Elements"; "4"; "1 2 2 1 0 1 2 3"; "2 2 2 3 0 1 2 4";
       "3 2 2 5 0 1 3 4"; "4 2 2 7 0 2 3 4"; "$EndElements"]
  ∧ mantissa_digits (fmt_e15 0.1) = 16
  ∧ node_id 3 = 4%Z
  ∧ written_marker 0 = (-1)%Z.
Proof.
  destruct (write_msh_layout mesh_one_tet) as (Htext & Hdigits & Hid & Hmarker).
  split_and!.
  - exact Htext.
  - vm_compute. reflexivity.
  - exact (proj1 (Hdigits 0.1%float eq_refl)).
  - apply Hid. vm_compute. split; [discriminate | reflexivity].
  - rewrite Hmarker; [reflexivity|]. vm_compute. split; [discriminate | reflexivity].
Defined.

(** ** The input of TetGen *)

(** The points handed to TetGen are the merged points after the snap. *)
Lemma build_tetmesh_input_points (within_TOL : vec3 → vec3 → bool) (domain : Domain)
    (sphere_pieces : list SpherePiece.t) (boundaries : list BoundaryPLC.t)
    (points : list vec3) (facets_markers : list tri * list Z) (holes : list vec3) :
  build_tetmesh_input within_TOL domain sphere_pieces boundaries
  = Ok (points, facets_markers, holes) →
  ∃ out sps' bs',
    build_point_list within_TOL domain sphere_pieces
      (duplicate_lower_boundaries domain boundaries) = Ok (out, sps', bs')
    ∧ points = snap_zero out
    ∧ build_facet_list sps' bs' = Ok facets_markers
    ∧ holes = build_hole_list sps'.
Proof.
  unfold build_tetmesh_input. intros H.
  apply rbind_Ok in H as ([[out sps'] bs'] & Hmerge & H).
  apply rbind_Ok in H as (fm & Hfm & [= <- <- <-]).
  by exists out, sps', bs'.
Qed.

(** ** The merge returns on groups of near-duplicates *)

(** Three points of one patch, each within [TOL] of the two others: the
    second and the third are removed and stand for the first. *)
Lemma build_point_list_returns_witness :
  ∃ out sps' bs',
    build_point_list (within TOL) unit_domain [] [patch_with_group]
    = Ok (out, sps', bs').
Proof.
  apply (build_point_list_returns (within TOL) unit_domain [] [patch_with_group]).
  - vm_compute. reflexivity.
  - intros i j k Hij%elem_of_sorted_query_pairs Hjk%elem_of_sorted_query_pairs.
    apply elem_of_sorted_query_pairs. vm_compute in Hij, Hjk |- *.
    repeat (apply elem_of_cons in Hij as [Hij | Hij]; [injection Hij as -> ->|]);
      try (by apply elem_of_nil in Hij);
      repeat (apply elem_of_cons in Hjk as [Hjk | Hjk];
              [first [discriminate Hjk | injection Hjk as ->; set_solver]|]);
      by apply elem_of_nil in Hjk.
  - repeat constructor; simpl; lia.
Defined.

(** * Further properties *)

(** ** [duplicate_lower_boundaries] on any number of patches *)

Lemma lookup_imap_Some {A B : Type} (f : nat → A → B) (l : list A) (i : nat) (a : A) :
  l !! i = Some a → imap f l !! i = Some (f i a).
Proof. intros H. by rewrite list_lookup_imap, H. Qed.

(** Adding [0.] leaves every float but [-0.], which becomes [0.]. *)
Lemma float_add_0 (c : float) : Prim2SF c ≠ S754_zero true → (c + 0)%float = c.
Proof.
  intros Hc. apply Prim2SF_inj. rewrite FloatAxioms.add_spec.
  change (Prim2SF 0) with (S754_zero false).
  destruct (Prim2SF c) as [[]| [] | | ]; try reflexivity. done.
Qed.

(** For any list of patches the result is the list followed by one copy per
    patch. Copy [i] keeps the triangles, the face markers and the holes
    (the holes are not translated). Its points are those of patch [i] with
    [L[0]] added to the first coordinate when [i = 0], [L[1]] to the second
    when [i = 1], [L[2]] to the third when [i = 2], and [0.] added to every
    other coordinate: from the fourth patch on [0.] is added to all three,
    which leaves every coordinate but [-0.] as it is and turns [-0.] into
    [0.]. *)
Theorem duplicate_lower_boundaries_any_length (domain : Domain)
    (lower_boundaries : list BoundaryPLC.t) :
  let r := duplicate_lower_boundaries domain lower_boundaries in
  let n := length lower_boundaries in
  let shift (i j : nat) : float :=
    if decide (i = j) then coord j (L domain) else 0%float in
  length r = n + n
  ∧ take n r = lower_boundaries
  ∧ (∀ i b, lower_boundaries !! i = Some b →
       ∃ ub, r !! (n + i) = Some ub
             ∧ BoundaryPLC.tris ub = BoundaryPLC.tris b
             ∧ BoundaryPLC.face_markers ub = BoundaryPLC.face_markers b
             ∧ BoundaryPLC.holes ub = BoundaryPLC.holes b
             ∧ BoundaryPLC.points ub
               = map (λ p : vec3,
                        (p.1.1 + shift i 0%nat, p.1.2 + shift i 1%nat,
                         p.2 + shift i 2%nat)%float)
                     (BoundaryPLC.points b)
             ∧ (3 ≤ i →
                BoundaryPLC.points ub
                = map (λ p : vec3, (p.1.1 + 0, p.1.2 + 0, p.2 + 0)%float)
                      (BoundaryPLC.points b)))
  ∧ (∀ c : float, Prim2SF c ≠ S754_zero true → (c + 0)%float = c)
  ∧ (-0 + 0)%float = 0%float.
Proof.
  cbv zeta. unfold duplicate_lower_boundaries, deepcopy. split_and!.
  - by rewrite length_app, length_imap.
  - by rewrite take_app_length.
  - intros i b Hb. eexists. split.
    + rewrite lookup_app_r by lia.
      replace (length lower_boundaries + i - length lower_boundaries) with i by lia.
      by apply lookup_imap_Some.
    + split_and!; [done..| |].
      * apply map_ext. intros [[a b0] c]. unfold vadd, translate, row3. cbn [coord fst snd].
        destruct (decide (0 = i)), (decide (i = 0)); try lia;
          destruct (decide (1 = i)), (decide (i = 1)); try lia;
          destruct (decide (2 = i)), (decide (i = 2)); try lia; reflexivity.
      * intros Hi. apply map_ext. intros [[a b0] c].
        unfold vadd, translate, row3. cbn [coord fst snd].
        rewrite !decide_False by lia. reflexivity.
  - exact float_add_0.
  - vm_compute. reflexivity.
Qed.

(** ** The dictionary of duplicates *)

(** A vertex of [boundary_points] is marked for removal exactly when a
    vertex of lower index is within [TOL] of it, and its entry in [dup] is
    then the lowest such index. *)
Theorem dup_lowest_partner (within_TOL : vec3 → vec3 → bool) (pts : list vec3)
    (v : nat) :
  let dup := build_dup (sorted_query_pairs within_TOL pts) in
  (dup !! v = None ↔ ∀ k, ¬ is_pair within_TOL pts k v)
  ∧ (∀ k, dup !! v = Some k ↔
          is_pair within_TOL pts k v
          ∧ ∀ k', is_pair within_TOL pts k' v → k ≤ k')
  ∧ (∀ k, dup !! v = Some k →
          k < v ∧ ∃ p q, pts !! k = Some p ∧ pts !! v = Some q
                         ∧ within_TOL p q = true).
Proof.
  cbv zeta. split_and!.
  - apply build_dup_None.
  - intros k. apply build_dup_Some.
  - intros k [Hk _]%build_dup_Some. exact Hk.
Qed.

(** ** The points appended after the sphere-piece points *)

Section appended_points.

Variable within_TOL : vec3 → vec3 → bool.

(** What the removal leaves of an array has no two entries within [TOL]. *)
Lemma compress_kept_mask_apart (pts : list vec3) :
  no_near_duplicates within_TOL (np.compress (kept_mask within_TOL pts) pts).
Proof.
  intros c1 c2 p q Hlt Hp Hq.
  pose proof (kept_mask_length within_TOL pts) as Hlen.
  apply (compress_lookup 0) in Hp as (i1 & Hi1 & Hp); [|done].
  apply (compress_lookup 0) in Hq as (i2 & Hi2 & Hq); [|done].
  pose proof (where_from_mono _ _ _ _ _ _ Hlt Hi1 Hi2) as Hi.
  apply where_lookup_lt in Hi2 as [Hm _]. simpl in *.
  by eapply (kept_mask_true within_TOL pts i1 i2).
Qed.

Lemma compress_length_le {A : Type} (mask : list bool) (arr : list A) :
  length (np.compress mask arr) ≤ length arr.
Proof.
  revert arr. induction mask as [|m mask IH]; intros [|a arr]; simpl; try lia.
  destruct m; simpl; specialize (IH arr); lia.
Qed.

Lemma no_near_duplicates_drop (n : nat) (pts : list vec3) :
  no_near_duplicates within_TOL pts → no_near_duplicates within_TOL (drop n pts).
Proof.
  intros Hno i j p q Hlt Hp Hq. rewrite lookup_drop in Hp, Hq.
  eapply (Hno (n + i) (n + j)); [lia | done..].
Qed.

End appended_points.

(** Whenever [build_point_list] returns, the returned array starts with the
    stacked points of the sphere pieces as they were given, and the points
    after them are pairwise farther apart than [TOL]. *)
Theorem build_point_list_appended_apart (within_TOL : vec3 → vec3 → bool)
    (domain : Domain) (sphere_pieces : list SpherePiece.t)
    (boundaries : list BoundaryPLC.t) (out : list vec3)
    (sps' : list SpherePiece.t) (bs' : list BoundaryPLC.t) :
  build_point_list within_TOL domain sphere_pieces boundaries = Ok (out, sps', bs') →
  let pp := piece_points_of sphere_pieces in
  take (length pp) out = pp
  ∧ no_near_duplicates within_TOL (drop (length pp) out)
  ∧ length out ≤ length pp + length (patch_points_of boundaries).
Proof.
  intros H. apply build_point_list_Ok_unfold in H as [_ H]. cbv zeta in H.
  apply rbind_Ok in H as (upd & _ & H).
  apply rbind_Ok in H as (bs'' & _ & [= <- _ _]).
  set (BP := boundary_points_of domain sphere_pieces boundaries).
  split_and!.
  - by rewrite take_app_length.
  - rewrite drop_app_length. apply no_near_duplicates_drop, compress_kept_mask_apart.
  - rewrite length_app, length_drop.
    assert (length (bpp_mask domain sphere_pieces)
            = length (piece_points_of sphere_pieces)) as Hlen
      by (unfold bpp_mask; by rewrite length_map).
    pose proof (compress_length _ _ Hlen) as Hlenc.
    pose proof (compress_length_le (kept_mask within_TOL BP) BP) as Hle.
    assert (length BP
            = length (np.where_ (bpp_mask domain sphere_pieces))
              + length (patch_points_of boundaries)) as HlenBP.
    { unfold BP, boundary_points_of. rewrite length_app. lia. }
    lia.
Qed.

(** The piece and the patch that share three points: one point is appended. *)
Lemma build_point_list_appended_apart_witness :
  take 4 merged_points_example = SpherePiece.points piece_on_x_lower
  ∧ no_near_duplicates (within TOL) (drop 4 merged_points_example)
  ∧ length merged_points_example ≤ 4 + 4.
Proof.
  refine (build_point_list_appended_apart (within TOL) unit_domain
            [piece_on_x_lower] [patch_x_lower] merged_points_example _ _ _).
  vm_compute. reflexivity.
Defined.

(** ** [build_facet_list] on any number of boundaries *)

(** With fewer than six boundaries the subscripts of [all_facets] raise
    [IndexError]. With six or more the facets are the triangles of all the
    boundaries, then those of the sphere pieces, while only the first six
    boundaries get markers: the markers are fewer than the facets by the
    number of triangles of the boundaries after the sixth. *)
Theorem build_facet_list_lengths (sphere_pieces : list SpherePiece.t)
    (boundaries : list BoundaryPLC.t) :
  (length boundaries < 6 → build_facet_list sphere_pieces boundaries = Raise IndexError)
  ∧ (6 ≤ length boundaries →
     ∃ facets markers,
       build_facet_list sphere_pieces boundaries = Ok (facets, markers)
       ∧ facets = concat (map BoundaryPLC.tris boundaries)
                  ++ concat (map SpherePiece.tris sphere_pieces)
       ∧ length facets
         = length markers
           + length (concat (map BoundaryPLC.tris (drop 6 boundaries)))).
Proof.
  split.
  - intros Hlen.
    destruct boundaries as [|b0 [|b1 [|b2 [|b3 [|b4 [|b5 rest]]]]]];
      try reflexivity. simpl in Hlen. lia.
  - intros Hlen.
    destruct boundaries as [|b0 [|b1 [|b2 [|b3 [|b4 [|b5 rest]]]]]];
      simpl in Hlen; try lia.
    destruct (build_facet_list_six sphere_pieces b0 b1 b2 b3 b4 b5 rest)
      as (markers & Hrun & Hlenm).
    eexists _, markers. split; [exact Hrun|]. split; [done|].
    rewrite Hlenm. change (drop 6 (b0 :: b1 :: b2 :: b3 :: b4 :: b5 :: rest)) with rest.
    cbn [map concat]. rewrite !length_app. cbn [length]. lia.
Qed.

(** Seven boundaries, the seventh with one triangle. *)
Lemma build_facet_list_lengths_witness :
  ∃ facets markers,
    build_facet_list [hole_piece]
      (six_patches ++ [BoundaryPLC.mk [] [(7, 8, 9)] [] []]) = Ok (facets, markers)
    ∧ length facets = length markers + 1.
Proof.
  destruct (proj2 (build_facet_list_lengths [hole_piece]
                     (six_patches ++ [BoundaryPLC.mk [] [(7, 8, 9)] [] []])))
    as (facets & markers & Hrun & _ & Hlen); [simpl; lia|].
  by exists facets, markers.
Defined.

(** ** What the merge leaves of its sources *)

Lemma lookup_concat_take {A : Type} (ls : list (list A)) (i j : nat) (l : list A) :
  ls !! i = Some l → j < length l →
  concat ls !! (length (concat (take i ls)) + j) = l !! j.
Proof.
  revert i. induction ls as [|l0 ls IH]; intros [|i] Hl Hj; simplify_eq/=.
  - by rewrite lookup_app_l.
  - rewrite length_app, <-Nat.add_assoc, lookup_app_r by lia.
    replace (length l0 + (length (concat (take i ls)) + j) - length l0)
      with (length (concat (take i ls)) + j) by lia.
    by apply IH.
Qed.

Lemma piece_loop_snd_lookup (vcount : nat) (sphere_pieces : list SpherePiece.t)
    (i : nat) (p : SpherePiece.t) :
  sphere_pieces !! i = Some p →
  (piece_loop vcount sphere_pieces).2 !! i
  = Some (SpherePiece.set_tris p
            (map (tri_offset
                    (vcount + length (concat (map SpherePiece.points
                                                  (take i sphere_pieces)))))
                 (SpherePiece.tris p))).
Proof.
  revert vcount i. induction sphere_pieces as [|p0 ps IH]; intros v [|i] Hp;
    simplify_eq/=.
  - by rewrite Nat.add_0_r.
  - rewrite (IH _ _ Hp), length_app. do 4 f_equal. lia.
Qed.

Lemma boundary_loop_snd_lookup (vcount : nat) (boundaries : list BoundaryPLC.t)
    (i : nat) (b : BoundaryPLC.t) :
  boundaries !! i = Some b →
  (boundary_loop vcount boundaries).2 !! i
  = Some (BoundaryPLC.set_tris b
            (map (tri_offset
                    (vcount + length (concat (map BoundaryPLC.points
                                                  (take i boundaries)))))
                 (BoundaryPLC.tris b))).
Proof.
  revert vcount i. induction boundaries as [|b0 bs IH]; intros v [|i] Hb;
    simplify_eq/=.
  - by rewrite Nat.add_0_r.
  - rewrite (IH _ _ Hb), length_app. do 4 f_equal. lia.
Qed.

Lemma boundary_loop_snd_length (vcount : nat) (boundaries : list BoundaryPLC.t) :
  length (boundary_loop vcount boundaries).2 = length boundaries.
Proof.
  revert vcount. induction boundaries as [|b bs IH]; intros v; simpl; [done|].
  by rewrite IH.
Qed.

(** The triangles are arrays of 32-bit integers; with triangles that index
    the points of their own source and fewer than [2^31] points in all, no
    index leaves their range. Then, whenever [build_point_list] returns, a
    sphere piece is left with its points, its sphere and its flag, and its
    triangles are the given ones plus the number of points of the pieces
    before it, under which every index of a point of the piece is the index
    of the same point in the returned array; a boundary is left with its
    points, its face markers and its holes, and as many triangles. *)
Theorem build_point_list_sources_kept (within_TOL : vec3 → vec3 → bool)
    (domain : Domain) (sphere_pieces : list SpherePiece.t)
    (boundaries : list BoundaryPLC.t) (out : list vec3)
    (sps' : list SpherePiece.t) (bs' : list BoundaryPLC.t) :
  pieces_locally_valid sphere_pieces →
  boundaries_locally_valid boundaries →
  (Z.of_nat (length (piece_points_of sphere_pieces)
             + length (patch_points_of boundaries)) < 2 ^ 31)%Z →
  build_point_list within_TOL domain sphere_pieces boundaries = Ok (out, sps', bs') →
  (∀ i p, sphere_pieces !! i = Some p →
     ∃ p' off,
       sps' !! i = Some p'
       ∧ off = length (piece_points_of (take i sphere_pieces))
       ∧ SpherePiece.points p' = SpherePiece.points p
       ∧ SpherePiece.sphere p' = SpherePiece.sphere p
       ∧ SpherePiece.is_hole p' = SpherePiece.is_hole p
       ∧ SpherePiece.tris p' = map (tri_offset off) (SpherePiece.tris p)
       ∧ ∀ v q, SpherePiece.points p !! v = Some q → out !! (v + off) = Some q)
  ∧ (∀ i b, boundaries !! i = Some b →
       ∃ b',
         bs' !! i = Some b'
         ∧ BoundaryPLC.points b' = BoundaryPLC.points b
         ∧ BoundaryPLC.face_markers b' = BoundaryPLC.face_markers b
         ∧ BoundaryPLC.holes b' = BoundaryPLC.holes b
         ∧ length (BoundaryPLC.tris b') = length (BoundaryPLC.tris b)).
Proof.
  intros _ _ _ H. pose proof (build_point_list_length _ _ _ _ _ _ _ H) as [Hls Hlb].
  apply build_point_list_Ok_unfold in H as [_ H]. cbv zeta in H.
  apply rbind_Ok in H as (upd & _ & H).
  apply rbind_Ok in H as (bs'' & Hbs & [= <- <- <-]). split.
  - intros i p Hp. eexists _, _. split; [by apply (piece_loop_snd_lookup 0)|].
    split; [reflexivity|].
    split_and!; [done..|]. intros v q Hq. simpl.
    pose proof (lookup_lt_Some _ _ _ Hq) as Hv.
    rewrite lookup_app_l.
    + unfold piece_points_of, np.vstack.
      rewrite Nat.add_comm, (fmap_take SpherePiece.points).
      rewrite (lookup_concat_take _ i v (SpherePiece.points p)); [done| |done].
      by rewrite list_lookup_fmap, Hp.
    + unfold piece_points_of, np.vstack. rewrite (fmap_take SpherePiece.points).
      assert (map SpherePiece.points sphere_pieces !! i = Some (SpherePiece.points p))
        as Hi by by rewrite list_lookup_fmap, Hp.
      pose proof (lookup_concat_take _ i v _ Hi Hv) as Hc.
      rewrite Hq in Hc. apply lookup_lt_Some in Hc.
      change (SpherePiece.points <$> sphere_pieces)
        with (map SpherePiece.points sphere_pieces). lia.
  - intros i b Hb. apply comprehension_Ok in Hbs.
    pose proof (boundary_loop_snd_lookup
                  (length (np.where_ (bpp_mask domain sphere_pieces))) _ _ _ Hb) as Hoff.
    destruct (Forall2_lookup_l _ _ _ _ _ Hbs Hoff) as (b' & Hb' & Hre).
    exists b'. split; [done|]. unfold reindex_boundary in Hre.
    apply rbind_Ok in Hre as (ts & Hts & [= <-]). simpl.
    split_and!; [done..|]. apply comprehension_length in Hts.
    simpl in Hts. by rewrite length_map in Hts.
Qed.

(** Two sphere pieces and a patch: the triangle of the second piece is
    moved by the four points of the first. *)
Lemma build_point_list_sources_kept_witness :
  ∃ out sps' bs' p',
    build_point_list (within TOL) unit_domain [piece_on_x_lower; piece_inside]
      [patch_x_lower] = Ok (out, sps', bs')
    ∧ sps' !! 1 = Some p'
    ∧ SpherePiece.tris p' = [(4, 5, 6)]
    ∧ ∀ v q, SpherePiece.points piece_inside !! v = Some q → out !! (v + 4) = Some q.
Proof.
  eexists _, _, _. 
  assert (build_point_list (within TOL) unit_domain [piece_on_x_lower; piece_inside]
            [patch_x_lower]
          = Ok (SpherePiece.points piece_on_x_lower ++ SpherePiece.points piece_inside
                ++ [(0, 0, 0)%float],
                [piece_on_x_lower;
                 SpherePiece.set_tris piece_inside [(4, 5, 6)]],
                [BoundaryPLC.set_tris patch_x_lower [(1, 0, 2); (0, 2, 7)]])) as Hrun
    by (vm_compute; reflexivity).
  destruct (build_point_list_sources_kept (within TOL) unit_domain
              [piece_on_x_lower; piece_inside] [patch_x_lower] _ _ _
              ltac:(repeat constructor; simpl; lia)
              ltac:(repeat constructor; simpl; lia)
              ltac:(vm_compute; reflexivity) Hrun)
    as [Hpieces _].
  destruct (Hpieces 1 piece_inside eq_refl)
    as (p' & off & Hp' & -> & _ & _ & _ & Htris & Hgeo).
  exists p'. split; [exact Hrun|]. split; [exact Hp'|]. split; [exact Htris|].
  exact Hgeo.
Defined.

(** ** The reindexed triangles of the boundaries keep their geometry *)

Section boundary_geometry.

Variable within_TOL : vec3 → vec3 → bool.

Lemma where_from_prefix_true (i0 n : nat) (mask : list bool) (c : nat) :
  (∀ c', c' < n → mask !! c' = Some true) → c < n →
  np.where_from i0 mask !! c = Some (i0 + c).
Proof.
  revert i0 n c. induction mask as [|m mask IH]; intros i0 n c Htrue Hc.
  - specialize (Htrue c Hc). done.
  - pose proof (Htrue 0 ltac:(lia)) as H0. simpl in H0. injection H0 as ->. simpl.
    destruct c as [|c]; simpl; [f_equal; lia|].
    rewrite (IH (S i0) (n - 1)); [f_equal; lia | | lia].
    intros c' Hc'. apply (Htrue (S c')). lia.
Qed.

(** The update of [reindex]: a kept vertex gets its position in the
    compacted array, a removed one the position of its entry in [dup]. *)
Lemma reindex_lookup_inv (pts : list vec3) (upd : list (nat * nat)) (u r : nat) :
  let mask := kept_mask within_TOL pts in
  let dup := build_dup (sorted_query_pairs within_TOL pts) in
  let reindex0 : gmap nat nat :=
    list_to_map (map (λ no : nat * nat, (no.2, no.1)) (enumerate (np.where_ mask))) in
  comprehension (λ kv : nat * nat, do r <- subscript reindex0 kv.2; Ok (kv.1, r))
                (map_to_list dup) = Ok upd →
  update reindex0 (list_to_map upd) !! u = Some r →
  ∃ k, np.where_ mask !! r = Some k ∧ (k = u ∨ dup !! u = Some k).
Proof.
  intros mask dup reindex0 Hupd Hr. apply comprehension_Ok in Hupd.
  unfold update in Hr. apply lookup_union_Some_raw in Hr as [Hr | [Hnone Hr]].
  - apply elem_of_list_to_map_2, list_elem_of_lookup in Hr as [i Hi].
    destruct (Forall2_lookup_r _ _ _ _ _ Hupd Hi) as ([u' k] & Hi' & Hkv).
    apply rbind_Ok in Hkv as (r0 & Hr0%subscript_Ok & [= -> ->]). simpl in *.
    exists k. split; [by apply lookup_reindex0|]. right.
    apply elem_of_map_to_list, list_elem_of_lookup. by exists i.
  - exists u. split; [by apply lookup_reindex0 | by left].
Qed.

(** One vertex: the index written for the vertex [u] of [boundary_points]
    is an index of [out] that stands for the point of [u]. *)
Lemma reindexed_vertex_stands_for (domain : Domain)
    (sphere_pieces : list SpherePiece.t) (boundaries : list BoundaryPLC.t)
    (upd : list (nat * nat)) (u g : nat) (p : vec3) :
  let pp := piece_points_of sphere_pieces in
  let bpp_idx := np.where_ (bpp_mask domain sphere_pieces) in
  let BP := boundary_points_of domain sphere_pieces boundaries in
  let mask := kept_mask within_TOL BP in
  let BPc := np.compress mask BP in
  let remap : gmap nat nat :=
    update (list_to_map (enumerate bpp_idx))
      (list_to_map (map (λ v, (v + length bpp_idx, v + length pp))
                        (seq 0 (length BPc - length bpp_idx)))) in
  let reindex0 : gmap nat nat :=
    list_to_map (map (λ no : nat * nat, (no.2, no.1)) (enumerate (np.where_ mask))) in
  no_near_duplicates within_TOL pp →
  comprehension (λ kv : nat * nat, do r <- subscript reindex0 kv.2; Ok (kv.1, r))
                (map_to_list (build_dup (sorted_query_pairs within_TOL BP)))
  = Ok upd →
  BP !! u = Some p →
  (do r <- subscript (update reindex0 (list_to_map upd)) u; subscript remap r) = Ok g →
  stands_for within_TOL (pp ++ drop (length bpp_idx) BPc) g p.
Proof.
  intros pp bpp_idx BP mask BPc remap reindex0 Hpp Hupd Hp Hg.
  apply rbind_Ok in Hg as (r & Hr%subscript_Ok & Hg%subscript_Ok).
  destruct (reindex_lookup_inv BP upd u r Hupd Hr) as (k & Hk & Hku).
  fold mask in Hk.
  pose proof (kept_mask_length within_TOL BP) as Hlenm. fold mask in Hlenm.
  assert (length (bpp_mask domain sphere_pieces) = length pp) as Hlen
    by (unfold bpp_mask; by rewrite length_map).
  pose proof (compress_length _ _ Hlen) as Hlenc. fold bpp_idx in Hlenc.
  (* the point of the representative *)
  assert (∃ q, BP !! k = Some q ∧ BPc !! r = Some q
               ∧ (q = p ∨ within_TOL q p = true)) as (q & Hq & Hqc & Hqp).
  { destruct Hku as [-> | Hdup].
    - exists p. split_and!; [done| |by left].
      apply (compress_lookup 0); [done|]. by exists u.
    - apply build_dup_Some in Hdup as [(_ & q & p' & Hq & Hp' & Hqp) _].
      exists q. split_and!; [done| |right; congruence].
      apply (compress_lookup 0); [done|]. by exists k. }
  exists q. split; [|done].
  pose proof (lookup_lt_Some _ _ _ Hqc) as Hrlt. fold BPc in Hrlt.
  unfold remap, update in Hg.
  rewrite lookup_union, lookup_shift_range, lookup_enumerate in Hg.
  case_decide as Hrange.
  - (* a point of the patches *)
    assert (g = r - length bpp_idx + length pp) as ->.
    { destruct (bpp_idx !! r); by injection Hg as <-. }
    rewrite lookup_app_r by lia. rewrite lookup_drop. rewrite <-Hqc. f_equal. lia.
  - (* a sphere-piece point on a boundary plane *)
    assert (r < length bpp_idx) as Hrb by lia.
    destruct (lookup_lt_is_Some_2 _ _ Hrb) as [i Hi]. rewrite Hi in Hg.
    injection Hg as <-.
    assert (np.where_ mask !! r = Some r) as Hrr.
    { apply (where_from_prefix_true 0 (length bpp_idx)); [|done].
      intros c Hc. by apply kept_mask_bpp. }
    assert (k = r) as -> by congruence.
    assert (BP !! r = pp !! i) as Hbp.
    { unfold BP, boundary_points_of. fold pp. rewrite lookup_app_l by lia.
      destruct (pp !! i) as [x|] eqn:Hx.
      - apply (compress_lookup 0); [done|]. by exists i.
      - apply where_lookup_lt in Hi as [_ Hi]. apply lookup_ge_None in Hx. lia. }
    rewrite lookup_app_l; [congruence|].
    apply where_lookup_lt in Hi as [_ Hi]. lia.
Qed.

End boundary_geometry.

(** Whenever [build_point_list] returns on sphere pieces whose points are
    pairwise farther apart than [TOL], every triangle of a boundary is
    rewritten vertex by vertex into indices of the returned array, and the
    entry of the array at the new index is the point the vertex had in the
    boundary, or a point the radius query paired with it. *)
Theorem build_point_list_boundary_geometry (within_TOL : vec3 → vec3 → bool)
    (domain : Domain) (sphere_pieces : list SpherePiece.t)
    (boundaries : list BoundaryPLC.t) (out : list vec3)
    (sps' : list SpherePiece.t) (bs' : list BoundaryPLC.t) :
  no_near_duplicates within_TOL (piece_points_of sphere_pieces) →
  build_point_list within_TOL domain sphere_pieces boundaries = Ok (out, sps', bs') →
  ∀ i b b', boundaries !! i = Some b → bs' !! i = Some b' →
    Forall2 (tri_stands_for within_TOL out (BoundaryPLC.points b))
            (BoundaryPLC.tris b) (BoundaryPLC.tris b').
Proof.
  intros Hpp H i b b' Hb Hb'.
  apply build_point_list_Ok_unfold in H as [_ H]. cbv zeta in H.
  apply rbind_Ok in H as (upd & Hupd & H).
  apply rbind_Ok in H as (bs'' & Hbs & [= <- <- <-]).
  apply comprehension_Ok in Hbs.
  set (nb := length (np.where_ (bpp_mask domain sphere_pieces))) in *.
  pose proof (boundary_loop_snd_lookup nb _ _ _ Hb) as Hoff.
  destruct (Forall2_lookup_l _ _ _ _ _ Hbs Hoff) as (b'' & Hb'' & Hre).
  assert (b'' = b') as -> by congruence.
  unfold reindex_boundary in Hre. apply rbind_Ok in Hre as (ts & Hts & [= <-]).
  simpl in *. apply comprehension_Ok, Forall2_fmap_l in Hts.
  set (off := nb + length (concat (map BoundaryPLC.points (take i boundaries)))) in *.
  assert (∀ v p, BoundaryPLC.points b !! v = Some p →
            boundary_points_of domain sphere_pieces boundaries !! (v + off) = Some p)
    as Hbp.
  { intros v p Hp. pose proof (lookup_lt_Some _ _ _ Hp) as Hv.
    assert (length (bpp_mask domain sphere_pieces)
            = length (piece_points_of sphere_pieces)) as Hlen
      by (unfold bpp_mask; by rewrite length_map).
    pose proof (compress_length _ _ Hlen) as Hlenc. fold nb in Hlenc.
    unfold boundary_points_of. rewrite lookup_app_r by lia.
    replace (v + off - length (np.compress (bpp_mask domain sphere_pieces)
                                            (piece_points_of sphere_pieces)))
      with (length (concat (map BoundaryPLC.points (take i boundaries))) + v) by lia.
    unfold patch_points_of, np.vstack. rewrite (fmap_take BoundaryPLC.points).
    rewrite (lookup_concat_take _ i v (BoundaryPLC.points b)); [done| |done].
    by rewrite list_lookup_fmap, Hb. }
  eapply Forall2_impl; [exact Hts|]. clear Hts.
  intros [[a0 b0] c0] [[a1 b1] c1] Ht. unfold reindex_tri, tri_offset, tri_map in Ht.
  simpl in Ht.
  apply rbind_Ok in Ht as (a & Ha & Ht). apply rbind_Ok in Ht as (b2 & Hb2 & Ht).
  apply rbind_Ok in Ht as (c & Hc & [= <- <- <-]).
  unfold tri_stands_for. simpl.
  split_and!; intros p Hp%Hbp;
    by eapply (reindexed_vertex_stands_for within_TOL domain sphere_pieces boundaries).
Qed.

(** The patch that repeats three points of the piece: its triangles come
    back on the indices of the piece and on that of the appended point. *)
Lemma build_point_list_boundary_geometry_witness :
  Forall2 (tri_stands_for (within TOL) merged_points_example
             (BoundaryPLC.points patch_x_lower))
          (BoundaryPLC.tris patch_x_lower) [(1, 0, 2); (0, 2, 4)].
Proof.
  refine (build_point_list_boundary_geometry (within TOL) unit_domain
            [piece_on_x_lower] [patch_x_lower] merged_points_example
            [piece_on_x_lower]
            [BoundaryPLC.set_tris patch_x_lower [(1, 0, 2); (0, 2, 4)]]
            _ _ 0 patch_x_lower _ eq_refl eq_refl).
  - apply no_near_duplicates_alt. vm_compute. reflexivity.
  - vm_compute. reflexivity.
Defined.

(** ** [build_tetmesh]: what is handed to TetGen *)

Lemma snap_zero_length (points : list vec3) : length (snap_zero points) = length points.
Proof. by rewrite snap_zero_rows, length_map. Qed.

Lemma duplicate_lower_boundaries_locally_valid (domain : Domain)
    (boundaries : list BoundaryPLC.t) :
  boundaries_locally_valid boundaries →
  boundaries_locally_valid (duplicate_lower_boundaries domain boundaries).
Proof.
  intros Hbd. unfold duplicate_lower_boundaries, deepcopy, boundaries_locally_valid.
  apply Forall_app. split; [done|].
  apply Forall_lookup. intros i ub Hub. rewrite list_lookup_imap in Hub.
  destruct (boundaries !! i) as [b|] eqn:Hb; simplify_eq/=.
  rewrite length_map. exact (Forall_lookup_1 _ _ _ _ Hbd Hb).
Qed.

Lemma build_facet_list_Ok_inv (sphere_pieces : list SpherePiece.t)
    (boundaries : list BoundaryPLC.t) (facets : list tri) (markers : list Z) :
  build_facet_list sphere_pieces boundaries = Ok (facets, markers) →
  6 ≤ length boundaries
  ∧ facets = concat (map BoundaryPLC.tris boundaries)
             ++ concat (map SpherePiece.tris sphere_pieces)
  ∧ length facets
    = length markers + length (concat (map BoundaryPLC.tris (drop 6 boundaries))).
Proof.
  destruct boundaries as [|b0 [|b1 [|b2 [|b3 [|b4 [|b5 rest]]]]]]; try discriminate.
  destruct (build_facet_list_six sphere_pieces b0 b1 b2 b3 b4 b5 rest)
    as (markers' & Hrun & Hlenm).
  rewrite Hrun. intros [= <- <-]. split_and!.
  - simpl. lia.
  - done.
  - rewrite Hlenm. change (drop 6 (b0 :: b1 :: b2 :: b3 :: b4 :: b5 :: rest)) with rest.
    cbn [map concat]. rewrite !length_app. cbn [length]. lia.
Qed.

Lemma piece_loop_snd_holes (vcount : nat) (sphere_pieces : list SpherePiece.t) :
  build_hole_list (piece_loop vcount sphere_pieces).2 = build_hole_list sphere_pieces.
Proof.
  unfold build_hole_list.
  assert (omap (λ p, if SpherePiece.is_hole p then Some (x (SpherePiece.sphere p))
                     else None) (piece_loop vcount sphere_pieces).2
          = omap (λ p, if SpherePiece.is_hole p then Some (x (SpherePiece.sphere p))
                       else None) sphere_pieces) as ->; [|done].
  revert vcount. induction sphere_pieces as [|p ps IH]; intros v; simpl; [done|].
  fold (omap (λ p, if SpherePiece.is_hole p then Some (x (SpherePiece.sphere p))
                   else None) ps).
  fold (omap (λ p, if SpherePiece.is_hole p then Some (x (SpherePiece.sphere p))
                   else None) (piece_loop (v + length (SpherePiece.points p)) ps).2).
  by rewrite IH.
Qed.

(** Whenever the input of TetGen is built from sources whose triangles index
    their own points, there were at least three lower boundaries, every
    facet holds indices of the point array, the holes are the centres of the
    hole pieces as given, and with exactly three lower boundaries there is
    one marker per facet. *)
Theorem build_tetmesh_input_consistent (within_TOL : vec3 → vec3 → bool)
    (domain : Domain) (sphere_pieces : list SpherePiece.t)
    (boundaries : list BoundaryPLC.t) (points : list vec3) (facets : list tri)
    (markers : list Z) (holes : list vec3) :
  pieces_locally_valid sphere_pieces →
  boundaries_locally_valid boundaries →
  build_tetmesh_input within_TOL domain sphere_pieces boundaries
  = Ok (points, (facets, markers), holes) →
  3 ≤ length boundaries
  ∧ Forall (tri_valid (length points)) facets
  ∧ holes = build_hole_list sphere_pieces
  ∧ (length boundaries = 3 → length markers = length facets).
Proof.
  intros Hsp Hbd H. unfold build_tetmesh_input in H.
  apply rbind_Ok in H as ([[out sps'] bs'] & Hrun & H). simpl in H.
  apply rbind_Ok in H as ([fs ms] & Hfl & [= <- <- <- <-]).
  pose proof (build_point_list_length _ _ _ _ _ _ _ Hrun) as [_ Hlb].
  pose proof (merged_indices_valid _ _ _ _ _ _ _ Hsp
                (duplicate_lower_boundaries_locally_valid domain _ Hbd) Hrun)
    as [Hvs Hvb].
  apply build_facet_list_Ok_inv in Hfl as (H6 & -> & Hlen).
  assert (length (duplicate_lower_boundaries domain boundaries)
          = length boundaries + length boundaries) as Hdup
    by (unfold duplicate_lower_boundaries, deepcopy; by rewrite length_app, length_imap).
  rewrite snap_zero_length. split_and!.
  - lia.
  - apply Forall_app. split; apply Forall_concat, Forall_map; done.
  - apply build_point_list_Ok_unfold in Hrun as [_ Hrun]. cbv zeta in Hrun.
    apply rbind_Ok in Hrun as (upd & _ & Hrun).
    apply rbind_Ok in Hrun as (bs'' & _ & [= _ <- _]).
    apply piece_loop_snd_holes.
  - intros H3. rewrite drop_ge in Hlen by lia. simpl in Hlen. lia.
Qed.

(** The piece on the lower x face, with the patch that repeats three of its
    points as the first of three lower boundaries. *)
Lemma build_tetmesh_input_consistent_witness :
  ∃ points facets markers holes,
    build_tetmesh_input (within TOL) unit_domain [piece_on_x_lower]
      [patch_x_lower; BoundaryPLC.mk [] [] [] []; BoundaryPLC.mk [] [] [] []]
    = Ok (points, (facets, markers), holes)
    ∧ Forall (tri_valid (length points)) facets
    ∧ length markers = length facets.
Proof.
  eexists _, _, _, _. split; [vm_compute; reflexivity|].
  destruct (build_tetmesh_input_consistent (within TOL) unit_domain [piece_on_x_lower]
              [patch_x_lower; BoundaryPLC.mk [] [] [] []; BoundaryPLC.mk [] [] [] []]
              _ _ _ _ ltac:(repeat constructor; simpl; lia)
              ltac:(repeat constructor; simpl; lia) eq_refl)
    as (_ & Hv & _ & Hm).
  split; [exact Hv | exact (Hm eq_refl)].
Defined.

(** ** [write_multiflow]: the neighbours of a cell *)

Lemma filter_concat {A : Type} (f : A → bool) (ls : list (list A)) :
  List.filter f (concat ls) = concat (map (List.filter f) ls).
Proof.
  induction ls as [|l ls IH]; simpl; [done|]. by rewrite List.filter_app, IH.
Qed.

Lemma cumsum_from_length (acc : Z) (l : list Z) : length (cumsum_from acc l) = length l.
Proof. revert acc. induction l as [|a l IH]; intros acc; simpl; [done|]. by rewrite IH. Qed.

(** The entries of the pointer array are the lengths of the rows before. *)
Lemma cumsum_from_lookup {A : Type} (rows : list (list A)) (acc : Z) (i : nat) :
  i < length rows →
  cumsum_from acc (map (λ r, Z.of_nat (length r)) rows) !! i
  = Some (acc + Z.of_nat (length (concat (take (S i) rows))))%Z.
Proof.
  revert acc i. induction rows as [|r rows IH]; intros acc i Hi; simpl in *; [lia|].
  destruct i as [|i]; simpl.
  - by rewrite app_nil_r.
  - rewrite IH by lia. rewrite !length_app. f_equal. simpl. lia.
Qed.

Lemma ptr_lookup {A : Type} (rows : list (list A)) (i : nat) :
  i ≤ length rows →
  (0%Z :: cumsum_from 0 (map (λ r, Z.of_nat (length r)) rows)) !! i
  = Some (Z.of_nat (length (concat (take i rows)))).
Proof.
  intros Hi. destruct i as [|i]; [done|].
  change (cumsum_from 0 (map (λ r, Z.of_nat (length r)) rows) !! i
          = Some (Z.of_nat (length (concat (take (S i) rows))))).
  by rewrite cumsum_from_lookup by lia.
Qed.

Lemma concat_take_drop {A : Type} (rows : list (list A)) (i : nat) (row : list A) :
  rows !! i = Some row →
  take (length row) (drop (length (concat (take i rows))) (concat rows)) = row.
Proof.
  intros Hrow. rewrite <-(take_drop_middle _ _ _ Hrow) at 2.
  rewrite concat_app, drop_app_length. simpl. by rewrite take_app_length.
Qed.

Lemma Ok_inj {A : Type} (a b : A) : Ok a = Ok b → a = b.
Proof. congruence. Qed.

Lemma list_last_lookup {A : Type} (l : list A) (d a : A) :
  l !! (length l - 1) = Some a → List.last l d = a.
Proof.
  induction l as [|x l IH]; [done|]. destruct l as [|y l]; simpl in *.
  - congruence.
  - rewrite Nat.sub_0_r in IH. exact IH.
Qed.

(** The pointer array has 32-bit entries; with the bound on the number of
    cells no entry wraps. Whenever the datasets are written for a mesh with
    one row of neighbours per cell, [cellNeighbourPtr] has one entry more
    than there are cells, starts at 0 and ends at the length of
    [cellNeighbours] (the last entry of [meshData]), and the entries of
    [cellNeighbours] between the pointers [i] and [i+1] are the neighbours
    of cell [i] that are not [-1], in the order of the row. *)
Theorem write_multiflow_neighbour_ptr (mesh : MeshInfo.t)
    (datasets : list (string * dataset)) :
  (4 * Z.of_nat (length (MeshInfo.elements mesh)) < 2 ^ 31)%Z →
  length (MeshInfo.neighbors mesh) = length (MeshInfo.elements mesh) →
  write_multiflow mesh = Ok datasets →
  ∃ nbr ptr meshData,
    datasets !! 7 = Some ("cellNeighbours", Ints nbr)
    ∧ datasets !! 8 = Some ("cellNeighbourPtr", Ints ptr)
    ∧ datasets !! 10 = Some ("meshData", Ints meshData)
    ∧ length ptr = S (length (MeshInfo.elements mesh))
    ∧ ptr !! 0 = Some 0%Z
    ∧ meshData !! 7 = Some (Z.of_nat (length nbr))
    ∧ ∀ i row, MeshInfo.neighbors mesh !! i = Some row →
        ∃ a b : nat,
          ptr !! i = Some (Z.of_nat a) ∧ ptr !! S i = Some (Z.of_nat b)
          ∧ take (b - a) (drop a nbr)
            = List.filter (λ n, Z.ltb (-1) n) (flatten4Z row).
Proof.
  intros _ Hlen H. unfold write_multiflow in H.
  apply rbind_Ok in H as (cells & _ & H). apply rbind_Ok in H as (cf & _ & H).
  apply rbind_Ok in H as (cellFaces & _ & H).
  apply rbind_Ok in H as (cumulated & Hcum & Hds).
  rewrite length_map, decide_True in Hcum by done.
  assert (cumulated
          = cumsum_from 0
              (map (λ r, Z.of_nat (length (List.filter (λ n, Z.ltb (-1) n) (flatten4Z r))))
                   (MeshInfo.neighbors mesh))) as -> by congruence.
  clear Hcum. apply Ok_inj in Hds. subst datasets.
  set (rows := map (λ r, List.filter (λ n, Z.ltb (-1) n) (flatten4Z r))
                   (MeshInfo.neighbors mesh)).
  assert (map (λ r, Z.of_nat (length (List.filter (λ n, Z.ltb (-1) n) (flatten4Z r))))
              (MeshInfo.neighbors mesh)
          = map (λ r, Z.of_nat (length r)) rows) as -> by (unfold rows; by rewrite map_map).
  assert (List.filter (λ n, Z.ltb (-1) n) (concat (map flatten4Z (MeshInfo.neighbors mesh)))
          = concat rows) as -> by (unfold rows; by rewrite filter_concat, map_map).
  assert (length rows = length (MeshInfo.neighbors mesh)) as Hrows
    by (unfold rows; by rewrite length_map).
  eexists _, _, _. split_and!; [reflexivity..| | | |].
  - simpl. by rewrite cumsum_from_length, length_map, Hrows, Hlen.
  - done.
  - change (Some (List.last (0%Z :: cumsum_from 0 (map (λ r, Z.of_nat (length r)) rows))
                            0%Z)
            = Some (Z.of_nat (length (concat rows)))).
    f_equal. apply list_last_lookup.
    change (length (0%Z :: cumsum_from 0 (map (λ r, Z.of_nat (length r)) rows)) - 1)
      with (length (cumsum_from 0 (map (λ r, Z.of_nat (length r)) rows)) - 0).
    rewrite Nat.sub_0_r, cumsum_from_length, length_map.
    pose proof (ptr_lookup rows (length rows) ltac:(lia)) as Hp.
    by rewrite take_ge in Hp by lia.
  - intros i row Hrow.
    assert (rows !! i = Some (List.filter (λ n, Z.ltb (-1) n) (flatten4Z row))) as Hr
      by (unfold rows; by rewrite list_lookup_fmap, Hrow).
    pose proof (lookup_lt_Some _ _ _ Hr) as Hi.
    exists (length (concat (take i rows))), (length (concat (take (S i) rows))).
    split_and!; [apply ptr_lookup; lia..|].
    set (frow := List.filter (λ n, Z.ltb (-1) n) (flatten4Z row)) in *.
    rewrite (take_S_r _ _ _ Hr), concat_app, length_app.
    change (concat [frow]) with (frow ++ []). rewrite app_nil_r.
    replace (length (concat (take i rows)) + length frow
             - length (concat (take i rows)))
      with (length frow) by lia.
    by apply concat_take_drop.
Qed.

(** One tetrahedron without neighbours, and the two tetrahedra that share a
    face. *)
Lemma write_multiflow_neighbour_ptr_witness :
  ∃ nbr ptr,
    length ptr = 3
    ∧ (∀ i row, MeshInfo.neighbors mesh_two_tets !! i = Some row →
         ∃ a b : nat,
           ptr !! i = Some (Z.of_nat a) ∧ ptr !! S i = Some (Z.of_nat b)
           ∧ take (b - a) (drop a nbr)
             = List.filter (λ n, Z.ltb (-1) n) (flatten4Z row)).
Proof.
  destruct (write_multiflow_neighbour_ptr mesh_two_tets _
              ltac:(vm_compute; reflexivity) eq_refl eq_refl)
    as (nbr & ptr & _ & _ & _ & _ & Hlen & _ & _ & Hrows).
  by exists nbr, ptr.
Defined.

(** ** [write_multiflow]: the faces of a cell *)

Lemma append_to_lookup (cell_faces : gmap Z (list nat)) (key : Z) (idx : nat) :
  append_to cell_faces key idx !! key
  = Some (default [] (cell_faces !! key) ++ [idx]).
Proof. unfold append_to. by rewrite lookup_insert_eq. Qed.

Lemma append_step_lookup (m : gmap Z (list nat)) (i : nat) (a : Z * Z) (c : Z) :
  append_to (append_to m a.1 i) a.2 i !! c
  = match occurrences c i a with
    | [] => m !! c
    | fs => Some (default [] (m !! c) ++ fs)
    end.
Proof.
  unfold occurrences. destruct a as [a1 a2]. simpl.
  destruct (decide (a1 = c)) as [->|H1], (decide (a2 = c)) as [->|H2]; simpl.
  - rewrite append_to_lookup, append_to_lookup. simpl. by rewrite <-app_assoc.
  - by rewrite append_to_lookup_ne, append_to_lookup.
  - rewrite append_to_lookup. by rewrite append_to_lookup_ne.
  - by rewrite !append_to_lookup_ne.
Qed.

Lemma collect_fold_lookup (adj : list (Z * Z)) (m : gmap Z (list nat)) (i0 : nat)
    (c : Z) :
  foldl (λ cell_faces ia, append_to (append_to cell_faces ia.2.1 ia.1) ia.2.2 ia.1)
        m (zip (seq i0 (length adj)) adj) !! c
  = match concat (imap (λ j, occurrences c (i0 + j)) adj) with
    | [] => m !! c
    | fs => Some (default [] (m !! c) ++ fs)
    end.
Proof.
  revert m i0. induction adj as [|a adj IH]; intros m i0; [done|].
  cbn [length seq zip zip_with foldl imap concat]. rewrite IH. simpl.
  rewrite append_step_lookup, Nat.add_0_r.
  assert (imap (λ j, occurrences c (S i0 + j)) adj
          = imap ((λ j, occurrences c (i0 + j)) ∘ S) adj) as <-.
  { apply imap_ext. intros j x _. simpl. f_equal. lia. }
  destruct (occurrences c i0 a) as [|o os]; simpl; [done|].
  destruct (concat _) as [|f fs]; simpl; [by rewrite app_nil_r|].
  by rewrite <-app_assoc.
Qed.

(** The dictionary built by the loop: a cell has an entry exactly when a
    pair of adjacent elements holds it, and the entry is the list of its
    faces. *)
Lemma collect_cell_faces_lookup (adjacent_elements : list (Z * Z)) (c : Z) :
  collect_cell_faces adjacent_elements !! c
  = match faces_of adjacent_elements c with
    | [] => None
    | fs => Some fs
    end.
Proof.
  unfold collect_cell_faces, faces_of. rewrite (collect_fold_lookup _ ∅ 0).
  rewrite lookup_empty. simpl. done.
Qed.

Lemma elem_of_faces_of (adjacent_elements : list (Z * Z)) (c : Z) (idx : nat) :
  idx ∈ faces_of adjacent_elements c
  ↔ ∃ adj, adjacent_elements !! idx = Some adj ∧ (adj.1 = c ∨ adj.2 = c).
Proof.
  unfold faces_of. rewrite list_elem_of_In, in_concat. split.
  - intros (l & Hl%list_elem_of_In & Hin%list_elem_of_In).
    apply list_elem_of_lookup in Hl as [j Hj]. rewrite list_lookup_imap in Hj.
    destruct (adjacent_elements !! j) as [a|] eqn:Ha; simplify_eq/=.
    unfold occurrences in Hin. apply elem_of_app in Hin.
    destruct (decide (a.1 = c)), (decide (a.2 = c)); set_solver.
  - intros (a & Ha & Hc). exists (occurrences c idx a). split.
    + apply list_elem_of_In, list_elem_of_lookup. exists idx.
      by rewrite list_lookup_imap, Ha.
    + apply list_elem_of_In. unfold occurrences.
      destruct Hc as [Hc|Hc]; [rewrite (decide_True _ _ Hc) | rewrite (decide_True (P:=a.2 = c)) by done];
        set_solver.
Qed.

#[local] Instance key_le_trans : Transitive key_le.
Proof. intros a b c. unfold key_le. lia. Qed.

#[local] Instance key_le_total : Total key_le.
Proof. intros a b. unfold key_le. lia. Qed.

Lemma sorted_keys_lt (items : list (Z * list nat)) :
  StronglySorted key_le items → NoDup items.*1 → StronglySorted Z.lt items.*1.
Proof.
  induction 1 as [|a items Hs IH Hall]; intros Hnd; simpl; [constructor|].
  apply NoDup_cons in Hnd as [Hnotin Hnd]. constructor; [by apply IH|].
  apply Forall_fmap, Forall_forall. intros b Hb. simpl.
  pose proof (proj1 (Forall_forall _ _) Hall b Hb) as Hle. unfold key_le in Hle.
  assert (a.1 ≠ b.1) as Hne.
  { intros Heq. apply Hnotin. rewrite Heq. by apply list_elem_of_fmap_2. }
  lia.
Qed.

Lemma array_flatten_Ok (rows : list (list nat)) (flat : list Z) :
  array_flatten rows = Ok flat →
  flat = map Z.of_nat (concat rows)
  ∧ ∃ n, Forall (λ r, length r = n) rows.
Proof.
  unfold array_flatten. destruct rows as [|r rows];
    [intros [= <-]; split; [done|]; exists 0; constructor|].
  destruct (forallb _ _) eqn:Hall; [|done]. intros [= <-]. split; [done|].
  exists (length r). apply Forall_forall. intros r' Hr'.
  apply list_elem_of_In in Hr'.
  pose proof (proj1 (forallb_forall _ _) Hall r' Hr') as Heq.
  by apply Nat.eqb_eq in Heq.
Qed.

(** Whenever the datasets are written, some pair of adjacent elements holds
    [-1], and [cellFaces] lists, for the cells that occur in
    [adjacent_elements] in ascending order of their index and without the
    cell [-1], the indices of the faces adjacent to the cell in ascending
    order; every such cell has the same number of faces. *)
Theorem write_multiflow_cell_faces (mesh : MeshInfo.t)
    (datasets : list (string * dataset)) :
  write_multiflow mesh = Ok datasets →
  let adjacent_elements := MeshInfo.adjacent_elements mesh in
  ∃ cells cellFaces n,
    datasets !! 5 = Some ("cellFaces", Ints cellFaces)
    ∧ StronglySorted Z.lt cells
    ∧ (∀ c, c ∈ cells ↔ c ≠ (-1)%Z ∧ ∃ adj, adj ∈ adjacent_elements
                                              ∧ (adj.1 = c ∨ adj.2 = c))
    ∧ cellFaces = map Z.of_nat (concat (map (faces_of adjacent_elements) cells))
    ∧ (∀ c idx, idx ∈ faces_of adjacent_elements c
                ↔ ∃ adj, adjacent_elements !! idx = Some adj ∧ (adj.1 = c ∨ adj.2 = c))
    ∧ (∀ c, c ∈ cells → length (faces_of adjacent_elements c) = n)
    ∧ ∃ adj, adj ∈ adjacent_elements ∧ (adj.1 = (-1)%Z ∨ adj.2 = (-1)%Z).
Proof.
  intros H adjacent_elements. unfold write_multiflow in H.
  apply rbind_Ok in H as (cells0 & _ & H). apply rbind_Ok in H as (cf & Hpop & H).
  apply rbind_Ok in H as (cellFaces & Hflat & H).
  apply rbind_Ok in H as (cumulated & _ & Hds). apply Ok_inj in Hds. subst datasets.
  fold adjacent_elements in Hpop.
  assert (∀ c, faces_of adjacent_elements c ≠ []
               ↔ ∃ adj, adj ∈ adjacent_elements ∧ (adj.1 = c ∨ adj.2 = c)) as Hocc.
  { intros c. split.
    - intros Hne. destruct (faces_of adjacent_elements c) as [|idx fs] eqn:Hf; [done|].
      assert (idx ∈ faces_of adjacent_elements c) as Hin by (rewrite Hf; set_solver).
      apply elem_of_faces_of in Hin as (a & Ha & Hc). exists a. split; [|done].
      by eapply list_elem_of_lookup_2.
    - intros (a & [idx Ha]%list_elem_of_lookup & Hc) Hnil.
      assert (idx ∈ faces_of adjacent_elements c) as Hin
        by (apply elem_of_faces_of; by exists a).
      rewrite Hnil in Hin. by apply elem_of_nil in Hin. }
  unfold pop in Hpop.
  destruct (collect_cell_faces adjacent_elements !! (-1)%Z) as [ext|] eqn:Hext;
    [|done].
  apply Ok_inj in Hpop. subst cf.
  set (items := sorted_items (delete (-1)%Z (collect_cell_faces adjacent_elements))) in *.
  assert (items ≡ₚ map_to_list (delete (-1)%Z (collect_cell_faces adjacent_elements)))
    as Hperm by apply merge_sort_Permutation.
  assert (∀ c l, (c, l) ∈ items
                 ↔ c ≠ (-1)%Z ∧ l = faces_of adjacent_elements c ∧ l ≠ []) as Hitems.
  { intros c l. rewrite Hperm, elem_of_map_to_list, lookup_delete_Some.
    rewrite collect_cell_faces_lookup.
    destruct (faces_of adjacent_elements c) as [|f fs]; naive_solver. }
  apply array_flatten_Ok in Hflat as [-> [n Hn]].
  exists items.*1, (map Z.of_nat (concat (map snd items))), n.
  split_and!.
  - reflexivity.
  - apply sorted_keys_lt; [apply StronglySorted_merge_sort; apply _|].
    rewrite Hperm. apply NoDup_fst_map_to_list.
  - intros c. rewrite <-Hocc. split.
    + intros [[c' l] [-> Hin]]%list_elem_of_fmap. simpl.
      apply Hitems in Hin. naive_solver.
    + intros [Hne Hf]. apply list_elem_of_fmap.
      exists (c, faces_of adjacent_elements c). split; [done|]. by apply Hitems.
  - do 2 f_equal. rewrite <-list_fmap_compose. apply list_fmap_ext.
    intros i [c l] Hi. simpl. apply list_elem_of_lookup_2, Hitems in Hi. naive_solver.
  - intros c idx. apply elem_of_faces_of.
  - intros c [[c' l] [-> Hin]]%list_elem_of_fmap. simpl.
    pose proof (proj1 (Hitems _ _) Hin) as (_ & <- & _).
    apply (proj1 (Forall_forall _ _) Hn). apply list_elem_of_fmap. by exists (c', l).
  - apply Hocc. rewrite collect_cell_faces_lookup in Hext.
    by destruct (faces_of adjacent_elements (-1)%Z).
Qed.

(** The two tetrahedra that share a face: two cells with four faces each. *)
Lemma write_multiflow_cell_faces_witness :
  ∃ cells cellFaces,
    StronglySorted Z.lt cells
    ∧ (∀ c, c ∈ cells ↔ c ≠ (-1)%Z
                         ∧ ∃ adj, adj ∈ MeshInfo.adjacent_elements mesh_two_tets
                                  ∧ (adj.1 = c ∨ adj.2 = c))
    ∧ cellFaces
      = map Z.of_nat
            (concat (map (faces_of (MeshInfo.adjacent_elements mesh_two_tets)) cells)).
Proof.
  destruct (write_multiflow_cell_faces mesh_two_tets _ eq_refl)
    as (cells & cellFaces & n & _ & Hs & Hc & Hf & _).
  by exists cells, cellFaces.
Defined.

(** ** [write_poly] and [write_ply]: the files, line by line *)

Lemma no_LF_String (c : ascii) (s : string) :
  no_LF (String c s) = negb (Ascii.eqb c LF) && no_LF s.
Proof. reflexivity. Qed.

Lemma no_LF_app (a b : string) : no_LF (a +:+ b) = no_LF a && no_LF b.
Proof.
  induction a as [|c a IH]; [done|].
  change (no_LF (String c (a +:+ b)) = no_LF (String c a) && no_LF b).
  by rewrite !no_LF_String, IH, andb_assoc.
Qed.

Lemma digit_char_not_LF (d : Z) : (0 ≤ d < 10)%Z → Ascii.eqb (digit_char d) LF = false.
Proof.
  intros Hd.
  assert (d = 0 ∨ d = 1 ∨ d = 2 ∨ d = 3 ∨ d = 4 ∨ d = 5 ∨ d = 6 ∨ d = 7 ∨ d = 8
          ∨ d = 9)%Z as Hcases by lia.
  repeat (destruct Hcases as [-> | Hcases]; [reflexivity|]). by subst.
Qed.

Lemma no_LF_digit (n : Z) (acc : string) :
  no_LF acc = true → no_LF (String (digit_char (n mod 10)) acc) = true.
Proof.
  intros Hacc. rewrite no_LF_String, Hacc, digit_char_not_LF; [done|].
  apply Z.mod_pos_bound. lia.
Qed.

Lemma no_LF_decimal_go (fuel : nat) (n : Z) (acc : string) :
  no_LF acc = true → no_LF (decimal_go fuel n acc) = true.
Proof.
  revert n acc. induction fuel as [|fuel IH]; intros n acc Hacc; [done|].
  cbn [decimal_go]. cbv zeta.
  destruct (n / 10 =? 0)%Z; [|apply IH]; by apply no_LF_digit.
Qed.

Lemma no_LF_decimal (n : Z) : no_LF (decimal n) = true.
Proof. unfold decimal. by apply no_LF_decimal_go. Qed.

Lemma no_LF_fmt_d (n : Z) : no_LF (fmt_d n) = true.
Proof.
  unfold fmt_d. destruct (n <? 0)%Z; [|apply no_LF_decimal].
  by rewrite no_LF_String, no_LF_decimal.
Qed.

Lemma no_LF_fmt_5d (n : Z) : no_LF (fmt_5d n) = true.
Proof.
  unfold fmt_5d. cbv zeta. rewrite no_LF_app, no_LF_fmt_d, andb_true_r.
  induction (5 - String.length (fmt_d n)) as [|k IH]; [done|].
  change (no_LF (String " " (string_of_list_ascii (replicate k " "%char))) = true).
  by rewrite no_LF_String, IH.
Qed.

Lemma no_LF_fixed_digits (n : nat) (d : Z) (acc : string) :
  no_LF acc = true → no_LF (fixed_digits n d acc) = true.
Proof.
  revert d acc. induction n as [|n IH]; intros d acc Hacc; [done|].
  cbn [fixed_digits]. apply IH. by apply no_LF_digit.
Qed.

Lemma no_LF_mantissa (D : Z) : no_LF (mantissa D) = true.
Proof.
  unfold mantissa. apply no_LF_digit. rewrite no_LF_String.
  by rewrite no_LF_fixed_digits.
Qed.

Lemma no_LF_exponent (E : Z) : no_LF (exponent E) = true.
Proof.
  unfold exponent. rewrite no_LF_String.
  destruct (Z.abs E <? 10)%Z; rewrite ?no_LF_String, no_LF_decimal;
    by destruct (E <? 0)%Z.
Qed.

Lemma no_LF_fmt_e15 (x : float) : no_LF (fmt_e15 x) = true.
Proof.
  unfold fmt_e15. destruct (Prim2SF x) as [s|s| |s m e].
  - rewrite no_LF_String, !no_LF_app, no_LF_mantissa, no_LF_exponent. by destruct s.
  - by destruct s.
  - reflexivity.
  - cbv zeta.
    rewrite no_LF_String, !no_LF_app, no_LF_mantissa, no_LF_exponent. by destruct s.
Qed.

Lemma lines_go_line (s rest : string) (cur : list ascii) :
  no_LF s = true →
  lines_go (s +:+ String LF rest) cur
  = string_of_list_ascii (rev cur ++ list_ascii_of_string s) :: lines_go rest [].
Proof.
  revert cur. induction s as [|c s IH]; intros cur Hs.
  - change (lines_go (String LF rest) cur
            = string_of_list_ascii (rev cur ++ []) :: lines_go rest []).
    by rewrite app_nil_r.
  - rewrite no_LF_String in Hs. apply andb_true_iff in Hs as [Hc Hs].
    change (lines_go (String c (s +:+ String LF rest)) cur
            = string_of_list_ascii (rev cur ++ c :: list_ascii_of_string s)
              :: lines_go rest []).
    cbn [lines_go]. apply negb_true_iff in Hc. rewrite Hc, (IH _ Hs).
    simpl. by rewrite <-app_assoc.
Qed.

Lemma lines_line (s rest : string) :
  no_LF s = true → lines ((s +:+ nl) +:+ rest) = s :: lines rest.
Proof.
  intros Hs. unfold lines. rewrite string_app_assoc.
  change (nl +:+ rest) with (String LF rest). rewrite lines_go_line by done.
  simpl. by rewrite string_of_list_ascii_of_string.
Qed.

(** A text made of full lines is read back as its lines. *)
Lemma lines_writes (ls : list string) :
  Forall (λ l, no_LF l = true) ls →
  lines (writes (map (λ l, l +:+ nl) ls)) = ls.
Proof.
  induction 1 as [|l ls Hl _ IH]; [done|].
  change (lines ((l +:+ nl) +:+ writes (map (λ l, l +:+ nl) ls)) = l :: ls).
  by rewrite lines_line, IH.
Qed.

Lemma writes_app (a b : list string) : writes (a ++ b) = writes a +:+ writes b.
Proof.
  induction a as [|s a IH]; [done|].
  change (s +:+ writes (a ++ b) = (s +:+ writes a) +:+ writes b).
  by rewrite IH, string_app_assoc.
Qed.

Lemma writes_singleton (s : string) : writes [s] = s.
Proof.
  unfold writes. simpl. induction s as [|c s IH]; [done|].
  change (String c (s +:+ "") = String c s). by rewrite IH.
Qed.

Lemma comprehension_map {A B : Type} (F : A → result B) (g : A → B) (l : list A) :
  (∀ a, F a = Ok (g a)) → comprehension F l = Ok (map g l).
Proof.
  intros HF. induction l as [|a l IH]; simpl; [done|]. by rewrite HF, IH.
Qed.

Lemma imap_full_lines (f : nat → vec3 → string) (l : list vec3) :
  imap (λ i p, f i p +:+ nl) l = map (λ s, s +:+ nl) (imap f l).
Proof.
  revert f. induction l as [|p l IH]; intros f; simpl; [done|].
  f_equal. apply (IH (f ∘ S)).
Qed.

Lemma Forall_no_LF_imap (f : nat → vec3 → string) (l : list vec3) :
  (∀ i p, no_LF (f i p) = true) → Forall (λ s, no_LF s = true) (imap f l).
Proof.
  intros Hf. apply Forall_lookup. intros i s Hs. rewrite list_lookup_imap in Hs.
  destruct (l !! i); simplify_eq/=. apply Hf.
Qed.

Lemma no_LF_poly_point_line (i : nat) (p : vec3) : no_LF (poly_point_line i p) = true.
Proof.
  unfold poly_point_line. by rewrite !no_LF_app, no_LF_fmt_5d, !no_LF_fmt_e15.
Qed.

Lemma no_LF_ply_point_line (p : vec3) : no_LF (ply_point_line p) = true.
Proof. unfold ply_point_line. by rewrite !no_LF_app, !no_LF_fmt_e15. Qed.

Lemma no_LF_ply_face_line (fac : Z * Z * Z) : no_LF (ply_face_line fac) = true.
Proof. unfold ply_face_line. by rewrite !no_LF_app, !no_LF_fmt_d. Qed.

Lemma no_LF_poly_facet_lines (fm : (Z * Z * Z) * Z) :
  Forall (λ s, no_LF s = true) (poly_facet_lines fm).
Proof.
  unfold poly_facet_lines. repeat constructor; by rewrite !no_LF_app, !no_LF_fmt_d.
Qed.

Lemma format_poly_point_line (i : nat) (p : vec3) :
  format_w (py "%5d %+1.15e %+1.15e %+1.15e\n")
           [IntArg (Z.of_nat i); FloatArg p.1.1; FloatArg p.1.2; FloatArg p.2]
  = Ok (poly_point_line i p +:+ nl).
Proof.
  unfold poly_point_line. rewrite !string_app_assoc. reflexivity.
Qed.

Lemma format_poly_facet_lines (fm : (Z * Z * Z) * Z) :
  format_w (py "1 0 %d\n%d %d %d %d\n")
           [IntArg fm.2; IntArg 3; IntArg fm.1.1.1; IntArg fm.1.1.2; IntArg fm.1.2]
  = Ok (writes (map (λ s, s +:+ nl) (poly_facet_lines fm))).
Proof.
  unfold poly_facet_lines, writes. simpl. rewrite !string_app_assoc. reflexivity.
Qed.

Lemma format_ply_point_line (p : vec3) :
  format_w (py "%+1.15e %+1.15e %+1.15e\n")
           [FloatArg p.1.1; FloatArg p.1.2; FloatArg p.2]
  = Ok (ply_point_line p +:+ nl).
Proof. unfold ply_point_line. rewrite !string_app_assoc. reflexivity. Qed.

Lemma format_ply_face_line (fac : Z * Z * Z) :
  format_w (py "3 %d %d %d\n") [IntArg fac.1.1; IntArg fac.1.2; IntArg fac.2]
  = Ok (ply_face_line fac +:+ nl).
Proof. unfold ply_face_line. rewrite !string_app_assoc. reflexivity. Qed.

Lemma writes_concat_lines (f : (Z * Z * Z) * Z → list string)
    (l : list ((Z * Z * Z) * Z)) :
  writes (map (λ fm, writes (map (λ s, s +:+ nl) (f fm))) l)
  = writes (map (λ s, s +:+ nl) (concat (map f l))).
Proof.
  induction l as [|fm l IH]; [done|].
  change (writes (map (λ s, s +:+ nl) (f fm))
          +:+ writes (map (λ fm, writes (map (λ s, s +:+ nl) (f fm))) l)
          = writes (map (λ s, s +:+ nl) (f fm ++ concat (map f l)))).
  by rewrite IH, map_app, writes_app.
Qed.

(** [write_poly] raises nothing and writes full lines: the number of points
    with [3 0 1]; one line per point, its 0-based number in five columns
    and its coordinates; the number of faces with [1]; two lines per pair of
    a face and a marker (as many as the shorter of the two lists, whatever
    the number announced); the number of holes, in both branches of the
    test on [holes]; and one line per hole. *)
Theorem write_poly_lines (mesh : MeshInfo.t) :
  let points := MeshInfo.points mesh in
  let faces := MeshInfo.faces mesh in
  let markers := MeshInfo.face_markers mesh in
  let holes := MeshInfo.holes mesh in
  let file_lines :=
    [fmt_d (Z.of_nat (length points)) +:+ " 3 0 1"]
    ++ imap poly_point_line points
    ++ [fmt_d (Z.of_nat (length faces)) +:+ " 1"]
    ++ concat (map poly_facet_lines (zip faces markers))
    ++ [fmt_d (Z.of_nat (length holes))]
    ++ imap poly_point_line holes in
  ∃ text,
    write_poly mesh = Ok text
    ∧ text = writes (map (λ l, l +:+ nl) file_lines)
    ∧ lines text = file_lines
    ∧ length file_lines
      = 3 + length points + 2 * (length faces `min` length markers) + length holes.
Proof.
  intros points faces markers holes file_lines.
  assert (Forall (λ s, no_LF s = true) file_lines) as Hno.
  { unfold file_lines. rewrite !Forall_app. split_and!.
    - repeat constructor. by rewrite no_LF_app, no_LF_fmt_d.
    - apply Forall_no_LF_imap, no_LF_poly_point_line.
    - repeat constructor. by rewrite no_LF_app, no_LF_fmt_d.
    - apply Forall_concat, Forall_map, Forall_forall. intros fm _.
      apply no_LF_poly_facet_lines.
    - repeat constructor. apply no_LF_fmt_d.
    - apply Forall_no_LF_imap, no_LF_poly_point_line. }
  assert (write_poly mesh = Ok (writes (map (λ l, l +:+ nl) file_lines))) as Hrun.
  { unfold write_poly. fold points faces markers holes.
    assert (∀ n, format_w (py "%d 3 0 1\n") [IntArg n]
                 = Ok ((fmt_d n +:+ " 3 0 1") +:+ nl)) as ->
      by (intros n; rewrite string_app_assoc; reflexivity).
    rewrite rbind_Ok_l.
    pose proof (comprehension_enumerate_map (λ p : vec3, p)
      (λ ip : nat * vec3,
         format_w (py "%5d %+1.15e %+1.15e %+1.15e\n")
                  [IntArg (Z.of_nat ip.1); FloatArg ip.2.1.1;
                   FloatArg ip.2.1.2; FloatArg ip.2.2])
      (λ i p, poly_point_line i p +:+ nl)) as Hnodes.
    pose proof (Hnodes points format_poly_point_line) as Hp.
    pose proof (Hnodes holes format_poly_point_line) as Hh.
    rewrite map_id in Hp, Hh. rewrite Hp, rbind_Ok_l.
    assert (∀ n, format_w (py "%d 1\n") [IntArg n] = Ok ((fmt_d n +:+ " 1") +:+ nl))
      as -> by (intros n; rewrite string_app_assoc; reflexivity).
    rewrite rbind_Ok_l.
    pose proof (comprehension_enumerate_map (λ fm : (Z * Z * Z) * Z, fm)
      (λ ifm : nat * ((Z * Z * Z) * Z),
         format_w (py "1 0 %d\n%d %d %d %d\n")
                  [IntArg ifm.2.2; IntArg 3; IntArg ifm.2.1.1.1; IntArg ifm.2.1.1.2;
                   IntArg ifm.2.1.2])
      (λ _ fm, writes (map (λ s, s +:+ nl) (poly_facet_lines fm)))
      (zip faces markers) (λ _ fm, format_poly_facet_lines fm)) as Hf.
    rewrite map_id in Hf. rewrite Hf, rbind_Ok_l. clear Hf Hnodes Hp.
    assert ((if decide (length holes ≠ 0)
             then do holes_head <-
                    format_w (py "%d\n") [IntArg (Z.of_nat (length holes))];
                  do hs <- comprehension
                             (λ ih : nat * vec3,
                                format_w (py "%5d %+1.15e %+1.15e %+1.15e\n")
                                         [IntArg (Z.of_nat ih.1); FloatArg ih.2.1.1;
                                          FloatArg ih.2.1.2; FloatArg ih.2.2])
                             (enumerate holes);
                  Ok (holes_head +:+ writes hs)
             else Ok (py "0\n"))
            = Ok ((fmt_d (Z.of_nat (length holes)) +:+ nl)
                  +:+ writes (imap (λ i p, poly_point_line i p +:+ nl) holes))) as ->.
    { case_decide as Hlen.
      - rewrite Hh.
        assert (∀ n, format_w (py "%d\n") [IntArg n] = Ok (fmt_d n +:+ nl)) as ->
          by reflexivity.
        by rewrite !rbind_Ok_l.
      - destruct holes; [reflexivity | simpl in Hlen; lia]. }
    rewrite rbind_Ok_l. f_equal. unfold file_lines.
    rewrite !map_app, !writes_app. cbn [map]. rewrite !writes_singleton.
    change (imap (λ _ fm, writes (map (λ s, s +:+ nl) (poly_facet_lines fm)))
                 (zip faces markers))
      with (imap (const (λ fm, writes (map (λ s, s +:+ nl) (poly_facet_lines fm))))
                 (zip faces markers)).
    rewrite imap_const.
    change (?f <$> zip faces markers) with (map f (zip faces markers)).
    rewrite writes_concat_lines, !imap_full_lines.
    by rewrite !string_app_assoc. }
  exists (writes (map (λ l, l +:+ nl) file_lines)). split_and!; [done..| |].
  - by apply lines_writes.
  - unfold file_lines. rewrite !length_app, !length_imap. simpl.
    assert (length (concat (map poly_facet_lines (zip faces markers)))
            = 2 * (length faces `min` length markers)) as ->.
    { rewrite <-(length_zip_with pair faces markers). generalize (zip faces markers).
      intros l. induction l as [|fm l IH]; simpl; [done|]. rewrite IH. lia. }
    lia.
Qed.

(** [write_ply] raises nothing and writes full lines: the nine lines of the
    header, with the numbers of points and of faces, then one line per
    point with its coordinates, then one line per face with [3] and its
    vertex indices as they are in the mesh. *)
Theorem write_ply_lines (mesh : MeshInfo.t) :
  let points := MeshInfo.points mesh in
  let faces := MeshInfo.faces mesh in
  let file_lines :=
    ["ply"; "ascii 1.0";
     "element vertex " +:+ fmt_d (Z.of_nat (length points));
     "property float x"; "property float y"; "property float z";
     "element face " +:+ fmt_d (Z.of_nat (length faces));
     "property list uchar int vertex_index"; "end_header"]
    ++ map ply_point_line points ++ map ply_face_line faces in
  ∃ text,
    write_ply mesh = Ok text
    ∧ text = writes (map (λ l, l +:+ nl) file_lines)
    ∧ lines text = file_lines
    ∧ length file_lines = 9 + length points + length faces.
Proof.
  intros points faces file_lines.
  assert (Forall (λ s, no_LF s = true) file_lines) as Hno.
  { unfold file_lines. rewrite !Forall_app. split_and!.
    - repeat constructor; by rewrite no_LF_app, no_LF_fmt_d.
    - apply Forall_map, Forall_forall. intros p _. apply no_LF_ply_point_line.
    - apply Forall_map, Forall_forall. intros f _. apply no_LF_ply_face_line. }
  assert (write_ply mesh = Ok (writes (map (λ l, l +:+ nl) file_lines))) as Hrun.
  { unfold write_ply. fold points faces.
    assert (∀ n, format_w (py "element vertex %d\n") [IntArg n]
                 = Ok (("element vertex " +:+ fmt_d n) +:+ nl)) as ->
      by (intros n; rewrite string_app_assoc; reflexivity).
    rewrite rbind_Ok_l.
    assert (∀ n, format_w (py "element face %d\n") [IntArg n]
                 = Ok (("element face " +:+ fmt_d n) +:+ nl)) as ->
      by (intros n; rewrite string_app_assoc; reflexivity).
    rewrite rbind_Ok_l.
    rewrite (comprehension_map _ (λ p, ply_point_line p +:+ nl))
      by apply format_ply_point_line.
    rewrite rbind_Ok_l.
    rewrite (comprehension_map _ (λ fac, ply_face_line fac +:+ nl))
      by apply format_ply_face_line.
    rewrite rbind_Ok_l. f_equal. unfold file_lines.
    rewrite !map_app, !writes_app, !map_map. cbn [map].
    change (writes [?a; ?b; ?c; ?d; ?e; ?f; ?g; ?h; ?i])
      with (a +:+ b +:+ c +:+ d +:+ e +:+ f +:+ g +:+ h +:+ i +:+ "").
    rewrite !string_app_assoc. reflexivity. }
  exists (writes (map (λ l, l +:+ nl) file_lines)). split_and!; [done..| |].
  - by apply lines_writes.
  - unfold file_lines. rewrite !length_app, !length_map. simpl. lia.
Qed.

(** ** [write_msh]: the file, line by line *)

Lemma imap_full_lines_gen {A : Type} (f : nat → A → string) (l : list A) :
  imap (λ i a, f i a +:+ nl) l = map (λ s, s +:+ nl) (imap f l).
Proof.
  revert f. induction l as [|a l IH]; intros f; simpl; [done|].
  f_equal. apply (IH (f ∘ S)).
Qed.

(** [write_msh] writes full lines. The line after [$Elements] announces
    the number of faces, and it is followed by one line per pair of a face
    and a marker, as many as the shorter of the two lists; the first tag of
    such a line is never 0. *)
Theorem write_msh_lines (mesh : MeshInfo.t) :
  let points := MeshInfo.points mesh in
  let faces := MeshInfo.faces mesh in
  let markers := MeshInfo.face_markers mesh in
  let file_lines :=
    ["$MeshFormat"; "2.2 0 8"; "$EndMeshFormat"; "$Nodes";
     fmt_d (Z.of_nat (length points))]
    ++ imap (λ i (p : vec3),
               fmt_d (Z.of_nat i + 1) +:+ " " +:+ fmt_e15 p.1.1 +:+ " "
               +:+ fmt_e15 p.1.2 +:+ " " +:+ fmt_e15 p.2) points
    ++ ["$EndNodes"; "$Elements"; fmt_d (Z.of_nat (length faces))]
    ++ imap (λ i (fm : (Z * Z * Z) * Z),
               fmt_d (Z.of_nat i + 1) +:+ " 2 2 " +:+ fmt_d (written_marker fm.2)
               +:+ " 0 " +:+ fmt_d (node_id fm.1.1.1) +:+ " "
               +:+ fmt_d (node_id fm.1.1.2) +:+ " " +:+ fmt_d (node_id fm.1.2))
            (zip faces markers)
    ++ ["$EndElements"] in
  ∃ text,
    write_msh mesh = Ok text
    ∧ lines text = file_lines
    ∧ length file_lines
      = 9 + length points + (length faces `min` length markers)
    ∧ ∀ m, written_marker m ≠ 0%Z.
Proof.
  intros points faces markers file_lines.
  exists (msh_text mesh). split_and!.
  - apply write_msh_text.
  - assert (msh_text mesh = writes (map (λ l, l +:+ nl) file_lines)) as ->.
    { unfold msh_text, file_lines. fold points faces markers.
      rewrite !map_app, !writes_app, <-!imap_full_lines_gen. cbn [map].
      change (writes [?a; ?b; ?c; ?d; ?e]) with (a +:+ b +:+ c +:+ d +:+ e +:+ "").
      change (writes [?a; ?b; ?c]) with (a +:+ b +:+ c +:+ "").
      change (writes [?a]) with (a +:+ "").
      assert (imap node_line points
              = imap (λ i (p : vec3),
                        (fmt_d (Z.of_nat i + 1) +:+ " " +:+ fmt_e15 p.1.1 +:+ " "
                         +:+ fmt_e15 p.1.2 +:+ " " +:+ fmt_e15 p.2) +:+ nl) points)
        as ->.
      { apply imap_ext. intros i p _. unfold node_line.
        by rewrite !string_app_assoc. }
      assert (imap element_line (zip faces markers)
              = imap (λ i (fm : (Z * Z * Z) * Z),
                        (fmt_d (Z.of_nat i + 1) +:+ " 2 2 "
                         +:+ fmt_d (written_marker fm.2) +:+ " 0 "
                         +:+ fmt_d (node_id fm.1.1.1) +:+ " "
                         +:+ fmt_d (node_id fm.1.1.2) +:+ " "
                         +:+ fmt_d (node_id fm.1.2)) +:+ nl) (zip faces markers))
        as ->.
      { apply imap_ext. intros i fm _. unfold element_line.
        rewrite !string_app_assoc. reflexivity. }
      rewrite !string_app_assoc. reflexivity. }
    apply lines_writes. unfold file_lines. rewrite !Forall_app. split_and!.
    + repeat constructor. apply no_LF_fmt_d.
    + apply Forall_lookup. intros i s Hs. rewrite list_lookup_imap in Hs.
      destruct (points !! i); simplify_eq/=.
      by rewrite !no_LF_app, no_LF_fmt_d, !no_LF_fmt_e15.
    + repeat constructor. apply no_LF_fmt_d.
    + apply Forall_lookup. intros i s Hs. rewrite list_lookup_imap in Hs.
      destruct (zip faces markers !! i); simplify_eq/=.
      by rewrite !no_LF_app, !no_LF_fmt_d.
    + by repeat constructor.
  - unfold file_lines. rewrite !length_app, !length_imap, length_zip_with. simpl. lia.
  - intros m. unfold written_marker. destruct (0 <? int32 m)%Z eqn:Hm; [|done].
    apply Z.ltb_lt in Hm. lia.
Qed.

(** ** A log that ends within the statistics *)

Lemma read_lines_eof (n : nat) : read_lines n "" = Ok (replicate n "").
Proof. induction n as [|n IH]; [done|]. cbn [read_lines]. simpl. by rewrite IH. Qed.

Lemma readline_no_LF (s : string) : no_LF s = true → readline s = (s, "").
Proof.
  induction s as [|c s IH]; [done|]. rewrite no_LF_String.
  intros [Hc Hs]%andb_true_iff. apply negb_true_iff in Hc.
  cbn [readline]. by rewrite Hc, (IH Hs).
Qed.

(** Reading past the end: the complete lines, the cut line, then [b'']. *)
Lemma read_lines_join (n : nat) (ls : list string) (cut : string) :
  Forall (λ l, is_full_line l = true ∧ is_ascii l = true) ls →
  no_LF cut = true → is_ascii cut = true →
  length ls < n →
  read_lines n (join_lines ls +:+ cut)
  = Ok (ls ++ cut :: replicate (n - length ls - 1) "").
Proof.
  intros Hls Hcut Hascii. revert n.
  induction Hls as [|l ls [Hfull Hl] _ IH]; intros n Hn.
  - destruct n as [|n]; [simpl in Hn; lia|]. cbn [read_lines].
    change (join_lines [] +:+ cut) with cut.
    rewrite readline_no_LF by done. cbv zeta. cbn [fst snd].
    unfold decode_ascii. rewrite Hascii, rbind_Ok_l, read_lines_eof.
    simpl. by rewrite Nat.sub_0_r.
  - destruct n as [|n]; [simpl in Hn; lia|]. cbn [read_lines].
    change (join_lines (l :: ls)) with (l +:+ join_lines ls).
    rewrite string_app_assoc, readline_full_line by done. cbv zeta. cbn [fst snd].
    unfold decode_ascii. rewrite Hl, rbind_Ok_l, IH by (simpl in Hn; lia). done.
Qed.

Lemma last_token_raises (sl : string) (e : exn) :
  last_count sl = Raise e → e = IndexError ∨ e = ValueError.
Proof. intros [[-> _] | [-> _]]%last_count_Raise; [by left | by right]. Qed.

Lemma comprehension_raises {A B : Type} (F : A → result B) (l : list A) (x : A)
    (e0 : exn) :
  F x = Raise e0 →
  ∃ e, comprehension F (l ++ [x]) = Raise e ∧ ∃ y, y ∈ l ++ [x] ∧ F y = Raise e.
Proof.
  intros Hx. induction l as [|a l (e & He & y & Hy & HFy)]; simpl.
  - rewrite Hx. simpl. exists e0. split; [done|]. exists x. split; [set_solver|done].
  - destruct (F a) as [b|ea] eqn:Ha; simpl.
    + rewrite He. simpl. exists e. split; [done|]. exists y. split; [set_solver|done].
    + exists ea. split; [done|]. exists a. split; [set_solver|done].
Qed.

(** When the log ends before the eleventh line after the line with
    ['Statistics:'] begins (fewer than eleven lines follow it, counting a
    last line cut before its newline), the counts are read from lines that
    are not there: [extract_stats] raises [IndexError], or the [ValueError]
    of an earlier line whose last token is no integer, and the exception
    leaves the context manager in place of the mesh; with at most seven
    lines after the header it is [IndexError]. *)
Theorem extract_stats_truncated (before after : list string) (header cut : string)
    (fuel : nat) :
  Forall (λ l, is_full_line l = true ∧ is_ascii l = true
               ∧ contains "Statistics:" l = false) before →
  is_full_line header = true → is_ascii header = true →
  contains "Statistics:" header = true →
  Forall (λ l, is_full_line l = true ∧ is_ascii l = true) after →
  no_LF cut = true → is_ascii cut = true →
  let lines_after := length after + (if decide (cut = "") then 0 else 1) in
  lines_after < 11 →
  length before < fuel →
  let log := join_lines before +:+ header +:+ join_lines after +:+ cut in
  ∃ e,
    extract_stats fuel log = Some (Raise e)
    ∧ (e = IndexError ∨ e = ValueError)
    ∧ (lines_after ≤ 7 → e = IndexError)
    ∧ ∀ (A : Type) (mesh : A),
        redirect_tetgen_output fuel (Ok (mesh, log)) = Some (Raise e).
Proof.
  intros Hbefore Hfull Hascii Hin Hafter Hcut Hcuta lines_after Hlen Hfuel log.
  pose proof (extract_stats_found before header (join_lines after +:+ cut) fuel
                Hbefore Hfull Hascii Hin Hfuel) as Hrun.
  fold log in Hrun.
  assert (length after < 11) as Hlt by (unfold lines_after in Hlen; lia).
  assert (∃ e, stats_summary (join_lines after +:+ cut) = Raise e
               ∧ (e = IndexError ∨ e = ValueError)
               ∧ (lines_after ≤ 7 → e = IndexError)) as (e & He & Hkind & Hseven).
  { rewrite stats_summary_counts, read_lines_join, rbind_Ok_l by done.
    assert (last_count "" = Raise IndexError) as Hempty by reflexivity.
    assert (∃ l, drop 7 (after ++ cut :: replicate (11 - length after - 1) "")
                 = l ++ [""]
                 ∧ (lines_after ≤ 7 → l = [""; ""; ""])) as (l & -> & Hl).
    { unfold lines_after in *. case_decide as Hc.
      - subst cut. change ("" :: replicate (11 - length after - 1) "")
          with (replicate (S (11 - length after - 1)) "").
        rewrite replicate_S_end, app_assoc, drop_app_le
          by (rewrite length_app, length_replicate; lia).
        eexists. split; [reflexivity|]. intros H7.
        rewrite drop_app_ge by lia. rewrite drop_replicate.
        replace (11 - length after - 1 - (7 - length after)) with 3 by lia. done.
      - destruct (11 - length after - 1) as [|k] eqn:Hk; [lia|].
        rewrite replicate_S_end.
        change (cut :: replicate k "" ++ [""]) with ((cut :: replicate k "") ++ [""]).
        rewrite app_assoc, drop_app_le
          by (rewrite length_app; cbn [length]; rewrite length_replicate; lia).
        eexists. split; [reflexivity|]. intros H7.
        rewrite drop_app_ge by lia.
        destruct (7 - length after) as [|j] eqn:Hj; [lia|].
        cbn [drop]. rewrite drop_replicate.
        replace (k - j) with 3 by lia. done. }
    destruct (comprehension_raises last_count l "" IndexError Hempty)
      as (e & He & y & _ & Hy).
    exists e. rewrite He. split_and!; [done| |].
    - by apply (last_token_raises y).
    - intros H7. rewrite (Hl H7) in He. simpl in He. congruence. }
  exists e. rewrite Hrun, He. split_and!; [done..|].
  intros A mesh. unfold redirect_tetgen_output. by rewrite Hrun, He.
Qed.

(** A log cut inside the second line of the statistics. *)
Lemma extract_stats_truncated_witness :
  ∃ e,
    extract_stats 2 (join_lines log_before +:+ log_header
                     +:+ join_lines [nl] +:+ "  Input poi")
    = Some (Raise e)
    ∧ e = IndexError.
Proof.
  destruct (extract_stats_truncated log_before [nl] log_header "  Input poi" 2)
    as (e & Hrun & _ & Hseven & _).
  - repeat constructor; vm_compute; reflexivity.
  - vm_compute; reflexivity.
  - vm_compute; reflexivity.
  - vm_compute; reflexivity.
  - repeat constructor; vm_compute; reflexivity.
  - vm_compute; reflexivity.
  - vm_compute; reflexivity.
  - vm_compute. lia.
  - simpl. lia.
  - exists e. split; [exact Hrun|]. apply Hseven. vm_compute. lia.
Defined.
